(** * CougarFanz: the MediaHub chunked upload protocol

    A shallow embedding of the resumable chunked upload code:
    - class [MediaHubClient] (the "FanzMediaHub Client" module kept in
      [src/server/services/unifiedAIGatewayService.ts], exported as
      [mediaHubClient]): the upload session store, the forensic signature
      and the finalisation of an upload into a media asset;
    - the MediaHub router (kept in [src/shared/monitoring/SelfHealingSystem.ts]):
      the [POST /upload/init] handler;
    - the hook [useChunkedUpload] ([src/unnamed/part_004]): chunk partition,
      the per-chunk retry loop and the bounded pool of [uploadFile];
    - around these: the connection state of the client, the other upload
      routes, [formatTime], and the class [UnifiedAIGatewayService] of the
      first file (provider selection, cache key, response cache and the
      counters of [chatCompletion]).

    Conventions.  Byte counts, chunk counts and clock readings are JavaScript
    numbers holding integers below 2^53; they are embedded as [Z] (on that
    range [x++], [+], [*] and [Math.ceil (a / b)] are exact).  The one
    quotient that is reported as a fraction, the progress percentage, is
    embedded as an exact rational, together with the non-finite results of a
    division by zero; the rounding of doubles is not part of the embedding.
    A JavaScript string is embedded as the [string] of its UTF-8 bytes, which
    is what [Hash.update] digests.  Every method of the store is a function
    from the client's state to a result and the state it leaves; what a
    method reads from outside (the clock, [crypto.randomUUID], the answer of
    the central service) is an argument.  In standalone mode no method
    awaits, so a call runs from start to end without another call in
    between; the sequences of operations below are sequences of such whole
    calls.  A [Date] that is passed to the code may be an Invalid Date; a
    reading of the clock never is. *)

From Stdlib Require Import ZArith List String Ascii QArith Qround DecimalString DecimalPos Lia.
From Stdlib Require HexadecimalString.
From Stdlib.Strings Require Import Byte.
From stdpp Require Import base gmap strings list.
Import ListNotations.

(* ===================================================================== *)
(** ** Node's [crypto.createHash]: SHA-256 and MD5, hex digests *)
(* ===================================================================== *)

Module Crypto.
Local Open Scope Z_scope.

Definition mask32 : Z := Z.ones 32.
Definition add32 (x y : Z) : Z := Z.land (x + y) mask32.
Definition not32 (x : Z) : Z := Z.lxor x mask32.
Definition rotr32 (n x : Z) : Z :=
  Z.lor (Z.shiftr x n) (Z.land (Z.shiftl x (32 - n)) mask32).
Definition rotl32 (n x : Z) : Z :=
  Z.lor (Z.land (Z.shiftl x n) mask32) (Z.shiftr x (32 - n)).

(** The bytes a digest is fed with. *)
Definition bytes_of_buffer (b : list Byte.byte) : list Z :=
  map (fun x => Z.of_N (Byte.to_N x)) b.
Definition bytes_of_string (s : string) : list Z :=
  bytes_of_buffer (list_byte_of_string s).

Definition be_bytes (n : nat) (x : Z) : list Z :=
  map (fun i => Z.land (Z.shiftr x (8 * Z.of_nat i)) 255) (rev (seq 0 n)).
Definition le_bytes (n : nat) (x : Z) : list Z :=
  map (fun i => Z.land (Z.shiftr x (8 * Z.of_nat i)) 255) (seq 0 n).
Definition be_word (bs : list Z) : Z := fold_left (fun acc b => acc * 256 + b) bs 0.
Definition le_word (bs : list Z) : Z := fold_right (fun b acc => b + 256 * acc) 0 bs.

(** [groups fuel n l] cuts [l] into consecutive pieces of [n] elements. *)
Fixpoint groups {A} (fuel n : nat) (l : list A) : list (list A) :=
  match fuel with
  | O => []
  | S fuel' =>
      match l with
      | [] => []
      | _ => firstn n l :: groups fuel' n (skipn n l)
      end
  end.

Definition blocks64 (m : list Z) : list (list Z) := groups (length m) 64 m.

(** Zero bytes after the 0x80 marker so that the length field ends a block. *)
Definition pad_zeros (len : Z) : nat := Z.to_nat ((55 - len) mod 64).

(** *** Lower-case hexadecimal, as [digest('hex')] prints it *)

Definition hexdigit (n : Z) : ascii :=
  match n with
  | 0 => "0" | 1 => "1" | 2 => "2" | 3 => "3" | 4 => "4" | 5 => "5"
  | 6 => "6" | 7 => "7" | 8 => "8" | 9 => "9" | 10 => "a" | 11 => "b"
  | 12 => "c" | 13 => "d" | 14 => "e" | _ => "f"
  end%char.

Fixpoint hex_of_bytes (bs : list Z) : string :=
  match bs with
  | [] => EmptyString
  | b :: bs' =>
      String (hexdigit (Z.land (Z.shiftr b 4) 15))
        (String (hexdigit (Z.land b 15)) (hex_of_bytes bs'))
  end.

(** *** SHA-256 (FIPS 180-4) *)

Record state8 := State8 { sa : Z; sb : Z; sc : Z; sd : Z; se : Z; sf : Z; sg : Z; sh : Z }.

Definition sha256_K : list Z :=
  [ 1116352408; 1899447441; 3049323471; 3921009573; 961987163; 1508970993;
    2453635748; 2870763221; 3624381080; 310598401; 607225278; 1426881987;
    1925078388; 2162078206; 2614888103; 3248222580; 3835390401; 4022224774;
    264347078; 604807628; 770255983; 1249150122; 1555081692; 1996064986;
    2554220882; 2821834349; 2952996808; 3210313671; 3336571891; 3584528711;
    113926993; 338241895; 666307205; 773529912; 1294757372; 1396182291;
    1695183700; 1986661051; 2177026350; 2456956037; 2730485921; 2820302411;
    3259730800; 3345764771; 3516065817; 3600352804; 4094571909; 275423344;
    430227734; 506948616; 659060556; 883997877; 958139571; 1322822218;
    1537002063; 1747873779; 1955562222; 2024104815; 2227730452; 2361852424;
    2428436474; 2756734187; 3204031479; 3329325298 ].

Definition sha256_init : state8 :=
  State8 1779033703 3144134277 1013904242 2773480762
         1359893119 2600822924 528734635 1541459225.

Definition big_sigma0 x := Z.lxor (Z.lxor (rotr32 2 x) (rotr32 13 x)) (rotr32 22 x).
Definition big_sigma1 x := Z.lxor (Z.lxor (rotr32 6 x) (rotr32 11 x)) (rotr32 25 x).
Definition small_sigma0 x := Z.lxor (Z.lxor (rotr32 7 x) (rotr32 18 x)) (Z.shiftr x 3).
Definition small_sigma1 x := Z.lxor (Z.lxor (rotr32 17 x) (rotr32 19 x)) (Z.shiftr x 10).
Definition choose x y z := Z.lxor (Z.land x y) (Z.land (not32 x) z).
Definition majority x y z := Z.lxor (Z.lxor (Z.land x y) (Z.land x z)) (Z.land y z).

(** The message schedule, newest word first while it is being extended. *)
Fixpoint sha256_extend (n : nat) (w : list Z) : list Z :=
  match n with
  | O => w
  | S n' =>
      let g i := nth i w 0 in
      sha256_extend n'
        (add32 (add32 (small_sigma1 (g 1%nat)) (g 6%nat))
               (add32 (small_sigma0 (g 14%nat)) (g 15%nat)) :: w)
  end.

Definition sha256_schedule (block : list Z) : list Z :=
  rev (sha256_extend 48 (rev (map be_word (groups 16 4 block)))).

Definition sha256_round (s : state8) (kw : Z * Z) : state8 :=
  let t1 := add32 (add32 (add32 (sh s) (big_sigma1 (se s)))
                         (add32 (choose (se s) (sf s) (sg s)) (fst kw))) (snd kw) in
  let t2 := add32 (big_sigma0 (sa s)) (majority (sa s) (sb s) (sc s)) in
  State8 (add32 t1 t2) (sa s) (sb s) (sc s) (add32 (sd s) t1) (se s) (sf s) (sg s).

Definition add_state (s t : state8) : state8 :=
  State8 (add32 (sa s) (sa t)) (add32 (sb s) (sb t)) (add32 (sc s) (sc t))
         (add32 (sd s) (sd t)) (add32 (se s) (se t)) (add32 (sf s) (sf t))
         (add32 (sg s) (sg t)) (add32 (sh s) (sh t)).

Definition sha256_block (s : state8) (block : list Z) : state8 :=
  add_state s (fold_left sha256_round (combine sha256_K (sha256_schedule block)) s).

Definition sha256_pad (m : list Z) : list Z :=
  let len := Z.of_nat (length m) in
  m ++ [128] ++ repeat 0 (pad_zeros len) ++ be_bytes 8 (8 * len).

Definition sha256_state (m : list Z) : state8 :=
  fold_left sha256_block (blocks64 (sha256_pad m)) sha256_init.

Definition state8_bytes (s : state8) : list Z :=
  flat_map (be_bytes 4) [sa s; sb s; sc s; sd s; se s; sf s; sg s; sh s].

(** [crypto.createHash('sha256').update(s).digest('hex')] *)
Definition sha256_hex (s : string) : string :=
  hex_of_bytes (state8_bytes (sha256_state (bytes_of_string s))).

(** *** MD5 (RFC 1321) *)

Definition md5_K : list Z :=
  [ 3614090360; 3905402710; 606105819; 3250441966; 4118548399; 1200080426;
    2821735955; 4249261313; 1770035416; 2336552879; 4294925233; 2304563134;
    1804603682; 4254626195; 2792965006; 1236535329; 4129170786; 3225465664;
    643717713; 3921069994; 3593408605; 38016083; 3634488961; 3889429448;
    568446438; 3275163606; 4107603335; 1163531501; 2850285829; 4243563512;
    1735328473; 2368359562; 4294588738; 2272392833; 1839030562; 4259657740;
    2763975236; 1272893353; 4139469664; 3200236656; 681279174; 3936430074;
    3572445317; 76029189; 3654602809; 3873151461; 530742520; 3299628645;
    4096336452; 1126891415; 2878612391; 4237533241; 1700485571; 2399980690;
    4293915773; 2240044497; 1873313359; 4264355552; 2734768916; 1309151649;
    4149444226; 3174756917; 718787259; 3951481745 ].

Definition md5_shifts : list Z :=
  concat (map (fun r => r ++ r ++ r ++ r)
              [[7; 12; 17; 22]; [5; 9; 14; 20]; [4; 11; 16; 23]; [6; 10; 15; 21]]).

Record state4 := State4 { ma : Z; mb : Z; mc : Z; md : Z }.

Definition md5_init : state4 := State4 0x67452301 0xefcdab89 0x98badcfe 0x10325476.

Definition md5_round (m : list Z) (s : state4) (i : nat) : state4 :=
  let zi := Z.of_nat i in
  let '(f, g) :=
    if zi <? 16 then
      (Z.lor (Z.land (mb s) (mc s)) (Z.land (not32 (mb s)) (md s)), zi)
    else if zi <? 32 then
      (Z.lor (Z.land (md s) (mb s)) (Z.land (not32 (md s)) (mc s)), (5 * zi + 1) mod 16)
    else if zi <? 48 then
      (Z.lxor (Z.lxor (mb s) (mc s)) (md s), (3 * zi + 5) mod 16)
    else
      (Z.lxor (mc s) (Z.lor (mb s) (not32 (md s))), (7 * zi) mod 16) in
  let f' := add32 (add32 f (ma s)) (add32 (nth i md5_K 0) (nth (Z.to_nat g) m 0)) in
  State4 (md s) (add32 (mb s) (rotl32 (nth i md5_shifts 0) f')) (mb s) (mc s).

Definition md5_block (s : state4) (block : list Z) : state4 :=
  let m := map le_word (groups 16 4 block) in
  let t := fold_left (md5_round m) (seq 0 64) s in
  State4 (add32 (ma s) (ma t)) (add32 (mb s) (mb t))
         (add32 (mc s) (mc t)) (add32 (md s) (md t)).

Definition md5_pad (m : list Z) : list Z :=
  let len := Z.of_nat (length m) in
  m ++ [128] ++ repeat 0 (pad_zeros len) ++ le_bytes 8 (8 * len).

Definition md5_state (m : list Z) : state4 :=
  fold_left md5_block (blocks64 (md5_pad m)) md5_init.

(** [crypto.createHash('md5').update(buf).digest('hex')] *)
Definition md5_hex (buf : list Byte.byte) : string :=
  let s := md5_state (bytes_of_buffer buf) in
  hex_of_bytes (flat_map (le_bytes 4) [ma s; mb s; mc s; md s]).

End Crypto.

(* ===================================================================== *)
(** ** The JavaScript built-ins the upload code calls *)
(* ===================================================================== *)

Module Js.
Local Open Scope Z_scope.

(** [String.prototype.toUpperCase] on the ASCII range. *)
Definition upper_ascii (c : ascii) : ascii :=
  let n := nat_of_ascii c in
  if ((97 <=? n) && (n <=? 122))%nat then ascii_of_nat (n - 32) else c.

Fixpoint toUpperCase (s : string) : string :=
  match s with
  | EmptyString => EmptyString
  | String c s' => String (upper_ascii c) (toUpperCase s')
  end.

(** [Number.prototype.toString] of an integer of the embedding (below 2^53;
    the built-in changes to exponent notation from 1e21 on). *)
Definition toString (n : Z) : string := DecimalString.NilZero.string_of_int (Z.to_int n).

(** [Math.ceil (a / b)] for integers [a] and [b], [b] not zero. *)
Definition ceil_div (a b : Z) : Z := Qceiling (inject_Z a / inject_Z b).

(** A number that is the result of a division: a finite fraction, an
    infinity (integers carry no signed zero, so its sign is not tracked) or
    [NaN]. *)
Inductive Number :=
| Finite (q : Q)
| Infinite
| NaN.

(** [a / b] *)
Definition div (a b : Z) : Number :=
  if b =? 0 then (if a =? 0 then NaN else Infinite)
  else Finite (inject_Z a / inject_Z b).

(** [x * k] for a finite non-zero integer [k] *)
Definition times (x : Number) (k : Z) : Number :=
  match x with
  | Finite q => Finite (q * inject_Z k)
  | Infinite => Infinite
  | NaN => NaN
  end.

(** *** [Date] *)

(** A [Date] holds a time value: a whole number of milliseconds within
    8.64e15 of the epoch, or NaN, and is then an Invalid Date.  [Time ms] is
    [new Date(ms)], which is an Invalid Date when [ms] is out of that
    range. *)
Inductive Date :=
| Time (ms : Z)
| InvalidDate.

Definition maxTime : Z := 8640000000000000.

Definition time_value (date : Date) : option Z :=
  match date with
  | Time ms => if Z.abs ms <=? maxTime then Some ms else None
  | InvalidDate => None
  end.

(** [width] decimal digits of a natural number, zero padded. *)
Fixpoint digits (width : nat) (n : Z) : string :=
  match width with
  | O => EmptyString
  | S w => digits w (n / 10) +:+ String (ascii_of_nat (48 + Z.to_nat (n mod 10))) EmptyString
  end.

Definition msPerDay : Z := 86400000.

(** Year, month and day of a day number counted from 1970-01-01, in the
    proleptic Gregorian calendar. *)
Definition civil_of_days (days : Z) : Z * Z * Z :=
  let z := days + 719468 in
  let era := z / 146097 in
  let doe := z - era * 146097 in
  let yoe := (doe - doe / 1460 + doe / 36524 - doe / 146096) / 365 in
  let doy := doe - (365 * yoe + yoe / 4 - yoe / 100) in
  let mp := (5 * doy + 2) / 153 in
  let d := doy - (153 * mp + 2) / 5 + 1 in
  let m := if mp <? 10 then mp + 3 else mp - 9 in
  let y := yoe + era * 400 + (if m <=? 2 then 1 else 0) in
  (y, m, d).

Definition year_string (y : Z) : string :=
  if (0 <=? y) && (y <=? 9999) then digits 4 y
  else (if y <? 0 then "-" else "+") +:+ digits 6 (Z.abs y).

(** The text [toISOString] prints for the time value [t]. *)
Definition iso_text (t : Z) : string :=
  let '(y, m, d) := civil_of_days (t / msPerDay) in
  let ms := t mod msPerDay in
  year_string y +:+ "-" +:+ digits 2 m +:+ "-" +:+ digits 2 d +:+ "T"
  +:+ digits 2 (ms / 3600000) +:+ ":" +:+ digits 2 (ms / 60000 mod 60) +:+ ":"
  +:+ digits 2 (ms / 1000 mod 60) +:+ "." +:+ digits 3 (ms mod 1000) +:+ "Z".

(** [Date.prototype.toISOString]; [None]: it throws [RangeError: Invalid
    time value], as it does on an Invalid Date. *)
Definition toISOString (date : Date) : option string :=
  match time_value date with
  | Some t => Some (iso_text t)
  | None => None
  end.

End Js.

(* ===================================================================== *)
(** ** [MediaHubClient]: the upload session store *)
(* ===================================================================== *)

(** What a call to the central MediaHub service came to: a 2xx response
    whose JSON body was read, another response, or an exception inside the
    [try] before the method changed anything ([fetch] or [response.json()]
    threw, or [initializeUpload] read the [uploadId] of a [null] body),
    which the [catch] of every method logs. *)
Inductive Fetch (A : Type) :=
| FetchOk (body : A)
| FetchNotOk
| FetchError.
Arguments FetchOk {A} body.
Arguments FetchNotOk {A}.
Arguments FetchError {A}.

(** How a method ends: with a value or with a thrown [Error]. *)
Inductive Outcome (A : Type) :=
| Returned (value : A)
| Thrown (message : string).
Arguments Returned {A} value.
Arguments Thrown {A} message.

Module Status.
Inductive t := initializing | in_progress | completing | completed | failed.
End Status.

Module Processing.
Inductive t := pending | processing | completed | failed.
End Processing.

Module PLATFORM_CONFIG.
Definition platformId : string := "cougarfanz".
Definition platformName : string := "CougarFanz".
End PLATFORM_CONFIG.

Module MediaHub.
Local Open Scope Z_scope.

Definition CHUNK_SIZE : Z := 5 * 1024 * 1024.

Record UploadSession := {
  uploadId : string;
  platformId : string;
  creatorId : string;
  filename : string;
  fileSize : Z;
  mimeType : string;
  totalChunks : Z;
  completedChunks : Z;
  s3Key : string;
  status : Status.t;
  forensicSignature : option string;
  createdAt : Z;
  expiresAt : Z
}.

(** [uploadChunk] only carries [chunkIndex] into its result (and, on the
    connected path, into a header of the request, which is not described):
    the result is written for any kind of index [I], an integer where the
    store is used by itself, whatever [parseInt] returned where the route
    calls it. *)
Record ChunkUploadResult (I : Type) := {
  success : bool;
  chunkIndex : I;
  etag : option string;
  error : option string
}.
Arguments success {I} _.
Arguments chunkIndex {I} _.
Arguments etag {I} _.
Arguments error {I} _.

(** The optional [cdnUrl], [thumbnailUrl] and [qualityVariants] are never
    set by this code and are left out. *)
Record MediaAsset := {
  id : string;
  asset_platformId : string;
  asset_creatorId : string;
  originalFilename : string;
  fileHash : string;
  asset_fileSize : Z;
  asset_mimeType : string;
  asset_forensicSignature : option string;
  processingStatus : Processing.t;
  asset_createdAt : Z
}.

(** The private fields of the class, with the module constant
    [MEDIAHUB_API_KEY] that every method tests next to [isConnected]. *)
Record MediaHubClient := {
  MEDIAHUB_API_KEY : string;
  isConnected : bool;
  uploadSessions : gmap string UploadSession
}.

Definition set_sessions (c : MediaHubClient) (m : gmap string UploadSession) : MediaHubClient :=
  {| MEDIAHUB_API_KEY := MEDIAHUB_API_KEY c; isConnected := isConnected c; uploadSessions := m |}.

(** [this.isConnected && MEDIAHUB_API_KEY] *)
Definition central (c : MediaHubClient) : bool :=
  isConnected c && negb (String.eqb (MEDIAHUB_API_KEY c) "").

(** The body of the central service's answer when it is consulted and
    answers 2xx; [None] sends the method to its local fallback. *)
Definition central_body {A} (c : MediaHubClient) (r : Fetch A) : option A :=
  if central c then
    match r with
    | FetchOk body => Some body
    | FetchNotOk | FetchError => None
    end
  else None.

(** *** generateForensicSignature *)

Record SignatureData := {
  sig_creatorId : string;
  timestamp : option Js.Date
}.

(** The lines that follow the choice of [ts]: [text] is [ts.toISOString()]. *)
Definition signature_of (creatorId text : string) : string :=
  let payload := creatorId +:+ "|" +:+ PLATFORM_CONFIG.platformId +:+ "|" +:+ text in
  let hash := Crypto.sha256_hex payload in
  "FANZ-" +:+ Js.toUpperCase (substring 0 16 hash).

(** [clock] is the time value of the [new Date()] that is made when no
    timestamp is passed; that date is valid whatever the clock reads.  A
    date that is passed is used as it is ([data.timestamp || new Date()]: an
    object is truthy), and [toISOString] throws on it if it is invalid. *)
Definition generateForensicSignature (clock : Z) (data : SignatureData) : Outcome string :=
  let text :=
    match timestamp data with
    | Some ts => Js.toISOString ts
    | None => Some (Js.iso_text clock)
    end in
  match text with
  | Some text => Returned (signature_of (sig_creatorId data) text)
  | None => Thrown "Invalid time value"
  end.

(** *** initializeUpload *)

Record UploadMetadata := {
  meta_filename : string;
  meta_fileSize : Z;
  meta_mimeType : string;
  meta_creatorId : string
}.

(** What [initializeUpload] reads from outside: [crypto.randomUUID()], the
    clock at its three readings, and the central service. *)
Record InitWorld := {
  init_uuid : string;
  init_clock_signature : Z;
  init_clock_created : Z;
  init_clock_expires : Z;
  init_remote : Fetch UploadSession
}.

Definition local_session (w : InitWorld) (metadata : UploadMetadata) : UploadSession :=
  let uploadId := init_uuid w in
  let totalChunks := Js.ceil_div (meta_fileSize metadata) CHUNK_SIZE in
  let forensicSignature :=
    generateForensicSignature (init_clock_signature w)
      {| sig_creatorId := meta_creatorId metadata; timestamp := None |} in
  {| uploadId := uploadId;
     platformId := PLATFORM_CONFIG.platformId;
     creatorId := meta_creatorId metadata;
     filename := meta_filename metadata;
     fileSize := meta_fileSize metadata;
     mimeType := meta_mimeType metadata;
     totalChunks := totalChunks;
     completedChunks := 0;
     s3Key := "uploads/" +:+ PLATFORM_CONFIG.platformId +:+ "/" +:+ uploadId +:+ "/" +:+ meta_filename metadata;
     status := Status.in_progress;
     forensicSignature :=
       match forensicSignature with
       | Returned signature => Some signature
       | Thrown _ => None   (* not reached: the call passes no timestamp *)
       end;
     createdAt := init_clock_created w;
     expiresAt := init_clock_expires w + 24 * 60 * 60 * 1000 |}.

Definition initializeUpload (c : MediaHubClient) (w : InitWorld) (metadata : UploadMetadata)
  : UploadSession * MediaHubClient :=
  match central_body c (init_remote w) with
  | Some session =>
      (session, set_sessions c (<[uploadId session := session]> (uploadSessions c)))
  | None =>
      let session := local_session w metadata in
      (session, set_sessions c (<[init_uuid w := session]> (uploadSessions c)))
  end.

(** *** uploadChunk *)

Definition bump (session : UploadSession) : UploadSession :=
  {| uploadId := uploadId session;
     platformId := platformId session;
     creatorId := creatorId session;
     filename := filename session;
     fileSize := fileSize session;
     mimeType := mimeType session;
     totalChunks := totalChunks session;
     completedChunks := completedChunks session + 1;
     s3Key := s3Key session;
     status := status session;
     forensicSignature := forensicSignature session;
     createdAt := createdAt session;
     expiresAt := expiresAt session |}.

(** The result for an id that is not in the map. *)
Definition not_found {I : Type} (chunkIndex : I) : ChunkUploadResult I :=
  {| success := false; chunkIndex := chunkIndex; etag := None;
     error := Some "Session not found" |}.

(** The JSON body of the central service's 2xx answer to a chunk, as far as
    it is read: [null], on which reading [result.etag] throws, or any other
    value, with its [etag] field. *)
Inductive ChunkBody :=
| BodyNull
| BodyValue (body_etag : option string).

(** [remote] is the central service's answer to the chunk.  On a 2xx answer
    the counter is incremented before [result.etag] is read: with the body
    [null] that read throws, the [catch] logs it, and the local fallback
    increments the counter a second time. *)
Definition uploadChunk {I : Type} (c : MediaHubClient) (remote : Fetch ChunkBody)
    (uploadId : string) (chunkIndex : I) (chunkData : list Byte.byte)
  : ChunkUploadResult I * MediaHubClient :=
  match uploadSessions c !! uploadId with
  | None => (not_found chunkIndex, c)
  | Some session =>
      match central_body c remote with
      | Some (BodyValue result_etag) =>
          ({| success := true; chunkIndex := chunkIndex; etag := result_etag;
              error := None |},
           set_sessions c (<[uploadId := bump session]> (uploadSessions c)))
      | Some BodyNull =>
          ({| success := true; chunkIndex := chunkIndex;
              etag := Some (Crypto.md5_hex chunkData); error := None |},
           set_sessions c (<[uploadId := bump (bump session)]> (uploadSessions c)))
      | None =>
          ({| success := true; chunkIndex := chunkIndex;
              etag := Some (Crypto.md5_hex chunkData); error := None |},
           set_sessions c (<[uploadId := bump session]> (uploadSessions c)))
      end
  end.

(** *** completeUpload *)

Definition set_status (session : UploadSession) (s : Status.t) : UploadSession :=
  {| uploadId := uploadId session;
     platformId := platformId session;
     creatorId := creatorId session;
     filename := filename session;
     fileSize := fileSize session;
     mimeType := mimeType session;
     totalChunks := totalChunks session;
     completedChunks := completedChunks session;
     s3Key := s3Key session;
     status := s;
     forensicSignature := forensicSignature session;
     createdAt := createdAt session;
     expiresAt := expiresAt session |}.

Record CompleteWorld := {
  complete_uuid : string;
  complete_clock : Z;
  complete_remote : Fetch MediaAsset
}.

Definition local_asset (w : CompleteWorld) (uploadId : string) (session : UploadSession) : MediaAsset :=
  {| id := complete_uuid w;
     asset_platformId := PLATFORM_CONFIG.platformId;
     asset_creatorId := creatorId session;
     originalFilename := filename session;
     fileHash := Crypto.sha256_hex uploadId;
     asset_fileSize := fileSize session;
     asset_mimeType := mimeType session;
     asset_forensicSignature := forensicSignature session;
     processingStatus := Processing.pending;
     asset_createdAt := complete_clock w |}.

Definition completeUpload (c : MediaHubClient) (w : CompleteWorld) (uploadId : string)
  : Outcome MediaAsset * MediaHubClient :=
  match uploadSessions c !! uploadId with
  | None => (Thrown "Upload session not found", c)
  | Some session =>
      let completing := set_status session Status.completing in
      let c1 := set_sessions c (<[uploadId := completing]> (uploadSessions c)) in
      match central_body c (complete_remote w) with
      | Some asset =>
          (Returned asset, set_sessions c1 (delete uploadId (uploadSessions c1)))
      | None =>
          let asset := local_asset w uploadId completing in
          let c2 := set_sessions c1
                      (<[uploadId := set_status completing Status.completed]> (uploadSessions c1)) in
          (Returned asset, set_sessions c2 (delete uploadId (uploadSessions c2)))
      end
  end.

(** *** getUploadProgress and resumeUpload *)

Record Progress := {
  progress : Js.Number;
  progress_status : Status.t
}.

Definition getUploadProgress (c : MediaHubClient) (uploadId : string)
  : option Progress * MediaHubClient :=
  match uploadSessions c !! uploadId with
  | None => (None, c)
  | Some session =>
      (Some {| progress := Js.times (Js.div (completedChunks session) (totalChunks session)) 100;
               progress_status := status session |}, c)
  end.

Definition resumeUpload (c : MediaHubClient) (uploadId : string)
  : option (Z * UploadSession) * MediaHubClient :=
  match uploadSessions c !! uploadId with
  | Some session =>
      match status session with
      | Status.in_progress => (Some (completedChunks session, session), c)
      | _ => (None, c)
      end
  | None => (None, c)
  end.

(** *** Sequences of store operations *)

Inductive StoreOp :=
| OpInit (w : InitWorld) (metadata : UploadMetadata)
| OpChunk (remote : Fetch ChunkBody) (uploadId : string) (chunkIndex : Z)
          (chunkData : list Byte.byte)
| OpComplete (w : CompleteWorld) (uploadId : string).

Definition step (c : MediaHubClient) (op : StoreOp) : MediaHubClient :=
  match op with
  | OpInit w metadata => snd (initializeUpload c w metadata)
  | OpChunk remote uploadId chunkIndex chunkData =>
      snd (uploadChunk c remote uploadId chunkIndex chunkData)
  | OpComplete w uploadId => snd (completeUpload c w uploadId)
  end.

Definition run (c : MediaHubClient) (ops : list StoreOp) : MediaHubClient :=
  fold_left step ops c.

(** The key under which an [initializeUpload] registers its session. *)
Definition init_key (c : MediaHubClient) (w : InitWorld) : string :=
  match central_body c (init_remote w) with
  | Some session => uploadId session
  | None => init_uuid w
  end.

(** A client that never connected (no API key configured), with an empty
    session map: the state of the exported singleton at start-up. *)
Definition standalone : MediaHubClient :=
  {| MEDIAHUB_API_KEY := ""; isConnected := false; uploadSessions := ∅ |}.

End MediaHub.

(* ===================================================================== *)
(** ** The [/upload/init] route *)
(* ===================================================================== *)

Module Routes.
Import MediaHub.
Local Open Scope Z_scope.

(** The fields the handler reads from [req.body]; [None] is an absent
    field.  [user_id] is [req.user.id] of the authenticated request. *)
Record InitRequest := {
  body_filename : option string;
  body_fileSize : option Z;
  body_mimeType : option string;
  user_id : string
}.

(** [!x] is false *)
Definition truthy_string (x : option string) : bool :=
  match x with
  | Some s => negb (String.eqb s "")
  | None => false
  end.

Definition truthy_number (x : option Z) : bool :=
  match x with
  | Some n => negb (n =? 0)
  | None => false
  end.

Record InitData := {
  data_uploadId : string;
  data_chunkSize : Z;
  data_totalChunks : Z;
  data_forensicSignature : option string;
  data_expiresAt : Z
}.

(** [res.status(code).json({ success, data | error })] *)
Inductive Response (A : Type) :=
| Success (data : A)
| Failure (code : Z) (error : string).
Arguments Success {A} data.
Arguments Failure {A} code error.

Definition MAX_FILE_SIZE : Z := 10 * 1024 * 1024 * 1024.

Definition missing_fields : string := "Missing required fields: filename, fileSize, mimeType".

Definition upload_init (c : MediaHubClient) (w : InitWorld) (req : InitRequest)
  : Response InitData * MediaHubClient :=
  if negb (truthy_string (body_filename req)) || negb (truthy_number (body_fileSize req))
     || negb (truthy_string (body_mimeType req))
  then (Failure 400 missing_fields, c)
  else
    let filename := default "" (body_filename req) in
    let fileSize := default 0 (body_fileSize req) in
    let mimeType := default "" (body_mimeType req) in
    if fileSize >? MAX_FILE_SIZE
    then (Failure 400 "File too large. Maximum size is 10GB.", c)
    else
      let '(session, c') :=
        initializeUpload c w
          {| meta_filename := filename; meta_fileSize := fileSize;
             meta_mimeType := mimeType; meta_creatorId := user_id req |} in
      (Success {| data_uploadId := uploadId session;
                  data_chunkSize := CHUNK_SIZE;
                  data_totalChunks := totalChunks session;
                  data_forensicSignature := forensicSignature session;
                  data_expiresAt := expiresAt session |}, c').

End Routes.

(* ===================================================================== *)
(** ** [useChunkedUpload]: the client's orchestrator *)
(* ===================================================================== *)

Module ChunkedUpload.
Local Open Scope Z_scope.

Definition DEFAULT_CHUNK_SIZE : Z := 5 * 1024 * 1024.
Definition MAX_PARALLEL_CHUNKS : Z := 4.
Definition MAX_RETRIES : nat := 3.

Record UploadConfig := {
  chunkSize : Z;
  maxParallelChunks : Z
}.

Record UploadSession := {
  uploadId : string;
  totalChunks : Z;
  forensicSignature : string;
  expiresAt : string
}.

Record UploadResult := {
  assetId : string;
  result_forensicSignature : string;
  processingStatus : string
}.

Record File := {
  name : string;
  size : Z;
  type : string
}.

Inductive Error :=
| AbortError
| Failure (message : string).

Inductive Settled (A : Type) :=
| Resolved (value : A)
| Rejected (e : Error).
Arguments Resolved {A} value.
Arguments Rejected {A} e.

(** The requests the hook sends, in the order the model meets them. *)
Inductive Request :=
| GetConfig
| PostInit
| PostChunk (chunkIndex : Z)
| PostComplete.

(** How one [fetch] of a chunk ends: a 2xx response, another response, a
    transport error, or the abort of the upload's [AbortController]. *)
Inductive Attempt :=
| ResponseOk
| ResponseNotOk
| NetworkError
| Aborted.

(** The answer to [init] or [complete]: the [data] of a 2xx body, the
    [error] field of another response, or an exception of [fetch]. *)
Inductive Reply (A : Type) :=
| ReplyOk (data : A)
| ReplyNotOk (error : option string)
| ReplyThrew (e : Error).
Arguments ReplyOk {A} data.
Arguments ReplyNotOk {A} error.
Arguments ReplyThrew {A} e.

(** *** fetchConfig *)

Record ConfigData := {
  data_chunkSize : option Z;
  data_maxParallelChunks : option Z
}.

(** [x || d] on a number field *)
Definition or_default (x : option Z) (d : Z) : Z :=
  match x with
  | Some n => if n =? 0 then d else n
  | None => d
  end.

Definition fetchConfig (current : UploadConfig) (r : Fetch ConfigData) : UploadConfig :=
  match r with
  | FetchOk data =>
      {| chunkSize := or_default (data_chunkSize data) DEFAULT_CHUNK_SIZE;
         maxParallelChunks := or_default (data_maxParallelChunks data) MAX_PARALLEL_CHUNKS |}
  | FetchNotOk | FetchError => current
  end.

(** *** uploadChunk: one chunk, with its retry loop

    [attempt k] is how the fetch ends that is made when [retries = k] (every
    pass through the loop that does not leave it increments [retries] once).
    The upload is taken not to be left paused: the wait at the head of each
    pass ends.  The loop with that wait is [MoreProps.uploadChunk_with_pause],
    of which this is the case where every wait ends. *)
Fixpoint uploadChunk_loop (fuel retries : nat) (attempt : nat -> Attempt) (chunkIndex : Z)
    (sent : list Request) : option (Settled bool * list Request) :=
  match fuel with
  | O => None
  | S fuel' =>
      if (retries <? MAX_RETRIES)%nat then
        let sent := sent ++ [PostChunk chunkIndex] in
        match attempt retries with
        | ResponseOk => Some (Resolved true, sent)
        | ResponseNotOk => uploadChunk_loop fuel' (S retries) attempt chunkIndex sent
        | Aborted => Some (Rejected AbortError, sent)
        | NetworkError =>
            let retries := S retries in
            if (MAX_RETRIES <=? retries)%nat then
              Some (Rejected (Failure ("Chunk " +:+ Js.toString chunkIndex +:+ " failed after "
                                       +:+ Js.toString (Z.of_nat MAX_RETRIES) +:+ " retries")), sent)
            else uploadChunk_loop fuel' retries attempt chunkIndex sent
        end
      else Some (Resolved false, sent)
  end.

Definition uploadChunk (attempt : nat -> Attempt) (chunkIndex : Z)
  : option (Settled bool * list Request) :=
  uploadChunk_loop (S MAX_RETRIES) 0 attempt chunkIndex [].

(** *** uploadFile *)

Record Chunk := {
  index : Z;
  start : Z;
  stop : Z   (* the field [end] *)
}.

(** The [for] loop that fills [chunks]. *)
Definition make_chunks (totalChunks chunkSize fileSize : Z) : list Chunk :=
  map (fun i => {| index := i; start := i * chunkSize;
                   stop := Z.min (i * chunkSize + chunkSize) fileSize |})
      (seqZ 0 totalChunks).

(** The inner [while]: start queued chunks while a slot is free. *)
Fixpoint fill (maxParallel : Z) (chunkQueue activeUploads : list Chunk)
  : list Chunk * list Chunk :=
  match chunkQueue with
  | chunk :: rest =>
      if Z.of_nat (length activeUploads) <? maxParallel
      then fill maxParallel rest (activeUploads ++ [chunk])
      else (chunkQueue, activeUploads)
  | [] => ([], activeUploads)
  end.

Fixpoint drop_nth {A} (k : nat) (l : list A) : list A :=
  match l, k with
  | [], _ => []
  | _ :: l', O => l'
  | x :: l', S k' => x :: drop_nth k' l'
  end.

(** The outer [while].  [order] lists, for each [Promise.race], which of the
    uploads in flight settles first (an index into [activeUploads], taken
    modulo its length); a fulfilled upload has removed itself from
    [activeUploads] before the race returns, a rejected one makes the race
    throw.  [None]: the loop is still running when the fuel is spent. *)
Fixpoint pool (fuel : nat) (maxParallel : Z) (attempt : Z -> nat -> Attempt)
    (chunkQueue activeUploads : list Chunk) (order : list nat)
    (completedChunks : Z) (sent : list Request)
  : option (Settled Z * list Request) :=
  match fuel with
  | O => None
  | S fuel' =>
      match chunkQueue, activeUploads with
      | [], [] => Some (Resolved completedChunks, sent)
      | _, _ =>
          let '(chunkQueue, activeUploads) := fill maxParallel chunkQueue activeUploads in
          match activeUploads with
          | [] => pool fuel' maxParallel attempt chunkQueue activeUploads order
                    completedChunks sent
          | first :: _ =>
              let k := (hd 0%nat order mod length activeUploads)%nat in
              let chunk := nth k activeUploads first in
              match uploadChunk (attempt (index chunk)) (index chunk) with
              | None => None
              | Some (Resolved _, reqs) =>
                  pool fuel' maxParallel attempt chunkQueue (drop_nth k activeUploads)
                    (tl order) (completedChunks + 1) (sent ++ reqs)
              | Some (Rejected e, reqs) => Some (Rejected e, sent ++ reqs)
              end
          end
      end
  end.

(** What one upload meets outside the hook. *)
Record World := {
  config_response : Fetch ConfigData;
  init_response : Reply UploadSession;
  chunk_attempt : Z -> nat -> Attempt;
  settle_order : list nat;
  complete_response : Reply UploadResult
}.

(** What [uploadFile] leaves: its return value ([None] is [null]), the
    [error] state and the requests sent. *)
Record Run := {
  returned : option UploadResult;
  error : option string;
  requests : list Request
}.

(** The [catch] of [uploadFile] *)
Definition caught (e : Error) (sent : list Request) : Run :=
  match e with
  | AbortError => {| returned := None; error := Some "Upload cancelled"; requests := sent |}
  | Failure message => {| returned := None; error := Some message; requests := sent |}
  end.

(** [errorData.error || fallback] *)
Definition error_or (error : option string) (fallback : string) : string :=
  match error with
  | Some s => if String.eqb s "" then fallback else s
  | None => fallback
  end.

Definition uploadFile (configRef : UploadConfig) (w : World) (file : File) : option Run :=
  let config := fetchConfig configRef (config_response w) in
  let sent := [GetConfig; PostInit] in
  match init_response w with
  | ReplyThrew e => Some (caught e sent)
  | ReplyNotOk error => Some (caught (Failure (error_or error "Failed to initialize upload")) sent)
  | ReplyOk session =>
      let chunks := make_chunks (totalChunks session) (chunkSize config) (size file) in
      match pool (S (length chunks)) (maxParallelChunks config) (chunk_attempt w)
                 chunks [] (settle_order w) 0 sent with
      | None => None
      | Some (Rejected e, sent) => Some (caught e sent)
      | Some (Resolved _, sent) =>
          let sent := sent ++ [PostComplete] in
          match complete_response w with
          | ReplyThrew e => Some (caught e sent)
          | ReplyNotOk error =>
              Some (caught (Failure (error_or error "Failed to complete upload")) sent)
          | ReplyOk result =>
              Some {| returned := Some result; error := None; requests := sent |}
          end
      end
  end.

End ChunkedUpload.


(* ===================================================================== *)
(** ** Vocabulary of the properties *)
(* ===================================================================== *)

Module Props.
Import MediaHub.
Local Open Scope Z_scope.


(** What an accepted [uploadChunk] adds to [completedChunks]: two when the
    central service answered 2xx with the body [null], one otherwise. *)
Definition increment (c : MediaHubClient) (remote : Fetch ChunkBody) : Z :=
  match central_body c remote with
  | Some BodyNull => 2
  | Some (BodyValue _) | None => 1
  end.

(** The session as an accepted [uploadChunk] leaves it. *)
Definition counted (c : MediaHubClient) (remote : Fetch ChunkBody) (s : UploadSession)
  : UploadSession :=
  match central_body c remote with
  | Some BodyNull => bump (bump s)
  | Some (BodyValue _) | None => bump s
  end.

(** What the accepted [uploadChunk] calls for [u] add to the counter. *)
Fixpoint added (c : MediaHubClient) (u : string) (ops : list StoreOp) : Z :=
  match ops with
  | [] => 0
  | op :: ops' =>
      (match op with
       | OpChunk r u' i d =>
           if String.eqb u' u && success (fst (uploadChunk c r u' i d))
           then increment c r else 0
       | OpInit _ _ | OpComplete _ _ => 0
       end) + added (step c op) u ops'
  end.

(** No [initializeUpload] of the sequence registers a session under [u]. *)
Definition not_reinitialised (c : MediaHubClient) (u : string) (ops : list StoreOp) : Prop :=
  Forall (fun op => match op with
                    | OpInit w _ => init_key c w <> u
                    | OpChunk _ _ _ _ | OpComplete _ _ => True
                    end) ops.

(** The chunks of one upload, sent in the order given to a client on its
    local path. *)
Definition upload_chunks (c : MediaHubClient) (u : string) (chunks : list (Z * list Byte.byte))
  : MediaHubClient :=
  fold_left (fun c ch => snd (uploadChunk c FetchError u (fst ch) (snd ch))) chunks c.

(** One whole upload against a client that never connected: init, the
    chunks, completion. *)
Definition whole_upload (w : InitWorld) (metadata : UploadMetadata)
    (chunks : list (Z * list Byte.byte)) (cw : CompleteWorld) : Outcome MediaAsset :=
  let '(session, c) := initializeUpload standalone w metadata in
  fst (completeUpload (upload_chunks c (uploadId session) chunks) cw (uploadId session)).


Fixpoint all_chars (p : ascii -> bool) (s : string) : bool :=
  match s with
  | EmptyString => true
  | String c s' => p c && all_chars p s'
  end.


(** Length of a byte range, and of all the ranges of a partition. *)
Definition range_length (ch : ChunkedUpload.Chunk) : Z :=
  ChunkedUpload.stop ch - ChunkedUpload.start ch.

(** The range the [for] loop of [uploadFile] pushes for [i]. *)
Definition chunk_at (chunkSize fileSize i : Z) : ChunkedUpload.Chunk :=
  {| ChunkedUpload.index := i;
     ChunkedUpload.start := i * chunkSize;
     ChunkedUpload.stop := Z.min (i * chunkSize + chunkSize) fileSize |}.

Definition total_length (chunks : list ChunkedUpload.Chunk) : Z :=
  fold_right (fun ch acc => range_length ch + acc) 0 chunks.

(** A session with none of its three chunks received. *)
Definition sample_session : UploadSession :=
  {| uploadId := "u-1"; platformId := PLATFORM_CONFIG.platformId; creatorId := "creator-1";
     filename := "clip.mp4"; fileSize := 12 * 1024 * 1024; mimeType := "video/mp4";
     totalChunks := 3; completedChunks := 0; s3Key := "uploads/cougarfanz/u-1/clip.mp4";
     status := Status.in_progress; forensicSignature := Some "FANZ-0123456789ABCDEF";
     createdAt := 0; expiresAt := 86400000 |}.

Definition sample_client : MediaHubClient :=
  set_sessions standalone {[ "u-1" := sample_session ]}.

(** The same session on a client that is connected to the central
    service. *)
Definition connected_client : MediaHubClient :=
  {| MEDIAHUB_API_KEY := "key"; isConnected := true;
     uploadSessions := {[ "u-1" := sample_session ]} |}.

(** Sample inputs: an upload of a 12 MiB file and one of a single byte,
    initialised on 2023-11-14. *)
Definition sample_init (uuid : string) : InitWorld :=
  {| init_uuid := uuid;
     init_clock_signature := 1700000000000;
     init_clock_created := 1700000000000;
     init_clock_expires := 1700000000000;
     init_remote := FetchError |}.

Definition sample_metadata (fileSize : Z) : UploadMetadata :=
  {| meta_filename := "clip.mp4"; meta_fileSize := fileSize;
     meta_mimeType := "video/mp4"; meta_creatorId := "creator-1" |}.

Definition sample_complete : CompleteWorld :=
  {| complete_uuid := "asset-1"; complete_clock := 1700000100000;
     complete_remote := FetchError |}.

(** The same chunk sent twice, then the start of an unrelated upload. *)
Definition sample_ops : list StoreOp :=
  [ OpChunk FetchError "u-1" 0 ["a"%byte];
    OpChunk FetchError "u-1" 0 ["a"%byte];
    OpInit (sample_init "u-2") (sample_metadata 1) ].


(** An init request for a file of [fileSize] bytes. *)
Definition sample_request (fileSize : Z) : Routes.InitRequest :=
  {| Routes.body_filename := Some "clip.mp4";
     Routes.body_fileSize := Some fileSize;
     Routes.body_mimeType := Some "video/mp4";
     Routes.user_id := "creator-1" |}.

(** The session and the answer of the route for a 12 MiB file. *)
Definition sample_created : UploadSession :=
  local_session (sample_init "u-1") (sample_metadata (12 * 1024 * 1024)).

Definition sample_data : Routes.InitData :=
  {| Routes.data_uploadId := "u-1";
     Routes.data_chunkSize := CHUNK_SIZE;
     Routes.data_totalChunks := 3;
     Routes.data_forensicSignature := Some "FANZ-3716CFB3206C19FF";
     Routes.data_expiresAt := 1700086400000 |}.

(** The hook's [configRef] before any config was fetched. *)
Definition initial_config : ChunkedUpload.UploadConfig :=
  {| ChunkedUpload.chunkSize := ChunkedUpload.DEFAULT_CHUNK_SIZE;
     ChunkedUpload.maxParallelChunks := ChunkedUpload.MAX_PARALLEL_CHUNKS |}.

Definition one_byte_file : ChunkedUpload.File :=
  {| ChunkedUpload.name := "a.bin"; ChunkedUpload.size := 1;
     ChunkedUpload.type := "application/octet-stream" |}.

Definition sample_result : ChunkedUpload.UploadResult :=
  {| ChunkedUpload.assetId := "asset-1";
     ChunkedUpload.result_forensicSignature := "FANZ-3716CFB3206C19FF";
     ChunkedUpload.processingStatus := "pending" |}.

(** The upload of a one-chunk file whose init and complete succeed and whose
    chunk meets [attempt]; the config endpoint is unreachable. *)
Definition one_chunk_world (attempt : nat -> ChunkedUpload.Attempt) (order : list nat)
  : ChunkedUpload.World :=
  {| ChunkedUpload.config_response := FetchError;
     ChunkedUpload.init_response :=
       ChunkedUpload.ReplyOk
         {| ChunkedUpload.uploadId := "u-1"; ChunkedUpload.totalChunks := 1;
            ChunkedUpload.forensicSignature := "FANZ-3716CFB3206C19FF";
            ChunkedUpload.expiresAt := "2023-11-15T22:13:20.000Z" |};
     ChunkedUpload.chunk_attempt := fun _ => attempt;
     ChunkedUpload.settle_order := order;
     ChunkedUpload.complete_response := ChunkedUpload.ReplyOk sample_result |}.

End Props.

(* ===================================================================== *)
(** ** More built-ins: [parseInt], [Math.round], [toString(16)] *)
(* ===================================================================== *)

Module JsMore.
Local Open Scope Z_scope.

Definition is_digit (c : ascii) : bool :=
  let n := nat_of_ascii c in ((48 <=? n) && (n <=? 57))%nat.

(** The longest prefix made of decimal digits. *)
Fixpoint digit_prefix (s : string) : string :=
  match s with
  | String c s' => if is_digit c then String c (digit_prefix s') else EmptyString
  | EmptyString => EmptyString
  end.

(** A white space or line terminator character (ECMAScript's
    [StrWhiteSpaceChar]) at the head of a string, in UTF-8, and what follows
    it. *)
Definition white_head (s : string) : option string :=
  match s with
  | String c1 r1 =>
      let n1 := nat_of_ascii c1 in
      if ((9 <=? n1) && (n1 <=? 13) || (n1 =? 32))%nat then Some r1
      else
        match r1 with
        | String c2 r2 =>
            let n2 := nat_of_ascii c2 in
            if ((n1 =? 194) && (n2 =? 160))%nat then Some r2
            else
              match r2 with
              | String c3 r3 =>
                  let n3 := nat_of_ascii c3 in
                  if ((n1 =? 225) && (n2 =? 154) && (n3 =? 128)
                      || (n1 =? 226) && (n2 =? 128)
                         && ((128 <=? n3) && (n3 <=? 138) || (n3 =? 168) || (n3 =? 169)
                             || (n3 =? 175))
                      || (n1 =? 226) && (n2 =? 129) && (n3 =? 159)
                      || (n1 =? 227) && (n2 =? 128) && (n3 =? 128)
                      || (n1 =? 239) && (n2 =? 187) && (n3 =? 191))%nat
                  then Some r3 else None
              | EmptyString => None
              end
        | EmptyString => None
        end
  | EmptyString => None
  end.

Fixpoint skip_white (fuel : nat) (s : string) : string :=
  match fuel with
  | O => s
  | S fuel' =>
      match white_head s with
      | Some rest => skip_white fuel' rest
      | None => s
      end
  end.

(** The value of a string of decimal digits. *)
Definition digits_value (ds : string) : Z :=
  match NilEmpty.uint_of_string ds with
  | Some d => Z.of_uint d
  | None => 0
  end.

(** An optional sign at the head of a string: whether it is [-], and what
    follows it. *)
Definition split_sign (s : string) : bool * string :=
  match s with
  | String c r =>
      if Ascii.eqb c "-" then (true, r)
      else if Ascii.eqb c "+" then (false, r)
      else (false, s)
  | EmptyString => (false, s)
  end.

(** What [parseInt] returns when it is not [NaN]: a double that is a whole
    number, or an infinity. *)
Inductive Integral :=
| Whole (n : Z)
| Infinity (negative : bool).

(** The double nearest to a natural number, a tie going to the even
    significand; [None]: the number rounds to infinity. *)
Definition nearest_double (a : Z) : option Z :=
  if a <? 2 ^ 53 then Some a
  else
    let shift := Z.log2 a - 52 in
    let q := a / 2 ^ shift in
    let r := a mod 2 ^ shift in
    let half := 2 ^ (shift - 1) in
    let q := if (half <? r) || ((r =? half) && Z.odd q) then q + 1 else q in
    if 2 ^ 1024 <=? q * 2 ^ shift then None else Some (q * 2 ^ shift).

(** [parseInt (x, 10)]; [None] as argument is [undefined], [None] as result
    is [NaN].  The digits are read as the double nearest to the number they
    write (past the 20th digit the standard leaves the reading to the
    implementation; this is V8's). *)
Definition parseInt10 (x : option string) : option Integral :=
  match x with
  | None => None
  | Some s =>
      let '(negative, s) := split_sign (skip_white (String.length s) s) in
      match digit_prefix s with
      | EmptyString => None
      | ds =>
          Some match nearest_double (digits_value ds) with
               | Some v => Whole (if negative then - v else v)
               | None => Infinity negative
               end
      end
  end.

(** [Math.round]: the nearest integer, a tie going up. *)
Definition round (q : Q) : Z := Qfloor (q + (1 # 2)).

(** [Math.round (a / b)] for integers, [b] not zero. *)
Definition round_div (a b : Z) : Z := round (inject_Z a / inject_Z b).

(** [x || 0] on a number: [NaN] and zero are falsy. *)
Definition or_zero (x : Js.Number) : Js.Number :=
  match x with
  | Js.Finite q => if Qeq_bool q 0 then Js.Finite 0 else Js.Finite q
  | Js.Infinite => Js.Infinite
  | Js.NaN => Js.Finite 0
  end.

(** [ToInt32]: what the bitwise operators make of an integer. *)
Definition to_int32 (z : Z) : Z := (z + 2 ^ 31) mod 2 ^ 32 - 2 ^ 31.

(** [n.toString(16)] on an integer: lower-case digits after the sign. *)
Definition toString16 (n : Z) : string :=
  HexadecimalString.NilZero.string_of_int (Z.to_hex_int n).

End JsMore.

(* ===================================================================== *)
(** ** [MediaHubClient]: connection and status *)
(* ===================================================================== *)

Module Lifecycle.
Import MediaHub.
Local Open Scope Z_scope.

Definition set_connected (c : MediaHubClient) (b : bool) : MediaHubClient :=
  {| MEDIAHUB_API_KEY := MEDIAHUB_API_KEY c; isConnected := b;
     uploadSessions := uploadSessions c |}.

(** [remote] is the answer of the registration call. *)
Definition connect (c : MediaHubClient) (remote : Fetch unit) : bool * MediaHubClient :=
  if String.eqb (MEDIAHUB_API_KEY c) "" then (false, c)
  else
    match remote with
    | FetchOk _ => (true, set_connected c true)
    | FetchNotOk => (false, c)
    | FetchError => (false, c)
    end.

(** The answer of the disconnect call is not read. *)
Definition disconnect (c : MediaHubClient) : MediaHubClient := set_connected c false.

Definition isActive (c : MediaHubClient) : bool := isConnected c.

Record ClientStatus := {
  connected : bool;
  pendingUploads : Z
}.

Definition getStatus (c : MediaHubClient) : ClientStatus :=
  {| connected := isConnected c;
     pendingUploads := Z.of_nat (size (uploadSessions c)) |}.

(** Calls on the exported client, store operations and connection together. *)
Inductive ClientOp :=
| Store (op : StoreOp)
| Connect (remote : Fetch unit)
| Disconnect.

Definition client_step (c : MediaHubClient) (op : ClientOp) : MediaHubClient :=
  match op with
  | Store op => step c op
  | Connect remote => snd (connect c remote)
  | Disconnect => disconnect c
  end.

Definition client_run (c : MediaHubClient) (ops : list ClientOp) : MediaHubClient :=
  fold_left client_step ops c.

End Lifecycle.

(* ===================================================================== *)
(** ** The upload routes after init *)
(* ===================================================================== *)

Module UploadRoutes.
Import MediaHub Routes.
Local Open Scope Z_scope.

(** [GET /config] *)
Record ConfigPayload := {
  config_connected : bool;
  config_chunkSize : Z;
  config_maxParallelChunks : Z;
  config_maxFileSize : Z
}.

(** The lists of supported formats and the feature flags are constants or
    copies of [connected] and are left out. *)
Definition get_config (c : MediaHubClient) : Response ConfigPayload :=
  let status := Lifecycle.getStatus c in
  Success {| config_connected := Lifecycle.connected status;
             config_chunkSize := CHUNK_SIZE;
             config_maxParallelChunks := 4;
             config_maxFileSize := 10 * 1024 * 1024 * 1024 |}.

(** [POST /upload/:uploadId/chunk]: the route parameter, the
    [X-Chunk-Index] header and [req.file.buffer] as multer leaves it. *)
Record ChunkRequest := {
  chunk_uploadId : string;
  x_chunk_index : option string;
  file_buffer : option (list Byte.byte)
}.

Record ChunkData := {
  chunk_data_index : JsMore.Integral;
  chunk_data_etag : option string;
  chunk_data_progress : Js.Number
}.

(** [s || fallback] on a string field *)
Definition string_or (s : option string) (fallback : string) : string :=
  match s with
  | Some x => if String.eqb x "" then fallback else x
  | None => fallback
  end.

Definition upload_chunk (c : MediaHubClient) (remote : Fetch ChunkBody) (req : ChunkRequest)
  : Response ChunkData * MediaHubClient :=
  match JsMore.parseInt10 (x_chunk_index req) with
  | None => (Failure 400 "Missing X-Chunk-Index header", c)
  | Some chunkIndex =>
      match file_buffer req with
      | None => (Failure 400 "No chunk data provided", c)
      | Some buffer =>
          let '(result, c) := uploadChunk c remote (chunk_uploadId req) chunkIndex buffer in
          if negb (success result)
          then (Failure 400 (string_or (error result) "Chunk upload failed"), c)
          else
            let '(progress, c) := getUploadProgress c (chunk_uploadId req) in
            (Success {| chunk_data_index := MediaHub.chunkIndex result;
                        chunk_data_etag := etag result;
                        chunk_data_progress :=
                          match progress with
                          | Some p => JsMore.or_zero (MediaHub.progress p)
                          | None => Js.Finite 0
                          end |}, c)
      end
  end.

(** [GET /upload/:uploadId/progress] *)
Definition upload_progress (c : MediaHubClient) (uploadId : string)
  : Response Progress * MediaHubClient :=
  let '(progress, c) := getUploadProgress c uploadId in
  match progress with
  | None => (Failure 404 "Upload session not found", c)
  | Some p => (Success p, c)
  end.

(** [POST /upload/:uploadId/resume] *)
Record ResumeData := {
  resume_nextChunk : Z;
  resume_totalChunks : Z;
  resume_completedChunks : Z
}.

Definition upload_resume (c : MediaHubClient) (uploadId : string)
  : Response ResumeData * MediaHubClient :=
  let '(result, c) := resumeUpload c uploadId in
  match result with
  | None => (Failure 404 "Upload session not found or cannot be resumed", c)
  | Some (nextChunk, session) =>
      (Success {| resume_nextChunk := nextChunk;
                  resume_totalChunks := totalChunks session;
                  resume_completedChunks := completedChunks session |}, c)
  end.

(** [POST /upload/:uploadId/complete] *)
Record CompleteData := {
  complete_assetId : string;
  complete_forensicSignature : option string;
  complete_processingStatus : Processing.t;
  complete_createdAt : Z
}.

Definition upload_complete (c : MediaHubClient) (w : CompleteWorld) (uploadId : string)
  : Response CompleteData * MediaHubClient :=
  let '(outcome, c) := completeUpload c w uploadId in
  match outcome with
  | Returned asset =>
      (Success {| complete_assetId := id asset;
                  complete_forensicSignature := asset_forensicSignature asset;
                  complete_processingStatus := processingStatus asset;
                  complete_createdAt := asset_createdAt asset |}, c)
  | Thrown message =>
      (Failure 500 (string_or (Some message) "Failed to complete upload"), c)
  end.

End UploadRoutes.

(* ===================================================================== *)
(** ** [UnifiedAIGatewayService]: providers, response cache, chat completion *)
(* ===================================================================== *)

(** The gateway class of [src/server/services/unifiedAIGatewayService.ts].
    A [Map] is embedded as the list of its entries in insertion order, which
    is the order [keys()] and [for ... of] go through.  A string that is
    hashed is the list of its UTF-16 code units, which is what [charCodeAt]
    reads.  The calls to the providers' SDKs are not part of the embedding:
    what such a call comes to is an argument, and what is sent to it is not
    described. *)

Module Gateway.
Import JsMore.
Local Open Scope Z_scope.

(** *** [Map] *)

Definition Map (V : Type) := list (string * V).

Fixpoint map_get {V : Type} (key : string) (m : Map V) : option V :=
  match m with
  | [] => None
  | (k, v) :: rest => if String.eqb k key then Some v else map_get key rest
  end.

Definition map_delete {V : Type} (key : string) (m : Map V) : Map V :=
  List.filter (fun kv => negb (String.eqb (fst kv) key)) m.

(** [set] on a present key keeps the entry's place. *)
Fixpoint map_set {V : Type} (key : string) (v : V) (m : Map V) : Map V :=
  match m with
  | [] => [(key, v)]
  | (k, v0) :: rest =>
      if String.eqb k key then (k, v) :: rest else (k, v0) :: map_set key v rest
  end.

Definition map_size {V : Type} (m : Map V) : Z := Z.of_nat (length m).

(** *** Providers *)

Record RateLimit := {
  requestsPerMinute : Z;
  tokensPerMinute : Z
}.

Record AIProviderConfig := {
  name : string;
  apiKey : string;
  baseUrl : option string;
  enabled : bool;
  priority : Z;
  rateLimit : RateLimit
}.

(** [process.env]: a variable is absent or a string. *)
Record Env := {
  OPENAI_API_KEY : option string;
  ANTHROPIC_API_KEY : option string;
  HUGGINGFACE_API_KEY : option string;
  GOOGLE_AI_API_KEY : option string
}.

(** [if (process.env.X) providers.set(key, config)] *)
Definition configure (variable : option string) (key : string)
    (config : string -> AIProviderConfig) (providers : Map AIProviderConfig)
  : Map AIProviderConfig :=
  match variable with
  | Some value => if String.eqb value "" then providers else map_set key (config value) providers
  | None => providers
  end.

Definition initializeProviders (env : Env) (providers : Map AIProviderConfig)
  : Map AIProviderConfig :=
  let providers :=
    configure (OPENAI_API_KEY env) "openai"
      (fun value =>
         {| name := "OpenAI"; apiKey := value; baseUrl := None; enabled := true; priority := 1;
            rateLimit := {| requestsPerMinute := 500; tokensPerMinute := 90000 |} |})
      providers in
  let providers :=
    configure (ANTHROPIC_API_KEY env) "anthropic"
      (fun value =>
         {| name := "Anthropic Claude"; apiKey := value; baseUrl := None; enabled := true;
            priority := 2;
            rateLimit := {| requestsPerMinute := 300; tokensPerMinute := 100000 |} |})
      providers in
  let providers :=
    configure (HUGGINGFACE_API_KEY env) "huggingface"
      (fun value =>
         {| name := "Hugging Face"; apiKey := value;
            baseUrl := Some "https://router.huggingface.co/v1"; enabled := true; priority := 3;
            rateLimit := {| requestsPerMinute := 100; tokensPerMinute := 50000 |} |})
      providers in
  configure (GOOGLE_AI_API_KEY env) "google"
    (fun value =>
       {| name := "Google AI (Gemini)"; apiKey := value; baseUrl := None; enabled := true;
          priority := 4;
          rateLimit := {| requestsPerMinute := 60; tokensPerMinute := 60000 |} |})
    providers.

(** The first loop of [selectBestProvider]. *)
Fixpoint first_preferred (preferences : list string) (providers : Map AIProviderConfig)
  : option string :=
  match preferences with
  | [] => None
  | pref :: rest =>
      match map_get pref providers with
      | Some config => if enabled config then Some pref else first_preferred rest providers
      | None => first_preferred rest providers
      end
  end.

(** The second loop. *)
Fixpoint first_enabled (providers : Map AIProviderConfig) : option string :=
  match providers with
  | [] => None
  | (key, config) :: rest => if enabled config then Some key else first_enabled rest
  end.

Definition selectBestProvider (preferences : list string) (providers : Map AIProviderConfig)
  : Outcome string :=
  match first_preferred preferences providers with
  | Some pref => Returned pref
  | None =>
      match first_enabled providers with
      | Some key => Returned key
      | None => Thrown "No AI provider available"
      end
  end.

(** *** The cache key *)

(** One turn of the hash loop: [hash = ((hash << 5) - hash) + c], then
    [hash = hash & hash]. *)
Definition hash_step (hash c : Z) : Z :=
  let hash := to_int32 (Z.shiftl (to_int32 hash) 5) - hash + c in
  to_int32 hash.

Definition hash_of (data : list Z) : Z := fold_left hash_step data 0.

(** *** The response cache *)

Definition CACHE_TTL : Z := 5 * 60 * 1000.
Definition MAX_CACHE_SIZE : Z := 1000.

Record CacheEntry (A : Type) := {
  response : A;
  timestamp : Z
}.
Arguments response {A} _.
Arguments timestamp {A} _.

Definition Cache (A : Type) := Map (CacheEntry A).

(** [now] is the reading of [Date.now()], which is made only when there is
    an entry for the key. *)
Definition getFromCache {A : Type} (key : string) (now : Z) (cache : Cache A)
  : option A * Cache A :=
  match map_get key cache with
  | Some cached =>
      if now - timestamp cached <? CACHE_TTL then (Some (response cached), cache)
      else (None, map_delete key cache)
  | None => (None, map_delete key cache)
  end.

Definition setInCache {A : Type} (key : string) (value : A) (now : Z) (cache : Cache A)
  : Cache A :=
  let cache :=
    if map_size cache >=? MAX_CACHE_SIZE
    then match cache with
         | (firstKey, _) :: _ => map_delete firstKey cache
         | [] => cache
         end
    else cache in
  map_set key {| response := value; timestamp := now |} cache.

(** One firing of the interval of [startCacheCleanup]. *)
Definition cleanup {A : Type} (now : Z) (cache : Cache A) : Cache A :=
  List.filter (fun kv => negb (now - timestamp (snd kv) >? CACHE_TTL)) cache.

(** *** Chat completion *)

Inductive Role := user | assistant | system.

Record ChatMessage := {
  role : Role;
  content : string
}.

(** The fields of a request that the gateway itself reads; [temperature],
    [maxTokens], [stream] and [systemPrompt] only go into what is sent to a
    provider.  [request_feature] is [context?.feature]. *)
Record ChatCompletionRequest := {
  messages : list ChatMessage;
  request_model : option string;
  request_provider : option string;
  request_feature : option string
}.

Record Usage := {
  promptTokens : Z;
  completionTokens : Z;
  totalTokens : Z
}.

Record ChatCompletionResponse := {
  response_content : string;
  response_model : string;
  response_provider : string;
  usage : Usage;
  finishReason : string;
  cached : bool;
  processingTime : Z
}.

(** [requestsByProvider] and [requestsByFeature] are plain objects used as
    maps; the embedding as a finite map holds for keys that are not names
    of [Object.prototype], as the two provider names are. *)
Record AIGatewayStats := {
  totalRequests : Z;
  successfulRequests : Z;
  failedRequests : Z;
  cachedResponses : Z;
  totalTokensUsed : Z;
  costEstimate : Z;
  requestsByProvider : gmap string Z;
  requestsByFeature : gmap string Z;
  averageLatency : Z
}.

(** [anthropicClient] and [openaiClient] say whether the client object is
    there. *)
Record UnifiedAIGatewayService := {
  providers : Map AIProviderConfig;
  anthropicClient : bool;
  openaiClient : bool;
  cache : Cache ChatCompletionResponse;
  stats : AIGatewayStats
}.

Definition no_stats : AIGatewayStats :=
  {| totalRequests := 0; successfulRequests := 0; failedRequests := 0; cachedResponses := 0;
     totalTokensUsed := 0; costEstimate := 0; requestsByProvider := ∅; requestsByFeature := ∅;
     averageLatency := 0 |}.

(** The constructor.  The OpenAI client is set later, if the dynamic import
    of the SDK resolves. *)
Definition create (env : Env) : UnifiedAIGatewayService :=
  {| providers := initializeProviders env [];
     anthropicClient :=
       match ANTHROPIC_API_KEY env with
       | Some value => negb (String.eqb value "")
       | None => false
       end;
     openaiClient := false;
     cache := [];
     stats := no_stats |}.

(** The import is only started when the OpenAI key is set, that is when
    the provider was configured. *)
Definition openai_imported (g : UnifiedAIGatewayService) : UnifiedAIGatewayService :=
  match map_get "openai" (providers g) with
  | Some _ =>
      {| providers := providers g; anthropicClient := anthropicClient g; openaiClient := true;
         cache := cache g; stats := stats g |}
  | None => g
  end.

Definition set_cache (g : UnifiedAIGatewayService) (c : Cache ChatCompletionResponse)
  : UnifiedAIGatewayService :=
  {| providers := providers g; anthropicClient := anthropicClient g;
     openaiClient := openaiClient g; cache := c; stats := stats g |}.

Definition set_stats (g : UnifiedAIGatewayService) (s : AIGatewayStats)
  : UnifiedAIGatewayService :=
  {| providers := providers g; anthropicClient := anthropicClient g;
     openaiClient := openaiClient g; cache := cache g; stats := s |}.

Definition resetStats (g : UnifiedAIGatewayService) : UnifiedAIGatewayService :=
  set_stats g no_stats.

(** [stats.totalRequests++] *)
Definition count_request (s : AIGatewayStats) : AIGatewayStats :=
  {| totalRequests := totalRequests s + 1; successfulRequests := successfulRequests s;
     failedRequests := failedRequests s; cachedResponses := cachedResponses s;
     totalTokensUsed := totalTokensUsed s; costEstimate := costEstimate s;
     requestsByProvider := requestsByProvider s; requestsByFeature := requestsByFeature s;
     averageLatency := averageLatency s |}.

(** [stats.cachedResponses++] *)
Definition count_cached (s : AIGatewayStats) : AIGatewayStats :=
  {| totalRequests := totalRequests s; successfulRequests := successfulRequests s;
     failedRequests := failedRequests s; cachedResponses := cachedResponses s + 1;
     totalTokensUsed := totalTokensUsed s; costEstimate := costEstimate s;
     requestsByProvider := requestsByProvider s; requestsByFeature := requestsByFeature s;
     averageLatency := averageLatency s |}.

(** [stats.failedRequests++] *)
Definition count_failed (s : AIGatewayStats) : AIGatewayStats :=
  {| totalRequests := totalRequests s; successfulRequests := successfulRequests s;
     failedRequests := failedRequests s + 1; cachedResponses := cachedResponses s;
     totalTokensUsed := totalTokensUsed s; costEstimate := costEstimate s;
     requestsByProvider := requestsByProvider s; requestsByFeature := requestsByFeature s;
     averageLatency := averageLatency s |}.

(** [counts[key] = (counts[key] || 0) + 1] *)
Definition bump_count (key : string) (counts : gmap string Z) : gmap string Z :=
  <[key := default 0 (counts !! key) + 1]> counts.

(** The "update stats" block after a provider answered. *)
Definition count_success (s : AIGatewayStats) (request : ChatCompletionRequest)
    (r : ChatCompletionResponse) : AIGatewayStats :=
  {| totalRequests := totalRequests s; successfulRequests := successfulRequests s + 1;
     failedRequests := failedRequests s; cachedResponses := cachedResponses s;
     totalTokensUsed := totalTokensUsed s + totalTokens (usage r);
     costEstimate := costEstimate s;
     requestsByProvider := bump_count (response_provider r) (requestsByProvider s);
     requestsByFeature :=
       match request_feature request with
       | Some feature =>
           if String.eqb feature "" then requestsByFeature s
           else bump_count feature (requestsByFeature s)
       | None => requestsByFeature s
       end;
     averageLatency := averageLatency s |}.

(** What [anthropicClient.messages.create] resolved to, as far as it is
    read: [first_text] is [content[0].text] when that block is of type
    [text]. *)
Record AnthropicMessage := {
  first_text : option string;
  input_tokens : Z;
  output_tokens : Z;
  stop_reason : option string
}.

(** What [openaiClient.chat.completions.create] resolved to, as far as it
    is read: the content and finish reason of [choices[0]], and the three
    token counts of [usage], each absent when [usage] or the count is. *)
Record OpenAICompletion := {
  message_content : option string;
  prompt_tokens : option Z;
  completion_tokens : option Z;
  total_tokens : option Z;
  finish_reason : option string
}.

Definition string_or (s : option string) (fallback : string) : string :=
  match s with
  | Some x => if String.eqb x "" then fallback else x
  | None => fallback
  end.

(** [chatWithClaude] from the reply of the SDK; a [Thrown] reply stands for
    a rejected call and for a reply whose first block cannot be read.  The
    guard on the client, here and in [chatWithOpenAI], holds wherever
    [chatCompletion] makes the call. *)
Definition chatWithClaude (request : ChatCompletionRequest) (reply : Outcome AnthropicMessage)
  : Outcome ChatCompletionResponse :=
  match reply with
  | Returned r =>
      Returned
        {| response_content := default "" (first_text r);
           response_model := string_or (request_model request) "claude-3-5-sonnet-20241022";
           response_provider := "anthropic";
           usage := {| promptTokens := input_tokens r; completionTokens := output_tokens r;
                       totalTokens := input_tokens r + output_tokens r |};
           finishReason := string_or (stop_reason r) "end_turn";
           cached := false;
           processingTime := 0 |}
  | Thrown message => Thrown message
  end.

Definition chatWithOpenAI (request : ChatCompletionRequest) (reply : Outcome OpenAICompletion)
  : Outcome ChatCompletionResponse :=
  match reply with
  | Returned r =>
      Returned
        {| response_content := string_or (message_content r) "";
           response_model := string_or (request_model request) "gpt-4o-mini";
           response_provider := "openai";
           usage := {| promptTokens := default 0 (prompt_tokens r);
                       completionTokens := default 0 (completion_tokens r);
                       totalTokens := default 0 (total_tokens r) |};
           finishReason := string_or (finish_reason r) "stop";
           cached := false;
           processingTime := 0 |}
  | Thrown message => Thrown message
  end.

(** The provider a call waits for. *)
Inductive Awaited := Claude | OpenAI.

(** A call that is waiting for its provider. *)
Record Pending := {
  pending_request : ChatCompletionRequest;
  startTime : Z;
  cacheKey : string;
  awaited : Awaited
}.

(** The chain of conditions that picks the function to call. *)
Definition dispatch (g : UnifiedAIGatewayService) (provider : string) : Outcome Awaited :=
  if String.eqb provider "anthropic" && anthropicClient g then Returned Claude
  else if String.eqb provider "openai" && openaiClient g then Returned OpenAI
  else if anthropicClient g then Returned Claude
  else if openaiClient g then Returned OpenAI
  else Thrown "No AI provider available".

(** [request.provider === 'auto' ? selectBestProvider(...) : request.provider || 'openai'] *)
Definition requested_provider (g : UnifiedAIGatewayService) (request : ChatCompletionRequest)
  : Outcome string :=
  if match request_provider request with
     | Some provider => String.eqb provider "auto"
     | None => false
     end
  then selectBestProvider ["anthropic"; "openai"] (providers g)
  else Returned (string_or (request_provider request) "openai").

Section Chat.

(** [JSON.stringify] of the object that [generateCacheKey] builds from its
    two arguments, as code units. *)
Variable stringify : string -> ChatCompletionRequest -> list Z.

Definition generateCacheKey (type : string) (request : ChatCompletionRequest) : string :=
  "ai:" +:+ type +:+ ":" +:+ toString16 (hash_of (stringify type request)).

(** [chatCompletion] up to its [await]: the call ends at once, with a cached
    response or an exception, or it waits for a provider.  [now 0] is the
    reading of [Date.now()] for [startTime]; when the cache has an entry for
    the key, [now 1] is the reading of [getFromCache] and, on a hit, [now 2]
    the one for [processingTime]. *)
Definition chatCompletion_start (g : UnifiedAIGatewayService) (now : nat -> Z)
    (request : ChatCompletionRequest)
  : (Outcome ChatCompletionResponse + Pending) * UnifiedAIGatewayService :=
  let g := set_stats g (count_request (stats g)) in
  let key := generateCacheKey "chat" request in
  let '(hit, c) := getFromCache key (now 1%nat) (cache g) in
  let g := set_cache g c in
  match hit with
  | Some r =>
      (inl (Returned
              {| response_content := response_content r; response_model := response_model r;
                 response_provider := response_provider r; usage := usage r;
                 finishReason := finishReason r; cached := true;
                 processingTime := now 2%nat - now 0%nat |}),
       set_stats g (count_cached (stats g)))
  | None =>
      match requested_provider g request with
      | Returned provider =>
          match dispatch g provider with
          | Returned a =>
              (inr {| pending_request := request; startTime := now 0%nat; cacheKey := key;
                      awaited := a |}, g)
          | Thrown message => (inl (Thrown message), set_stats g (count_failed (stats g)))
          end
      | Thrown message => (inl (Thrown message), set_stats g (count_failed (stats g)))
      end
  end.

(** [chatCompletion] from its [await] on: [answer] is what the awaited
    function came to, [now 0] and [now 1] the two readings of [Date.now()]
    that follow. *)
Definition chatCompletion_resume (g : UnifiedAIGatewayService) (now : nat -> Z) (p : Pending)
    (answer : Outcome ChatCompletionResponse)
  : Outcome ChatCompletionResponse * UnifiedAIGatewayService :=
  match answer with
  | Returned r =>
      let r :=
        {| response_content := response_content r; response_model := response_model r;
           response_provider := response_provider r; usage := usage r;
           finishReason := finishReason r; cached := false;
           processingTime := now 0%nat - startTime p |} in
      let g := set_stats g (count_success (stats g) (pending_request p) r) in
      (Returned r, set_cache g (setInCache (cacheKey p) r (now 1%nat) (cache g)))
  | Thrown message => (Thrown message, set_stats g (count_failed (stats g)))
  end.

(** What the provider's SDK came to, for either provider. *)
Record Replies := {
  claude_reply : Outcome AnthropicMessage;
  openai_reply : Outcome OpenAICompletion
}.

Definition answer_of (p : Pending) (replies : Replies) : Outcome ChatCompletionResponse :=
  match awaited p with
  | Claude => chatWithClaude (pending_request p) (claude_reply replies)
  | OpenAI => chatWithOpenAI (pending_request p) (openai_reply replies)
  end.

(** The readings of [Date.now()] that a call has made when it starts to
    wait: the one for [startTime] and, if the cache had an entry for the
    key, the one of [getFromCache]. *)
Definition readings_before_await (g : UnifiedAIGatewayService) (request : ChatCompletionRequest)
  : nat :=
  match map_get (generateCacheKey "chat" request) (cache g) with
  | Some _ => 2%nat
  | None => 1%nat
  end.

(** A call that no other call interleaves with; [now] lists the readings of
    [Date.now()] in the order the call makes them. *)
Definition chatCompletion (g : UnifiedAIGatewayService) (now : nat -> Z)
    (request : ChatCompletionRequest) (replies : Replies)
  : Outcome ChatCompletionResponse * UnifiedAIGatewayService :=
  match chatCompletion_start g now request with
  | (inl outcome, g') => (outcome, g')
  | (inr p, g') =>
      chatCompletion_resume g' (fun n => now (readings_before_await g request + n)%nat) p
        (answer_of p replies)
  end.

End Chat.

End Gateway.

(* ===================================================================== *)
(** ** [formatTime] *)
(* ===================================================================== *)

(** [formatTime] of the hook's file, on a whole number of seconds (where the
    two divisions by 60 and by 3600 round as the exact quotients do). *)

Module Display.
Import JsMore.
Local Open Scope Z_scope.

Definition formatTime (seconds : Z) : string :=
  if seconds <? 60 then Js.toString (round (inject_Z seconds)) +:+ "s"
  else if seconds <? 3600
       then Js.toString (round_div seconds 60) +:+ "m "
            +:+ Js.toString (round (inject_Z (Z.rem seconds 60))) +:+ "s"
       else Js.toString (round_div seconds 3600) +:+ "h "
            +:+ Js.toString (round_div (Z.rem seconds 3600) 60) +:+ "m".

End Display.

(* ===================================================================== *)
(** ** Vocabulary of the further properties *)
(* ===================================================================== *)

Module MoreProps.
Import MediaHub Props.
Local Open Scope Z_scope.

(** No [completeUpload] of the sequence is for [u]. *)
Definition not_completed (u : string) (ops : list StoreOp) : Prop :=
  Forall (fun op => match op with
                    | OpComplete _ u' => u' <> u
                    | OpInit _ _ | OpChunk _ _ _ _ => True
                    end) ops.

(** The session [s] with its counter set to [n]. *)
Definition with_completedChunks (s : UploadSession) (n : Z) : UploadSession :=
  {| uploadId := uploadId s;
     platformId := platformId s;
     creatorId := creatorId s;
     filename := filename s;
     fileSize := fileSize s;
     mimeType := mimeType s;
     totalChunks := totalChunks s;
     completedChunks := n;
     s3Key := s3Key s;
     status := status s;
     forensicSignature := forensicSignature s;
     createdAt := createdAt s;
     expiresAt := expiresAt s |}.

(** What every session that [initializeUpload] built locally looks like
    while it is in the map under [key]. *)
Definition local_shape (key : string) (s : UploadSession) : Prop :=
  uploadId s = key
  /\ status s = Status.in_progress
  /\ platformId s = "cougarfanz"
  /\ 0 <= completedChunks s
  /\ totalChunks s = Js.ceil_div (fileSize s) CHUNK_SIZE
  /\ s3Key s = "uploads/cougarfanz/" +:+ key +:+ "/" +:+ filename s
  /\ exists signature, forensicSignature s = Some signature /\ String.length signature = 21%nat.

(** Chunk requests sent one after the other to the chunk route of a client
    on its local path. *)
Definition send_chunks (c : MediaHubClient) (reqs : list UploadRoutes.ChunkRequest)
  : MediaHubClient :=
  fold_left (fun c req => snd (UploadRoutes.upload_chunk c FetchError req)) reqs c.

(** A chunk request for [u] that passes the checks of the route. *)
Definition well_formed_for (u : string) (req : UploadRoutes.ChunkRequest) : Prop :=
  UploadRoutes.chunk_uploadId req = u
  /\ is_Some (JsMore.parseInt10 (UploadRoutes.x_chunk_index req))
  /\ is_Some (UploadRoutes.file_buffer req).

(** The [data] of the config route's JSON body as the hook reads it. *)
Definition config_json (r : Routes.Response UploadRoutes.ConfigPayload)
  : Fetch ChunkedUpload.ConfigData :=
  match r with
  | Routes.Success p =>
      FetchOk {| ChunkedUpload.data_chunkSize := Some (UploadRoutes.config_chunkSize p);
                 ChunkedUpload.data_maxParallelChunks :=
                   Some (UploadRoutes.config_maxParallelChunks p) |}
  | Routes.Failure _ _ => FetchNotOk
  end.

(** Sample chunk requests for the upload [u-1]: indices 2, 0 and 17. *)
Definition sample_chunk_request (header : string) : UploadRoutes.ChunkRequest :=
  {| UploadRoutes.chunk_uploadId := "u-1";
     UploadRoutes.x_chunk_index := Some header;
     UploadRoutes.file_buffer := Some ["a"%byte] |}.

Definition sample_chunk_requests : list UploadRoutes.ChunkRequest :=
  [sample_chunk_request "2"; sample_chunk_request "0"; sample_chunk_request "17"].

(** Whether a string begins with a decimal digit. *)
Definition starts_with_digit (s : string) : bool :=
  match s with
  | String c _ => JsMore.is_digit c
  | EmptyString => false
  end.

(** The chunk requests one upload sends, and how many of the requests of a
    log are for chunk [i]. *)
Definition chunk_requests (attempt : Z -> nat -> ChunkedUpload.Attempt) (chunk : ChunkedUpload.Chunk)
  : list ChunkedUpload.Request :=
  match ChunkedUpload.uploadChunk (attempt (ChunkedUpload.index chunk))
          (ChunkedUpload.index chunk) with
  | Some (_, reqs) => reqs
  | None => []
  end.

Definition is_post (i : Z) (r : ChunkedUpload.Request) : bool :=
  match r with
  | ChunkedUpload.PostChunk j => i =? j
  | _ => false
  end.

Definition count_posts (i : Z) (l : list ChunkedUpload.Request) : nat :=
  length (List.filter (is_post i) l).

(** The uploads that settle while the loop waits for its next turn, after
    the one that ended the race.  [ks] are their positions in
    [activeUploads] (taken modulo its length): one that fulfils removes
    itself, one that rejects stays where it is.  The result is what is left
    of [activeUploads] and whether an upload rejected. *)
Fixpoint settle_more (attempt : Z -> nat -> ChunkedUpload.Attempt)
    (activeUploads : list ChunkedUpload.Chunk) (ks : list nat)
  : list ChunkedUpload.Chunk * bool :=
  match ks with
  | [] => (activeUploads, false)
  | k :: ks' =>
      match activeUploads with
      | [] => ([], false)
      | first :: _ =>
          let k := (k mod length activeUploads)%nat in
          let chunk := nth k activeUploads first in
          match ChunkedUpload.uploadChunk (attempt (ChunkedUpload.index chunk))
                  (ChunkedUpload.index chunk) with
          | Some (ChunkedUpload.Resolved _, _) =>
              settle_more attempt (ChunkedUpload.drop_nth k activeUploads) ks'
          | _ => (fst (settle_more attempt activeUploads ks'), true)
          end
      end
  end.

(** The pool seen at its suspension points: [chunkQueue] and
    [activeUploads] at every [await Promise.race (activeUploads)] of the
    outer loop, in the order the races are run.  [order] lists, for each
    race, the positions of the uploads that settle before the loop goes on:
    the first one ends the race (a rejection makes it throw), the others are
    those of [settle_more].  [rejected]: [activeUploads] holds an upload
    that has rejected, so that the race rejects at once. *)
Fixpoint races (fuel : nat) (maxParallel : Z) (attempt : Z -> nat -> ChunkedUpload.Attempt)
    (chunkQueue activeUploads : list ChunkedUpload.Chunk) (order : list (list nat))
    (rejected : bool)
  : list (list ChunkedUpload.Chunk * list ChunkedUpload.Chunk) :=
  match fuel with
  | O => []
  | S fuel' =>
      match chunkQueue, activeUploads with
      | [], [] => []
      | _, _ =>
          let '(chunkQueue, activeUploads) :=
            ChunkedUpload.fill maxParallel chunkQueue activeUploads in
          match activeUploads with
          | [] => races fuel' maxParallel attempt chunkQueue activeUploads order rejected
          | first :: _ =>
              (chunkQueue, activeUploads)
              :: if rejected then []
                 else
                   let k := (hd 0%nat (hd [] order) mod length activeUploads)%nat in
                   let chunk := nth k activeUploads first in
                   match ChunkedUpload.uploadChunk (attempt (ChunkedUpload.index chunk))
                           (ChunkedUpload.index chunk) with
                   | Some (ChunkedUpload.Resolved _, _) =>
                       let left :=
                         settle_more attempt (ChunkedUpload.drop_nth k activeUploads)
                           (tl (hd [] order)) in
                       races fuel' maxParallel attempt chunkQueue (fst left) (tl order)
                         (snd left)
                   | _ => []
                   end
          end
      end
  end.

(** How the upload of one chunk goes on once the wait of a pause is taken
    into account: it settles, or it polls for ever in a wait, having sent
    [sent]. *)
Inductive Course :=
| Settles (outcome : ChunkedUpload.Settled bool) (sent : list ChunkedUpload.Request)
| Polls (sent : list ChunkedUpload.Request).

(** The hook's [uploadChunk] with the wait at the head of each pass.
    [resumed k] tells whether the wait of the pass with [retries = k] ends:
    at once if the upload is not paused then, when [resume] is called
    otherwise; the wait reads neither the abort signal nor anything else. *)
Fixpoint uploadChunk_paused_loop (fuel retries : nat) (resumed : nat -> bool)
    (attempt : nat -> ChunkedUpload.Attempt) (chunkIndex : Z)
    (sent : list ChunkedUpload.Request) : option Course :=
  match fuel with
  | O => None
  | S fuel' =>
      if (retries <? ChunkedUpload.MAX_RETRIES)%nat then
        if negb (resumed retries) then Some (Polls sent)
        else
          let sent := sent ++ [ChunkedUpload.PostChunk chunkIndex] in
          match attempt retries with
          | ChunkedUpload.ResponseOk => Some (Settles (ChunkedUpload.Resolved true) sent)
          | ChunkedUpload.ResponseNotOk =>
              uploadChunk_paused_loop fuel' (S retries) resumed attempt chunkIndex sent
          | ChunkedUpload.Aborted =>
              Some (Settles (ChunkedUpload.Rejected ChunkedUpload.AbortError) sent)
          | ChunkedUpload.NetworkError =>
              let retries := S retries in
              if (ChunkedUpload.MAX_RETRIES <=? retries)%nat then
                Some (Settles
                        (ChunkedUpload.Rejected
                           (ChunkedUpload.Failure
                              ("Chunk " +:+ Js.toString chunkIndex +:+ " failed after "
                               +:+ Js.toString (Z.of_nat ChunkedUpload.MAX_RETRIES)
                               +:+ " retries"))) sent)
              else uploadChunk_paused_loop fuel' retries resumed attempt chunkIndex sent
          end
      else Some (Settles (ChunkedUpload.Resolved false) sent)
  end.

Definition uploadChunk_with_pause (resumed : nat -> bool)
    (attempt : nat -> ChunkedUpload.Attempt) (chunkIndex : Z) : option Course :=
  uploadChunk_paused_loop (S ChunkedUpload.MAX_RETRIES) 0 resumed attempt chunkIndex [].

(** What [ChunkedUpload.uploadChunk] says of an upload, as a course. *)
Definition course_of (r : option (ChunkedUpload.Settled bool * list ChunkedUpload.Request))
  : option Course :=
  match r with
  | Some (outcome, sent) => Some (Settles outcome sent)
  | None => None
  end.

(** A world in which the user cancels while the first chunk is in flight. *)
Definition cancelled_world (order : list nat) : ChunkedUpload.World :=
  one_chunk_world (fun _ => ChunkedUpload.Aborted) order.

End MoreProps.

(* ===================================================================== *)
(** ** Vocabulary of the gateway's properties *)
(* ===================================================================== *)

Module GatewayProps.
Import Gateway.
Local Open Scope Z_scope.

(** The hash loop without its wrap-around. *)
Definition polynomial (data : list Z) : Z := fold_left (fun h c => 31 * h + c) data 0.

Definition unique_keys {V : Type} (m : Map V) : Prop := List.NoDup (map fst m).

Fixpoint distinct (keys : list string) : bool :=
  match keys with
  | [] => true
  | k :: rest => negb (existsb (String.eqb k) rest) && distinct rest
  end.

(** What touches the cache. *)
Inductive CacheOp (A : Type) :=
| Get (key : string) (now : Z)
| Set_ (key : string) (value : A) (now : Z)
| Cleanup (now : Z).
Arguments Get {A} key now.
Arguments Set_ {A} key value now.
Arguments Cleanup {A} now.

Definition cache_step {A : Type} (c : Cache A) (op : CacheOp A) : Cache A :=
  match op with
  | Get key now => snd (getFromCache key now c)
  | Set_ key value now => setInCache key value now c
  | Cleanup now => cleanup now c
  end.

Definition cache_run {A : Type} (ops : list (CacheOp A)) : Cache A :=
  fold_left cache_step ops [].

(** A variable of the environment that is set to a non-empty string. *)
Definition is_set (variable : option string) : bool :=
  match variable with
  | Some value => negb (String.eqb value "")
  | None => false
  end.

(** What happens to a gateway, one event at a time: a call of
    [chatCompletion] runs up to its [await]; the provider of the [n]-th
    waiting call answers and the call runs to its end; the import of the
    OpenAI SDK resolves; the cleanup interval fires; [resetStats] is
    called. *)
Inductive Event :=
| Call (now : nat -> Z) (request : ChatCompletionRequest)
| Settle (n : nat) (now : nat -> Z) (replies : Replies)
| Imported
| Tick (now : Z)
| Reset.

Definition gateway_step (stringify : string -> ChatCompletionRequest -> list Z)
    (st : UnifiedAIGatewayService * list Pending) (ev : Event)
  : UnifiedAIGatewayService * list Pending :=
  let '(g, waiting) := st in
  match ev with
  | Call now request =>
      match chatCompletion_start stringify g now request with
      | (inl _, g') => (g', waiting)
      | (inr p, g') => (g', waiting ++ [p])
      end
  | Settle n now replies =>
      match nth_error waiting n with
      | Some p =>
          (snd (chatCompletion_resume g now p (answer_of p replies)),
           ChunkedUpload.drop_nth n waiting)
      | None => st
      end
  | Imported => (openai_imported g, waiting)
  | Tick now => (set_cache g (cleanup now (cache g)), waiting)
  | Reset => (resetStats g, waiting)
  end.

Definition gateway_run (stringify : string -> ChatCompletionRequest -> list Z) (env : Env)
    (events : list Event) : UnifiedAIGatewayService * list Pending :=
  fold_left (gateway_step stringify) events (create env, []).

Definition is_reset (ev : Event) : bool :=
  match ev with Reset => true | _ => false end.

(** What the constructor fixes in a gateway made from [env]. *)
Definition configured (env : Env) (g : UnifiedAIGatewayService) : Prop :=
  providers g = initializeProviders env []
  /\ anthropicClient g = is_set (ANTHROPIC_API_KEY env)
  /\ (openaiClient g = true -> is_set (OPENAI_API_KEY env) = true).

(** The response that a cache hit makes of the stored one. *)
Definition served (r : ChatCompletionResponse) (time : Z) : ChatCompletionResponse :=
  {| response_content := response_content r; response_model := response_model r;
     response_provider := response_provider r; usage := usage r;
     finishReason := finishReason r; cached := true; processingTime := time |}.

(** The response as a call returns and stores it once its provider
    answered. *)
Definition answered (r : ChatCompletionResponse) (time : Z) : ChatCompletionResponse :=
  {| response_content := response_content r; response_model := response_model r;
     response_provider := response_provider r; usage := usage r;
     finishReason := finishReason r; cached := false; processingTime := time |}.

(** The calls that the counters say have ended. *)
Definition ended (s : AIGatewayStats) : Z :=
  successfulRequests s + failedRequests s + cachedResponses s.

(** [counts[key] || 0] *)
Definition count_of (key : string) (counts : gmap string Z) : Z := default 0 (counts !! key).

(** The code units of a string of ASCII characters. *)
Definition units (s : string) : list Z :=
  map (fun c => Z.of_nat (nat_of_ascii c)) (list_ascii_of_string s).

Definition quoted (s : string) : list Z := 34 :: units s ++ [34].

Fixpoint joined (items : list (list Z)) : list Z :=
  match items with
  | [] => []
  | [item] => item
  | item :: rest => item ++ 44 :: joined rest
  end.

Definition member (key : string) (value : option string) : list Z :=
  match value with
  | Some v => 44 :: quoted key ++ 58 :: quoted v
  | None => []
  end.

(** The JSON text of the key object of a request all of whose strings are
    made of printable ASCII characters other than the quote and the
    backslash, which [JSON.stringify] writes as they are. *)
Definition stringify_plain (type : string) (request : ChatCompletionRequest) : list Z :=
  123 :: quoted "type" ++ 58 :: quoted type
  ++ 44 :: quoted "messages" ++ 58 :: 91 :: joined (map (fun m => quoted (content m)) (messages request))
  ++ 93 :: member "model" (request_model request)
  ++ member "provider" (request_provider request) ++ [125].

Definition sample_request (text : string) (provider : option string) : ChatCompletionRequest :=
  {| messages := [{| role := user; content := text |}];
     request_model := None;
     request_provider := provider;
     request_feature := Some "chat" |}.

Definition sample_env : Env :=
  {| OPENAI_API_KEY := None; ANTHROPIC_API_KEY := Some "sk-ant";
     HUGGINGFACE_API_KEY := Some "hf"; GOOGLE_AI_API_KEY := None |}.

Definition sample_message : AnthropicMessage :=
  {| first_text := Some "hello"; input_tokens := 12; output_tokens := 7;
     stop_reason := None |}.

Definition sample_replies : Replies :=
  {| claude_reply := Returned sample_message; openai_reply := Thrown "unreachable" |}.

(** A clock that reads [t], [t + 1], ... *)
Definition clock_from (t : Z) (n : nat) : Z := t + Z.of_nat n.

(** A full cache: a thousand entries stored at time 0. *)
Definition full_cache : Cache Z :=
  map (fun i => (Js.toString i, {| response := i; timestamp := 0 |})) (seqZ 0 1000).

End GatewayProps.

(* ===================================================================== *)
(** ** The built-ins on published values *)
(* ===================================================================== *)

Example sha256_empty :
  Crypto.sha256_hex "" = "e3b0c44298fc1c149afbf4c8996fb92427ae41e4649b934ca495991b7852b855".
Proof. vm_compute. reflexivity. Qed.

Example sha256_abc :
  Crypto.sha256_hex "abc" = "ba7816bf8f01cfea414140de5dae2223b00361a396177a9cb410ff61f20015ad".
Proof. vm_compute. reflexivity. Qed.

Example sha256_two_blocks :
  Crypto.sha256_hex
    "aaaaaaaaaaaaaaaaaaaaaaaaaaaaaaaaaaaaaaaaaaaaaaaaaaaaaaaaaaaaaaaaaaaaaa"
  = "6bd5e5034855a11241f0dee8fc72850ffd9955b28347a86428b5fa19119f6ad0".
Proof. vm_compute. reflexivity. Qed.

Example md5_empty : Crypto.md5_hex [] = "d41d8cd98f00b204e9800998ecf8427e".
Proof. vm_compute. reflexivity. Qed.

Example md5_two_blocks :
  Crypto.md5_hex (repeat "a"%byte 70) = "0f5c6c4e740bfcc08c3c26ccb2673d46".
Proof. vm_compute. reflexivity. Qed.

Example md5_abc :
  Crypto.md5_hex ["a"; "b"; "c"]%byte = "900150983cd24fb0d6963f7d28e17f72".
Proof. vm_compute. reflexivity. Qed.

Example toISOString_epoch : Js.toISOString (Js.Time 0) = Some "1970-01-01T00:00:00.000Z".
Proof. reflexivity. Qed.

Example toISOString_2023 : Js.toISOString (Js.Time 1700000000000) = Some "2023-11-14T22:13:20.000Z".
Proof. vm_compute. reflexivity. Qed.

Example toISOString_leap_day : Js.toISOString (Js.Time 951782400000) = Some "2000-02-29T00:00:00.000Z".
Proof. vm_compute. reflexivity. Qed.

Example toISOString_before_epoch : Js.toISOString (Js.Time (-1)) = Some "1969-12-31T23:59:59.999Z".
Proof. vm_compute. reflexivity. Qed.

Example toISOString_year_10000 : Js.toISOString (Js.Time 253402300800000) = Some "+010000-01-01T00:00:00.000Z".
Proof. vm_compute. reflexivity. Qed.

Example ceil_div_12MiB : Js.ceil_div (12 * 1024 * 1024) (5 * 1024 * 1024) = 3%Z.
Proof. reflexivity. Qed.

Example toString_42 : Js.toString 42 = "42".
Proof. reflexivity. Qed.

(** A 12 MiB file in 5 MiB chunks: ranges of 5, 5 and 2 MiB. *)
Example make_chunks_12MiB :
  map Props.range_length
      (ChunkedUpload.make_chunks 3 (5 * 1024 * 1024) (12 * 1024 * 1024))
  = [5 * 1024 * 1024; 5 * 1024 * 1024; 2 * 1024 * 1024]%Z.
Proof. reflexivity. Qed.

Example toISOString_range :
  map Js.toISOString
    [Js.Time 8640000000000000; Js.Time 8640000000000001; Js.Time (-8640000000000000);
     Js.Time (-8640000000000001); Js.InvalidDate]
  = [Some "+275760-09-13T00:00:00.000Z"; None; Some "-271821-04-20T00:00:00.000Z"; None; None].
Proof. vm_compute. reflexivity. Qed.

Example generateForensicSignature_sample :
  MediaHub.generateForensicSignature 1700000000000
    {| MediaHub.sig_creatorId := "creator-1"; MediaHub.timestamp := None |}
  = Returned "FANZ-3716CFB3206C19FF".
Proof. vm_compute. reflexivity. Qed.

Example fileHash_sample :
  MediaHub.fileHash (MediaHub.local_asset Props.sample_complete "u-1" Props.sample_session)
  = "a24a7f55f278dd49fb1f99c5507800cb198a5bfe10fe2126cd0b25672152b0da".
Proof. vm_compute. reflexivity. Qed.

Example parseInt10_plain : JsMore.parseInt10 (Some "42") = Some (JsMore.Whole 42).
Proof. reflexivity. Qed.

Example parseInt10_trailing : JsMore.parseInt10 (Some "12abc") = Some (JsMore.Whole 12).
Proof. reflexivity. Qed.

Example parseInt10_spaces_and_sign :
  JsMore.parseInt10 (Some "  -7 ") = Some (JsMore.Whole (-7)).
Proof. reflexivity. Qed.

Example parseInt10_not_a_number :
  map JsMore.parseInt10 [None; Some ""; Some "abc"; Some "-"; Some "- 5"; Some ".5"]
  = [None; None; None; None; None; None].
Proof. reflexivity. Qed.

Example round_half_up : map JsMore.round [3 # 2; 5 # 2; - (1 # 2); 149 # 100]%Q = [2; 3; 0; 1]%Z.
Proof. reflexivity. Qed.

Example to_int32_wraps :
  map JsMore.to_int32 [0; 2147483647; 2147483648; -2147483649; 4294967296]%Z
  = [0; 2147483647; -2147483648; 2147483647; 0]%Z.
Proof. reflexivity. Qed.

Example toString16_signed :
  map JsMore.toString16 [0; 255; -255; 2147483647]%Z = ["0"; "ff"; "-ff"; "7fffffff"].
Proof. reflexivity. Qed.

(** The hash is the one of Java's [String.hashCode]. *)
Example hash_of_known_strings :
  map (fun s => Gateway.hash_of (GatewayProps.units s))
    ["hello"; "hello world"; "The quick brown fox"]
  = [99162322; 1794106052; -1739336029]%Z.
Proof. vm_compute. reflexivity. Qed.

Example generateCacheKey_sample :
  Gateway.generateCacheKey GatewayProps.stringify_plain "chat"
    (GatewayProps.sample_request "hello" None)
  = "ai:chat:1408bbd2".
Proof. vm_compute. reflexivity. Qed.

Example initializeProviders_order :
  map fst (Gateway.initializeProviders
             {| Gateway.OPENAI_API_KEY := Some "sk"; Gateway.ANTHROPIC_API_KEY := Some "";
                Gateway.HUGGINGFACE_API_KEY := Some "hf";
                Gateway.GOOGLE_AI_API_KEY := Some "g" |} [])
  = ["openai"; "huggingface"; "google"].
Proof. reflexivity. Qed.

Example formatTime_samples :
  map Display.formatTime [0; 59; 60; 89; 90; 3599; 3600; 5400; 7199]%Z
  = ["0s"; "59s"; "1m 0s"; "1m 29s"; "2m 30s"; "60m 59s"; "1h 0m"; "2h 30m"; "2h 60m"].
Proof. vm_compute. reflexivity. Qed.

(** Beyond 2^53 the digits are read as the nearest double. *)
Example parseInt10_rounds :
  map (fun s => JsMore.parseInt10 (Some s))
    ["9007199254740992"; "9007199254740993"; "9007199254740995"; "-9007199254740993";
     "18014398509481985"; "123456789012345678901234567890"]
  = map (fun n => Some (JsMore.Whole n))
      [9007199254740992; 9007199254740992; 9007199254740996; -9007199254740992;
       18014398509481984; 123456789012345677877719597056]%Z.
Proof. vm_compute. reflexivity. Qed.

Example nearest_double_overflow :
  map JsMore.nearest_double [2 ^ 1024 - 2 ^ 970 - 1; 2 ^ 1024 - 2 ^ 970; 10 ^ 309]%Z
  = [Some (2 ^ 1024 - 2 ^ 971)%Z; None; None].
Proof. vm_compute. reflexivity. Qed.

(** Five chunks, two at a time, both uploads in flight settling before the
    loop goes on: three races. *)
Example races_settle_in_batches :
  map (fun race => (length (fst race), length (snd race)))
    (MoreProps.races 6 2 (fun _ _ => ChunkedUpload.ResponseOk)
       (ChunkedUpload.make_chunks 5 (5 * 1024 * 1024) (22 * 1024 * 1024)) []
       [[0; 0]; [0; 0]; [0]]%nat false)
  = [(3, 2); (1, 2); (0, 1)]%nat.
Proof. vm_compute. reflexivity. Qed.

(** An upload whose second upload rejects after the first fulfilled: the
    next race is run, full again, and is the last. *)
Example races_after_a_rejection :
  map (fun race => (length (fst race), length (snd race)))
    (MoreProps.races 6 2
       (fun i _ => if (i =? 1)%Z then ChunkedUpload.Aborted else ChunkedUpload.ResponseOk)
       (ChunkedUpload.make_chunks 5 (5 * 1024 * 1024) (22 * 1024 * 1024)) []
       [[0; 0]; [0]]%nat false)
  = [(3, 2); (2, 2)]%nat.
Proof. vm_compute. reflexivity. Qed.

Example uploadChunk_left_paused :
  MoreProps.uploadChunk_with_pause (fun k => (k <? 1)%nat)
    (fun _ => ChunkedUpload.NetworkError) 7
  = Some (MoreProps.Polls [ChunkedUpload.PostChunk 7]).
Proof. reflexivity. Qed.

Example uploadChunk_null_body :
  MediaHub.completedChunks
    <$> (MediaHub.uploadSessions
           (snd (MediaHub.uploadChunk Props.connected_client (FetchOk MediaHub.BodyNull)
                   "u-1" 0%Z ["a"%byte])) !! "u-1")
  = Some 2%Z.
Proof. vm_compute. reflexivity. Qed.
(* ===================================================================== *)
(** ** The session store: lookups after each operation *)
(* ===================================================================== *)

Module StoreFacts.
Import MediaHub Props.
Local Open Scope Z_scope.

Lemma central_set_sessions c m : central (set_sessions c m) = central c.
Proof. reflexivity. Qed.

Lemma central_disconnected c : isConnected c = false -> central c = false.
Proof. unfold central. intros ->. reflexivity. Qed.

Lemma central_body_disconnected {A} c (r : Fetch A) :
  isConnected c = false -> central_body c r = None.
Proof. intros H. unfold central_body. rewrite (central_disconnected c H). reflexivity. Qed.

Lemma central_step c op : central (step c op) = central c.
Proof.
  destruct op as [w m | r u i d | w u]; simpl.
  - unfold initializeUpload. destruct (central_body c (init_remote w)); reflexivity.
  - unfold uploadChunk. destruct (uploadSessions c !! u); [|reflexivity].
    destruct (central_body c r) as [[|result_etag]|]; reflexivity.
  - unfold completeUpload. destruct (uploadSessions c !! u); [|reflexivity].
    destruct (central_body c (complete_remote w)); reflexivity.
Qed.

(** An answer that is no 2xx response sends every method to its local
    fallback. *)
Lemma central_body_error {A} c : central_body c (@FetchError A) = None.
Proof. unfold central_body. destruct (central c); reflexivity. Qed.

Lemma counted_local c r s : central_body c r = None -> counted c r s = bump s.
Proof. unfold counted. intros ->. reflexivity. Qed.

Lemma increment_local c r : central_body c r = None -> increment c r = 1.
Proof. unfold increment. intros ->. reflexivity. Qed.

Lemma counted_increment c r s :
  completedChunks (counted c r s) = completedChunks s + increment c r
  /\ totalChunks (counted c r s) = totalChunks s
  /\ expiresAt (counted c r s) = expiresAt s.
Proof.
  unfold counted, increment. destruct (central_body c r) as [[|result_etag]|];
    cbn [completedChunks totalChunks expiresAt bump]; repeat split; lia.
Qed.

Lemma central_body_step {A} c op (r : Fetch A) :
  central_body (step c op) r = central_body c r.
Proof. unfold central_body. rewrite central_step. reflexivity. Qed.

Lemma init_key_step c op w : init_key (step c op) w = init_key c w.
Proof. unfold init_key. rewrite central_body_step. reflexivity. Qed.

(** [initializeUpload] writes one key. *)
Lemma initializeUpload_sessions c w m :
  uploadSessions (snd (initializeUpload c w m))
  = <[init_key c w := fst (initializeUpload c w m)]> (uploadSessions c).
Proof.
  unfold initializeUpload, init_key.
  destruct (central_body c (init_remote w)); reflexivity.
Qed.

(** [uploadChunk] replaces the session by the counted one, or does
    nothing. *)
Lemma uploadChunk_sessions {I} c r u (i : I) d :
  uploadSessions (snd (uploadChunk c r u i d))
  = match uploadSessions c !! u with
    | Some s => <[u := counted c r s]> (uploadSessions c)
    | None => uploadSessions c
    end.
Proof.
  unfold uploadChunk, counted. destruct (uploadSessions c !! u); [|reflexivity].
  destruct (central_body c r) as [[|result_etag]|]; reflexivity.
Qed.

Lemma uploadChunk_success {I} c r u (i : I) d :
  success (fst (uploadChunk c r u i d)) = bool_decide (is_Some (uploadSessions c !! u)).
Proof.
  unfold uploadChunk. destruct (uploadSessions c !! u) as [s|].
  - rewrite bool_decide_eq_true_2 by eauto.
    destruct (central_body c r) as [[|result_etag]|]; reflexivity.
  - rewrite bool_decide_eq_false_2; [reflexivity|]. intros [? ?]; discriminate.
Qed.

(** Whatever path [completeUpload] takes, the session is gone afterwards. *)
Lemma completeUpload_sessions c w u :
  uploadSessions (snd (completeUpload c w u)) = delete u (uploadSessions c).
Proof.
  unfold completeUpload. destruct (uploadSessions c !! u) as [s|] eqn:E.
  - destruct (central_body c (complete_remote w)); simpl.
    + apply delete_insert_eq.
    + rewrite insert_insert_eq. apply delete_insert_eq.
  - simpl. symmetry. apply delete_id. exact E.
Qed.

Lemma step_lookup_other c op u :
  match op with
  | OpInit w _ => init_key c w <> u
  | OpChunk _ u' _ _ | OpComplete _ u' => u' <> u
  end ->
  uploadSessions (step c op) !! u = uploadSessions c !! u.
Proof.
  destruct op as [w m | r u' i d | w u']; simpl; intros Hne.
  - rewrite initializeUpload_sessions. apply lookup_insert_ne. exact Hne.
  - rewrite uploadChunk_sessions. destruct (uploadSessions c !! u'); [|reflexivity].
    apply lookup_insert_ne. exact Hne.
  - rewrite completeUpload_sessions. apply lookup_delete_ne. exact Hne.
Qed.

Lemma step_chunk_lookup c r u i d :
  uploadSessions (step c (OpChunk r u i d)) !! u = counted c r <$> uploadSessions c !! u.
Proof.
  simpl. rewrite uploadChunk_sessions. destruct (uploadSessions c !! u) as [s|] eqn:E.
  - rewrite lookup_insert_eq. reflexivity.
  - rewrite E. reflexivity.
Qed.

Lemma step_complete_lookup c w u :
  uploadSessions (step c (OpComplete w u)) !! u = None.
Proof. simpl. rewrite completeUpload_sessions. apply lookup_delete_eq. Qed.

Lemma uploadChunk_absent {I} c r u (i : I) d :
  uploadSessions c !! u = None -> uploadChunk c r u i d = (not_found i, c).
Proof. intros H. unfold uploadChunk. rewrite H. reflexivity. Qed.

Lemma completeUpload_absent c w u :
  uploadSessions c !! u = None ->
  completeUpload c w u = (Thrown "Upload session not found", c).
Proof. intros H. unfold completeUpload. rewrite H. reflexivity. Qed.

Lemma completeUpload_local c w u s :
  uploadSessions c !! u = Some s ->
  central_body c (complete_remote w) = None ->
  fst (completeUpload c w u) = Returned (local_asset w u (set_status s Status.completing)).
Proof. intros H1 H2. unfold completeUpload. rewrite H1, H2. reflexivity. Qed.

(** *** Sequences of operations *)

Lemma not_reinitialised_step c op u ops :
  not_reinitialised c u ops -> not_reinitialised (step c op) u ops.
Proof.
  unfold not_reinitialised. intros H. eapply Forall_impl; [exact H|].
  intros [w m | |]; [|trivial..]. rewrite init_key_step. trivial.
Qed.

(** A session that is gone, or was never there, does not come back unless
    an [initializeUpload] registers its id. *)
Lemma run_absent c u ops :
  uploadSessions c !! u = None ->
  not_reinitialised c u ops ->
  uploadSessions (run c ops) !! u = None.
Proof.
  revert c. induction ops as [|op ops IH]; intros c Habs Hno; [exact Habs|].
  inversion Hno as [|? ? Hop Hrest]; subst. simpl.
  apply IH; [|apply not_reinitialised_step; exact Hrest].
  destruct op as [w m | r u' i d | w u'].
  - rewrite step_lookup_other by exact Hop. exact Habs.
  - destruct (decide (u' = u)) as [->|Hne].
    + rewrite step_chunk_lookup, Habs. reflexivity.
    + rewrite step_lookup_other by exact Hne. exact Habs.
  - destruct (decide (u' = u)) as [->|Hne].
    + apply step_complete_lookup.
    + rewrite step_lookup_other by exact Hne. exact Habs.
Qed.




(** The counter of a session that stays in the map moves with the accepted
    chunks for its id, and with nothing else. *)
Lemma run_session c u ops s s' :
  uploadSessions c !! u = Some s ->
  not_reinitialised c u ops ->
  uploadSessions (run c ops) !! u = Some s' ->
  completedChunks s' = completedChunks s + added c u ops
  /\ totalChunks s' = totalChunks s.
Proof.
  intros Hin Hno Hend. revert c s Hin Hno Hend.
  induction ops as [|op ops IH]; intros c s Hin Hno Hend.
  - simpl in *. rewrite Hin in Hend. injection Hend as <-. split; [lia|reflexivity].
  - inversion Hno as [|? ? Hop Hrest]; subst.
    apply (not_reinitialised_step c op) in Hrest.
    change (run c (op :: ops)) with (run (step c op) ops) in Hend.
    destruct op as [w m | r u' i d | w u'].
    + destruct (IH (step c (OpInit w m)) s) as [IH1 IH2]; try assumption.
      { rewrite step_lookup_other by exact Hop. exact Hin. }
      cbn [added]. split; [lia|exact IH2].
    + destruct (decide (u' = u)) as [->|Hne].
      * destruct (IH (step c (OpChunk r u i d)) (counted c r s)) as [IH1 IH2];
          try assumption.
        { rewrite step_chunk_lookup, Hin. reflexivity. }
        cbn [added]. rewrite String.eqb_refl, uploadChunk_success.
        rewrite bool_decide_eq_true_2 by eauto.
        destruct (counted_increment c r s) as (Hc & Ht & _).
        cbn [andb]. split; [lia|congruence].
      * destruct (IH (step c (OpChunk r u' i d)) s) as [IH1 IH2]; try assumption.
        { rewrite step_lookup_other by exact Hne. exact Hin. }
        cbn [added]. apply String.eqb_neq in Hne. rewrite Hne.
        cbn [andb]. split; [lia|exact IH2].
    + destruct (decide (u' = u)) as [->|Hne].
      * rewrite (run_absent _ u ops) in Hend; [discriminate| |exact Hrest].
        apply step_complete_lookup.
      * destruct (IH (step c (OpComplete w u')) s) as [IH1 IH2]; try assumption.
        { rewrite step_lookup_other by exact Hne. exact Hin. }
        cbn [added]. split; [lia|exact IH2].
Qed.

Lemma uploadChunk_present {I} c r u (i : I) d s :
  uploadSessions c !! u = Some s ->
  success (fst (uploadChunk c r u i d)) = true
  /\ uploadSessions (snd (uploadChunk c r u i d)) !! u = Some (counted c r s).
Proof.
  intros H. split.
  - rewrite uploadChunk_success. apply bool_decide_eq_true_2. eauto.
  - rewrite uploadChunk_sessions, H. apply lookup_insert_eq.
Qed.

(** On the local path the chunk is counted once. *)
Lemma uploadChunk_local {I} c r u (i : I) d s :
  uploadSessions c !! u = Some s ->
  central_body c r = None ->
  success (fst (uploadChunk c r u i d)) = true
  /\ uploadSessions (snd (uploadChunk c r u i d)) !! u = Some (bump s).
Proof.
  intros H Hlocal. destruct (uploadChunk_present c r u i d s H) as [H1 H2].
  rewrite (counted_local c r s Hlocal) in H2. split; assumption.
Qed.

Lemma uploadChunk_isConnected {I} c r u (i : I) d :
  isConnected (snd (uploadChunk c r u i d)) = isConnected c.
Proof.
  unfold uploadChunk. destruct (uploadSessions c !! u); [|reflexivity].
  destruct (central_body c r) as [[|result_etag]|]; reflexivity.
Qed.

Lemma upload_chunks_keeps c u chunks :
  is_Some (uploadSessions c !! u) ->
  is_Some (uploadSessions (upload_chunks c u chunks) !! u)
  /\ isConnected (upload_chunks c u chunks) = isConnected c.
Proof.
  revert c. induction chunks as [|[i d] chunks IH]; intros c [s Hs]; simpl.
  - split; [eauto|reflexivity].
  - destruct (uploadChunk_local c FetchError u i d s Hs (central_body_error c)) as [_ Hnext].
    destruct (IH (snd (uploadChunk c FetchError u i d))) as [IH1 IH2]; [eauto|].
    split; [exact IH1|]. rewrite IH2. apply uploadChunk_isConnected.
Qed.

End StoreFacts.

(* ===================================================================== *)
(** ** The session store: lifecycle of a session *)
(* ===================================================================== *)

Module Store.
Import MediaHub Props StoreFacts.
Local Open Scope Z_scope.

(** C9.  For an [uploadId] that is not in the session map, [uploadChunk]
    returns the failure result [{success: false, chunkIndex, error: 'Session
    not found'}] instead of throwing, [completeUpload] throws [Upload session
    not found], and both leave the client, hence the session map, as it
    was. *)
Theorem unknown_session_is_rejected
    (c : MediaHubClient) (remote : Fetch ChunkBody) (w : CompleteWorld)
    (uploadId : string) (chunkIndex : Z) (chunkData : list Byte.byte) :
  uploadSessions c !! uploadId = None ->
  uploadChunk c remote uploadId chunkIndex chunkData = (not_found chunkIndex, c)
  /\ completeUpload c w uploadId = (Thrown "Upload session not found", c).
Proof.
  intros Habsent. split.
  - apply uploadChunk_absent. exact Habsent.
  - apply completeUpload_absent. exact Habsent.
Qed.

Lemma unknown_session_is_rejected_witness :
  uploadChunk standalone FetchError "no-such-upload" 7 [] = (not_found 7, standalone)
  /\ completeUpload standalone
       {| complete_uuid := "asset-1"; complete_clock := 0; complete_remote := FetchError |}
       "no-such-upload"
     = (Thrown "Upload session not found", standalone).
Proof.
  apply (unknown_session_is_rejected standalone FetchError _ "no-such-upload" 7 []).
  reflexivity.
Defined.

(** C2.  With MediaHub disconnected, [completeUpload] of a session that is
    in the map returns an asset, whatever [completedChunks] and [totalChunks]
    are; the asset has [processingStatus = 'pending'] and the session's
    [forensicSignature]; the session is deleted.  From then on, and after any
    further operations that do not initialise a session under the same id,
    [completeUpload] for the id throws [Upload session not found] (no second
    asset) and [uploadChunk] for it returns [Session not found]. *)
Theorem completeUpload_finalizes_once
    (c : MediaHubClient) (w : CompleteWorld) (uploadId : string) (session : UploadSession) :
  isConnected c = false ->
  uploadSessions c !! uploadId = Some session ->
  exists asset c',
    completeUpload c w uploadId = (Returned asset, c')
    /\ processingStatus asset = Processing.pending
    /\ asset_forensicSignature asset = forensicSignature session
    /\ uploadSessions c' = delete uploadId (uploadSessions c)
    /\ (forall ops,
          not_reinitialised c' uploadId ops ->
          (forall w',
             completeUpload (run c' ops) w' uploadId
             = (Thrown "Upload session not found", run c' ops))
          /\ (forall remote (chunkIndex : Z) chunkData,
                uploadChunk (run c' ops) remote uploadId chunkIndex chunkData
                = (not_found chunkIndex, run c' ops))).
Proof.
  intros Hoff Hin.
  pose proof (completeUpload_sessions c w uploadId) as Hdel.
  pose proof (completeUpload_local c w uploadId session Hin
                (central_body_disconnected c _ Hoff)) as Hasset.
  destruct (completeUpload c w uploadId) as [o c']. simpl in Hdel, Hasset. subst o.
  assert (Hgone : uploadSessions c' !! uploadId = None).
  { rewrite Hdel. apply lookup_delete_eq. }
  eexists _, c'. split; [reflexivity|].
  split; [reflexivity|]. split; [reflexivity|]. split; [exact Hdel|].
  intros ops Hno. pose proof (run_absent c' uploadId ops Hgone Hno) as Hstill. split.
  - intros w'. apply completeUpload_absent. exact Hstill.
  - intros remote chunkIndex chunkData. apply uploadChunk_absent. exact Hstill.
Qed.

Lemma completeUpload_finalizes_once_witness :
  exists asset c',
    completeUpload sample_client sample_complete "u-1" = (Returned asset, c')
    /\ processingStatus asset = Processing.pending
    /\ asset_forensicSignature asset = Some "FANZ-0123456789ABCDEF"
    /\ uploadSessions c' = delete "u-1" (uploadSessions sample_client)
    /\ (forall ops,
          not_reinitialised c' "u-1" ops ->
          (forall w',
             completeUpload (run c' ops) w' "u-1"
             = (Thrown "Upload session not found", run c' ops))
          /\ (forall remote (chunkIndex : Z) chunkData,
                uploadChunk (run c' ops) remote "u-1" chunkIndex chunkData
                = (not_found chunkIndex, run c' ops))).
Proof.
  apply (completeUpload_finalizes_once sample_client sample_complete "u-1" sample_session).
  - reflexivity.
  - vm_compute. reflexivity.
Defined.



(** The call that adds two: on a connected client, a chunk that the central
    service answers with a 2xx response whose body is [null] is counted in
    the [try] and again in the local fallback. *)
Lemma null_body_is_counted_twice :
  exists s,
    uploadSessions
      (snd (uploadChunk connected_client (FetchOk BodyNull) "u-1" 0 ["a"%byte])) !! "u-1"
    = Some s
    /\ completedChunks s = completedChunks sample_session + 2
    /\ etag (fst (uploadChunk connected_client (FetchOk BodyNull) "u-1" 0 ["a"%byte]))
       = Some (Crypto.md5_hex ["a"%byte]).
Proof. eexists. split; [vm_compute; reflexivity|]. split; reflexivity. Qed.





(** C6, as the code has it.  On the local path [completeUpload] sets
    [fileHash] to the SHA-256 hex digest of the [uploadId] string: it is
    fixed by the id of the session and is the same whatever bytes the chunks
    carried. *)
Theorem fileHash_is_digest_of_uploadId :
  (forall w metadata chunks cw,
     exists asset,
       whole_upload w metadata chunks cw = Returned asset
       /\ fileHash asset = Crypto.sha256_hex (init_uuid w))
  /\ (forall c w u s,
        uploadSessions c !! u = Some s ->
        central_body c (complete_remote w) = None ->
        exists asset,
          fst (completeUpload c w u) = Returned asset
          /\ fileHash asset = Crypto.sha256_hex u).
Proof.
  assert (Hgen : forall c w u s,
            uploadSessions c !! u = Some s ->
            central_body c (complete_remote w) = None ->
            exists asset,
              fst (completeUpload c w u) = Returned asset
              /\ fileHash asset = Crypto.sha256_hex u).
  { intros c w u s Hin Hlocal. eexists. split.
    - apply (completeUpload_local c w u s Hin Hlocal).
    - reflexivity. }
  split; [|exact Hgen].
  intros w metadata chunks cw. unfold whole_upload.
  change (initializeUpload standalone w metadata)
    with (local_session w metadata,
          set_sessions standalone (<[init_uuid w := local_session w metadata]> ∅)).
  change (uploadId (local_session w metadata)) with (init_uuid w).
  set (c0 := set_sessions standalone (<[init_uuid w := local_session w metadata]> ∅)).
  destruct (upload_chunks_keeps c0 (init_uuid w) chunks) as [[s Hs] Hoff].
  { exists (local_session w metadata). apply lookup_insert_eq. }
  apply (Hgen _ cw _ s Hs). apply central_body_disconnected. rewrite Hoff. reflexivity.
Qed.

Lemma fileHash_is_digest_of_uploadId_witness :
  exists asset,
    fst (completeUpload sample_client sample_complete "u-1") = Returned asset
    /\ fileHash asset = Crypto.sha256_hex "u-1".
Proof.
  apply (proj2 fileHash_is_digest_of_uploadId sample_client sample_complete "u-1"
           sample_session).
  - vm_compute. reflexivity.
  - reflexivity.
Defined.

(** C6 fails as stated: two uploads of the same bytes get different
    [fileHash] values, and two uploads of different bytes under one id get
    the same. *)
Lemma fileHash_is_not_content_derived :
  (exists a1 a2,
     whole_upload (sample_init "u-1") (sample_metadata 1) [(0, ["a"%byte])] sample_complete
     = Returned a1
     /\ whole_upload (sample_init "u-2") (sample_metadata 1) [(0, ["a"%byte])] sample_complete
        = Returned a2
     /\ fileHash a1 <> fileHash a2)
  /\ (exists a1 a2,
        whole_upload (sample_init "u-1") (sample_metadata 1) [(0, ["a"%byte])] sample_complete
        = Returned a1
        /\ whole_upload (sample_init "u-1") (sample_metadata 1) [(0, ["b"%byte])] sample_complete
           = Returned a2
        /\ ["a"%byte] <> ["b"%byte]
        /\ fileHash a1 = fileHash a2).
Proof.
  split; eexists _, _.
  - split; [vm_compute; reflexivity|]. split; [vm_compute; reflexivity|].
    vm_compute. discriminate.
  - split; [vm_compute; reflexivity|]. split; [vm_compute; reflexivity|].
    split; [discriminate|reflexivity].
Qed.



End Store.

(* ===================================================================== *)
(** ** The forensic signature *)
(* ===================================================================== *)

Module Signature.
Import MediaHub Props.
Local Open Scope Z_scope.





Lemma length_hex_of_bytes bs :
  String.length (Crypto.hex_of_bytes bs) = (2 * List.length bs)%nat.
Proof. induction bs as [|b bs IH]; [reflexivity|]. cbn [Crypto.hex_of_bytes String.length List.length]. lia. Qed.

Lemma length_state8_bytes st : List.length (Crypto.state8_bytes st) = 32%nat.
Proof. reflexivity. Qed.

Lemma length_toUpperCase s : String.length (Js.toUpperCase s) = String.length s.
Proof. induction s as [|a s IH]; [reflexivity|]. cbn. rewrite IH. reflexivity. Qed.

Lemma length_prefix n s :
  (n <= String.length s)%nat -> String.length (substring 0 n s) = n.
Proof.
  revert s. induction n as [|n IH]; intros s Hn.
  - destruct s; reflexivity.
  - destruct s as [|a s]; [cbn in Hn; lia|]. cbn in *. rewrite IH by lia. reflexivity.
Qed.



(** The SHA-256 hex digest has 64 characters. *)
Lemma length_sha256_hex s : String.length (Crypto.sha256_hex s) = 64%nat.
Proof. unfold Crypto.sha256_hex. rewrite length_hex_of_bytes, length_state8_bytes. reflexivity. Qed.





End Signature.

(* ===================================================================== *)
(** ** Chunk arithmetic *)
(* ===================================================================== *)

Module Partition.
Import Props.
Import ChunkedUpload.
Local Open Scope Z_scope.

Lemma ceil_div_opp_div a b : 0 < b -> Js.ceil_div a b = - ((- a) / b).
Proof.
  intros Hb. destruct b as [|p|p]; try lia.
  unfold Js.ceil_div, Qceiling, Qfloor, Qdiv, Qinv, Qmult, Qopp, inject_Z. cbn.
  rewrite Z.mul_1_r. reflexivity.
Qed.

(** [ceil_div a b] is the least [n] with [a <= n * b]. *)
Lemma ceil_div_bounds a b :
  0 < b -> (Js.ceil_div a b - 1) * b < a <= Js.ceil_div a b * b.
Proof.
  intros Hb. rewrite ceil_div_opp_div by exact Hb.
  pose proof (Z.div_mod (- a) b ltac:(lia)).
  pose proof (Z.mod_pos_bound (- a) b Hb). nia.
Qed.

Lemma ceil_div_positive a b : 0 < a -> 0 < b -> 1 <= Js.ceil_div a b.
Proof. intros Ha Hb. pose proof (ceil_div_bounds a b Hb). nia. Qed.

Lemma make_chunks_succ n chunkSize fileSize :
  0 <= n ->
  make_chunks (n + 1) chunkSize fileSize
  = make_chunks n chunkSize fileSize ++ [chunk_at chunkSize fileSize n].
Proof.
  intros Hn. unfold make_chunks. rewrite seqZ_app by lia. rewrite map_app.
  rewrite (seqZ_cons (0 + n) 1) by lia. rewrite (seqZ_nil _ (Z.pred 1)) by (cbn; lia). reflexivity.
Qed.

Lemma total_length_app l1 l2 : total_length (l1 ++ l2) = total_length l1 + total_length l2.
Proof.
  unfold total_length. induction l1 as [|ch l1 IH]; [reflexivity|].
  cbn [app fold_right]. rewrite IH. lia.
Qed.

(** While the ranges start inside the file, the first [n] of them cover
    [min (n * chunkSize) fileSize] bytes. *)
Lemma total_length_prefix chunkSize fileSize n :
  0 < chunkSize -> 0 < fileSize -> 0 <= n -> (n - 1) * chunkSize < fileSize ->
  total_length (make_chunks n chunkSize fileSize) = Z.min (n * chunkSize) fileSize.
Proof.
  intros Hc Hf Hn. pattern n. apply natlike_ind; [| |exact Hn].
  - intros _. unfold make_chunks. rewrite seqZ_nil by lia. cbn. lia.
  - clear n Hn. intros n Hn IH Hlt. unfold Z.succ.
    rewrite make_chunks_succ by exact Hn. rewrite total_length_app, IH by nia.
    cbn. unfold range_length. cbn. nia.
Qed.

Lemma make_chunks_length n chunkSize fileSize :
  0 <= n -> Z.of_nat (length (make_chunks n chunkSize fileSize)) = n.
Proof. intros Hn. unfold make_chunks. rewrite length_map, length_seqZ. lia. Qed.

Lemma make_chunks_lookup n chunkSize fileSize i :
  0 <= i < n ->
  make_chunks n chunkSize fileSize !! Z.to_nat i = Some (chunk_at chunkSize fileSize i).
Proof.
  intros Hi. unfold make_chunks. rewrite list_lookup_fmap.
  rewrite (lookup_seqZ_lt 0 n (Z.to_nat i)) by lia.
  replace (0 + Z.of_nat (Z.to_nat i)) with i by lia. reflexivity.
Qed.



End Partition.

(* ===================================================================== *)
(** ** The init route and the divisor of the progress *)
(* ===================================================================== *)

Module Route.
Import MediaHub Props StoreFacts Routes.
Local Open Scope Z_scope.



(** What an accepted request leaves on the local path. *)
Lemma upload_init_success c w req data c' :
  upload_init c w req = (Success data, c') ->
  central_body c (init_remote w) = None ->
  exists fileSize metadata,
    body_fileSize req = Some fileSize
    /\ fileSize <> 0
    /\ meta_fileSize metadata = fileSize
    /\ data_uploadId data = init_uuid w
    /\ data_totalChunks data = totalChunks (local_session w metadata)
    /\ uploadSessions c' = <[init_uuid w := local_session w metadata]> (uploadSessions c).
Proof.
  unfold upload_init. intros H Hlocal.
  destruct (negb (truthy_string (body_filename req)) || negb (truthy_number (body_fileSize req))
            || negb (truthy_string (body_mimeType req))) eqn:Hmiss; [discriminate|].
  apply orb_false_elim in Hmiss as [Hmiss _]. apply orb_false_elim in Hmiss as [_ Hnum].
  destruct (body_fileSize req) as [fileSize|]; [|discriminate]. cbn in Hnum.
  apply negb_false_iff, negb_true_iff, Z.eqb_neq in Hnum.
  cbn [default] in H. change (Datatypes.id fileSize) with fileSize in H. destruct (fileSize >? MAX_FILE_SIZE); [discriminate|].
  unfold initializeUpload in H. rewrite Hlocal in H. cbv beta iota zeta in H.
  injection H as <- <-.
  exists fileSize,
    {| meta_filename := default "" (body_filename req); meta_fileSize := fileSize;
       meta_mimeType := default "" (body_mimeType req); meta_creatorId := user_id req |}.
  split; [reflexivity|]. split; [exact Hnum|]. repeat split.
Qed.

(** C10, as the code has it.  A request with [fileSize = 0] is answered 400
    [Missing required fields] and creates nothing.  A request with a positive
    [fileSize] that the route accepts on the local path creates a session
    with [totalChunks >= 1]; as long as that session is in the map (and no
    later [initializeUpload] takes its id) [totalChunks] keeps that value, so
    the division in [getUploadProgress] has a non-zero divisor and the
    progress is a finite number. *)
Theorem upload_init_guards_the_divisor (c : MediaHubClient) (w : InitWorld) (req : InitRequest) :
  (body_fileSize req = Some 0 -> upload_init c w req = (Failure 400 missing_fields, c))
  /\ (forall data c' fileSize ops s',
        upload_init c w req = (Success data, c') ->
        central_body c (init_remote w) = None ->
        body_fileSize req = Some fileSize -> 0 < fileSize ->
        not_reinitialised c' (data_uploadId data) ops ->
        uploadSessions (run c' ops) !! data_uploadId data = Some s' ->
        totalChunks s' = data_totalChunks data
        /\ 1 <= totalChunks s'
        /\ exists q,
             progress <$> fst (getUploadProgress (run c' ops) (data_uploadId data))
             = Some (Js.Finite q)).
Proof.
  split.
  - intros Hzero. unfold upload_init. rewrite Hzero. cbn [truthy_number Z.eqb negb].
    rewrite orb_true_r. reflexivity.
  - intros data c' fileSize ops s' Hok Hlocal Hsize Hpos Hno Hend.
    destruct (upload_init_success c w req data c' Hok Hlocal)
      as (fileSize' & metadata & Hsize' & _ & Hmeta & Hid & Htotal & Hmap).
    rewrite Hsize in Hsize'. injection Hsize' as <-.
    rewrite Hid in *.
    assert (Hin : uploadSessions c' !! init_uuid w = Some (local_session w metadata)).
    { rewrite Hmap. apply lookup_insert_eq. }
    destruct (run_session c' (init_uuid w) ops _ s' Hin Hno Hend) as [_ Hkeep].
    assert (Hone : 1 <= totalChunks s').
    { rewrite Hkeep. cbn [totalChunks local_session]. rewrite Hmeta.
      apply Partition.ceil_div_positive; [exact Hpos|reflexivity]. }
    split; [congruence|]. split; [exact Hone|].
    unfold getUploadProgress. rewrite Hend. cbn [fst fmap option_fmap option_map progress].
    unfold Js.div. destruct (totalChunks s' =? 0) eqn:E; [apply Z.eqb_eq in E; lia|].
    eexists. reflexivity.
Qed.

Lemma upload_init_guards_the_divisor_witness :
  upload_init standalone (sample_init "u-1") (sample_request 0)
  = (Failure 400 missing_fields, standalone)
  /\ (totalChunks (bump (bump sample_created)) = data_totalChunks sample_data
      /\ 1 <= totalChunks (bump (bump sample_created))
      /\ exists q,
           progress <$> fst (getUploadProgress
                               (run (snd (initializeUpload standalone (sample_init "u-1")
                                            (sample_metadata (12 * 1024 * 1024))))
                                    sample_ops)
                               (data_uploadId sample_data))
           = Some (Js.Finite q)).
Proof.
  split.
  - apply (proj1 (upload_init_guards_the_divisor standalone (sample_init "u-1")
                    (sample_request 0))).
    reflexivity.
  - apply (proj2 (upload_init_guards_the_divisor standalone (sample_init "u-1")
                    (sample_request (12 * 1024 * 1024)))
             sample_data _ (12 * 1024 * 1024) sample_ops).
    + vm_compute. reflexivity.
    + reflexivity.
    + reflexivity.
    + reflexivity.
    + repeat constructor. vm_compute. discriminate.
    + vm_compute. reflexivity.
Defined.

(** C10 fails as stated: the route accepts [fileSize = -1] and registers a
    session with [totalChunks = 0], whose progress is [0 / 0]. *)
Lemma negative_fileSize_gives_zero_totalChunks :
  exists data c',
    upload_init standalone (sample_init "u-1") (sample_request (-1)) = (Success data, c')
    /\ data_totalChunks data = 0
    /\ (exists s, uploadSessions c' !! "u-1" = Some s /\ totalChunks s = 0)
    /\ progress <$> fst (getUploadProgress c' "u-1") = Some Js.NaN.
Proof.
  eexists _, _. split; [vm_compute; reflexivity|]. split; [reflexivity|].
  split; [|vm_compute; reflexivity].
  eexists. split; [vm_compute; reflexivity|]. reflexivity.
Qed.

End Route.

(* ===================================================================== *)
(** ** The orchestrator: retries and the pool *)
(* ===================================================================== *)

Module Orchestrator.
Import Props.
Import ChunkedUpload.
Local Open Scope Z_scope.

(** *** One chunk *)

Lemma uploadChunk_total attempt i : exists r, uploadChunk attempt i = Some r.
Proof.
  unfold uploadChunk. cbn [uploadChunk_loop MAX_RETRIES Nat.ltb Nat.leb].
  destruct (attempt 0%nat); eauto; cbn [Nat.leb];
    destruct (attempt 1%nat); eauto; cbn [Nat.leb];
      destruct (attempt 2%nat); eauto.
Qed.

(** Three non-2xx responses: the loop ends and [uploadChunk] returns [false]. *)
Lemma uploadChunk_not_ok attempt i :
  (forall k, (k < MAX_RETRIES)%nat -> attempt k = ResponseNotOk) ->
  uploadChunk attempt i = Some (Resolved false, [PostChunk i; PostChunk i; PostChunk i]).
Proof.
  intros H. unfold uploadChunk. cbn [uploadChunk_loop MAX_RETRIES Nat.ltb Nat.leb].
  rewrite !H by (unfold MAX_RETRIES; lia). reflexivity.
Qed.

(** Three transport errors: [uploadChunk] throws. *)
Lemma uploadChunk_network_errors attempt i :
  (forall k, (k < MAX_RETRIES)%nat -> attempt k = NetworkError) ->
  exists message,
    uploadChunk attempt i
    = Some (Rejected (Failure message), [PostChunk i; PostChunk i; PostChunk i]).
Proof.
  intros H. unfold uploadChunk. cbn [uploadChunk_loop MAX_RETRIES Nat.ltb Nat.leb].
  rewrite !H by (unfold MAX_RETRIES; lia). cbn [Nat.leb]. eexists. reflexivity.
Qed.

Lemma uploadChunk_loop_requests fuel retries attempt i sent r sent' :
  uploadChunk_loop fuel retries attempt i sent = Some (r, sent') ->
  Forall (fun q => q <> PostComplete) sent ->
  Forall (fun q => q <> PostComplete) sent'.
Proof.
  revert retries sent. induction fuel as [|fuel IH]; intros retries sent H Hs; [discriminate|].
  cbn [uploadChunk_loop] in H.
  assert (Hs' : Forall (fun q => q <> PostComplete) (sent ++ [PostChunk i])).
  { apply Forall_app. split; [exact Hs|]. repeat constructor. discriminate. }
  destruct (retries <? MAX_RETRIES)%nat.
  - destruct (attempt retries).
    + injection H as <- <-. exact Hs'.
    + eapply IH; eassumption.
    + destruct (MAX_RETRIES <=? S retries)%nat.
      * injection H as <- <-. exact Hs'.
      * eapply IH; eassumption.
    + injection H as <- <-. exact Hs'.
  - injection H as <- <-. exact Hs.
Qed.

(** *** The pool *)

Lemma nil_or_not {A} (l : list A) : l = [] \/ l <> [].
Proof. destruct l; [left; reflexivity|right; discriminate]. Qed.

Lemma fill_moves maxParallel queue active :
  exists moved,
    queue = moved ++ fst (fill maxParallel queue active)
    /\ snd (fill maxParallel queue active) = active ++ moved.
Proof.
  revert active. induction queue as [|chunk rest IH]; intros active; cbn [fill].
  - exists []. cbn [fst snd]. split; [reflexivity|symmetry; apply app_nil_r].
  - destruct (Z.of_nat (length active) <? maxParallel).
    + destruct (IH (active ++ [chunk])) as (moved & H1 & H2).
      exists (chunk :: moved). split.
      * cbn [app]. f_equal. exact H1.
      * rewrite H2, <- app_assoc. reflexivity.
    + exists []. cbn [fst snd]. split; [reflexivity|symmetry; apply app_nil_r].
Qed.

Lemma fill_elements maxParallel queue active x :
  In x (queue ++ active)
  <-> In x (fst (fill maxParallel queue active) ++ snd (fill maxParallel queue active)).
Proof.
  destruct (fill_moves maxParallel queue active) as (moved & H1 & H2).
  rewrite H2. rewrite !in_app_iff.
  assert (Hq : In x queue <-> In x moved \/ In x (fst (fill maxParallel queue active))).
  { rewrite H1 at 1. apply in_app_iff. }
  tauto.
Qed.

Lemma fill_length maxParallel queue active :
  (length (fst (fill maxParallel queue active)) + length (snd (fill maxParallel queue active))
   = length queue + length active)%nat.
Proof.
  destruct (fill_moves maxParallel queue active) as (moved & H1 & H2).
  apply (f_equal (@length _)) in H1, H2. rewrite length_app in H1, H2. lia.
Qed.

(** With a slot to give, something is in flight after the inner loop. *)
Lemma fill_starts maxParallel queue active :
  1 <= maxParallel -> queue ++ active <> [] ->
  snd (fill maxParallel queue active) <> [].
Proof.
  intros Hmax Hne. destruct queue as [|chunk rest]; cbn [fill snd].
  - exact Hne.
  - destruct active as [|a active].
    + cbn [length]. destruct (Z.of_nat 0 <? maxParallel) eqn:E; [|apply Z.ltb_ge in E; lia].
      destruct (fill_moves maxParallel rest ([] ++ [chunk])) as (moved & _ & ->).
      discriminate.
    + destruct (Z.of_nat (length (a :: active)) <? maxParallel).
      * destruct (fill_moves maxParallel rest ((a :: active) ++ [chunk])) as (moved & _ & ->).
        discriminate.
      * discriminate.
Qed.

Lemma drop_nth_length {A} k (l : list A) :
  (k < length l)%nat -> S (length (drop_nth k l)) = length l.
Proof.
  revert k. induction l as [|x l IH]; intros k Hk; [cbn in Hk; lia|].
  destruct k as [|k]; cbn in *; [reflexivity|]. rewrite IH by lia. reflexivity.
Qed.

Lemma drop_nth_keeps {A} k (l : list A) (d x : A) :
  In x l -> nth k l d <> x -> In x (drop_nth k l).
Proof.
  revert k. induction l as [|y l IH]; intros k Hin Hne; [contradiction|].
  destruct k as [|k]; cbn in *.
  - destruct Hin as [->|Hin]; [contradiction|exact Hin].
  - destruct Hin as [->|Hin]; [left; reflexivity|right; apply IH; assumption].
Qed.

Lemma drop_nth_subset {A} k (l : list A) x : In x (drop_nth k l) -> In x l.
Proof.
  revert k. induction l as [|y l IH]; intros k H; [destruct k; exact H|].
  destruct k as [|k]; cbn in *; [right; exact H|].
  destruct H as [->|H]; [left; reflexivity|right; eapply IH; exact H].
Qed.

Section Pool.

Variable maxParallel : Z.
Variable attempt : Z -> nat -> Attempt.

(** One turn of the outer loop. *)
Lemma pool_step fuel queue active order completed sent :
  queue ++ active <> [] ->
  pool (S fuel) maxParallel attempt queue active order completed sent
  = let queue' := fst (fill maxParallel queue active) in
    let active' := snd (fill maxParallel queue active) in
    match active' with
    | [] => pool fuel maxParallel attempt queue' active' order completed sent
    | first :: _ =>
        let k := (hd 0%nat order mod length active')%nat in
        let chunk := nth k active' first in
        match uploadChunk (attempt (index chunk)) (index chunk) with
        | None => None
        | Some (Resolved _, reqs) =>
            pool fuel maxParallel attempt queue' (drop_nth k active') (tl order)
              (completed + 1) (sent ++ reqs)
        | Some (Rejected e, reqs) => Some (Rejected e, sent ++ reqs)
        end
    end.
Proof.
  intros Hne. cbn [pool].
  destruct queue as [|c0 queue], active as [|a0 active]; try contradiction;
    destruct (fill maxParallel _ _) as [queue' active']; reflexivity.
Qed.

Lemma pool_done fuel order completed sent :
  pool (S fuel) maxParallel attempt [] [] order completed sent
  = Some (Resolved completed, sent).
Proof. reflexivity. Qed.

(** The loop ends: every turn settles one upload. *)
Lemma pool_total fuel queue active order completed sent (slot : 1 <= maxParallel) :
  (length queue + length active < fuel)%nat ->
  exists r, pool fuel maxParallel attempt queue active order completed sent = Some r.
Proof.
  revert queue active order completed sent.
  induction fuel as [|fuel IH]; intros queue active order completed sent Hfuel; [lia|].
  destruct (nil_or_not (queue ++ active)) as [Hnil|Hne].
  - apply app_eq_nil in Hnil as [-> ->]. rewrite pool_done. eauto.
  - rewrite pool_step by exact Hne. cbv zeta.
    pose proof (fill_length maxParallel queue active) as Hlen.
    pose proof (fill_starts maxParallel queue active slot Hne) as Hstart.
    destruct (snd (fill maxParallel queue active)) as [|first rest] eqn:Hactive;
      [contradiction|].
    set (k := (hd 0%nat order mod length (first :: rest))%nat).
    assert (Hk : (k < length (first :: rest))%nat).
    { apply Nat.mod_upper_bound. discriminate. }
    destruct (uploadChunk_total (attempt (index (nth k (first :: rest) first)))
                (index (nth k (first :: rest) first))) as [[[v|e] reqs] ->]; [|eauto].
    apply IH. pose proof (drop_nth_length k (first :: rest) Hk). lia.
Qed.

(** An upload that throws ends the loop with that exception, whatever
    settles before it. *)
Lemma pool_rejects fuel queue active order completed sent bad r sent' :
  In bad (queue ++ active) ->
  (forall v reqs, uploadChunk (attempt (index bad)) (index bad) <> Some (Resolved v, reqs)) ->
  pool fuel maxParallel attempt queue active order completed sent = Some (r, sent') ->
  exists e, r = Rejected e.
Proof.
  intros Hbad Hthrows. revert queue active order completed sent Hbad.
  induction fuel as [|fuel IH]; intros queue active order completed sent Hbad H;
    [discriminate|].
  assert (Hne : queue ++ active <> []) by (intros E; rewrite E in Hbad; contradiction).
  rewrite pool_step in H by exact Hne. cbv zeta in H.
  apply (fill_elements maxParallel) in Hbad.
  destruct (snd (fill maxParallel queue active)) as [|first rest] eqn:Hactive.
  - eapply IH; eassumption.
  - set (k := (hd 0%nat order mod length (first :: rest))%nat) in *.
    set (chunk := nth k (first :: rest) first) in *.
    destruct (uploadChunk (attempt (index chunk)) (index chunk)) as [[[v|e] reqs]|] eqn:Hup;
      [|injection H as <- _; eauto|discriminate].
    eapply IH; [|exact H].
    apply in_app_iff in Hbad. apply in_app_iff. destruct Hbad as [Hq|Ha]; [left; exact Hq|].
    right. apply (drop_nth_keeps k _ first); [exact Ha|].
    fold chunk. intros ->. exact (Hthrows _ _ Hup).
Qed.

(** When no upload throws the loop ends normally. *)
Lemma pool_resolves fuel queue active order completed sent r sent' :
  (forall chunk, In chunk (queue ++ active) ->
     forall e reqs, uploadChunk (attempt (index chunk)) (index chunk) <> Some (Rejected e, reqs)) ->
  pool fuel maxParallel attempt queue active order completed sent = Some (r, sent') ->
  exists n, r = Resolved n.
Proof.
  revert queue active order completed sent.
  induction fuel as [|fuel IH]; intros queue active order completed sent Hall H;
    [discriminate|].
  destruct (nil_or_not (queue ++ active)) as [Hnil|Hne].
  - apply app_eq_nil in Hnil as [-> ->]. rewrite pool_done in H. injection H as <- _. eauto.
  - rewrite pool_step in H by exact Hne. cbv zeta in H.
    assert (Hall' : forall chunk,
               In chunk (fst (fill maxParallel queue active)
                         ++ snd (fill maxParallel queue active)) ->
               forall e reqs,
                 uploadChunk (attempt (index chunk)) (index chunk) <> Some (Rejected e, reqs)).
    { intros chunk Hin. apply Hall. apply (fill_elements maxParallel). exact Hin. }
    destruct (snd (fill maxParallel queue active)) as [|first rest] eqn:Hactive.
    + eapply IH; eassumption.
    + set (k := (hd 0%nat order mod length (first :: rest))%nat) in *.
      assert (Hk : (k < length (first :: rest))%nat).
      { apply Nat.mod_upper_bound. discriminate. }
      set (chunk := nth k (first :: rest) first) in *.
      assert (Hchunk : In chunk (first :: rest)) by (apply nth_In; exact Hk).
      destruct (uploadChunk (attempt (index chunk)) (index chunk)) as [[[v|e] reqs]|] eqn:Hup;
        [| |discriminate].
      * eapply IH; [|exact H]. intros c Hc. apply Hall'.
        apply in_app_iff in Hc. apply in_app_iff.
        destruct Hc as [Hc|Hc]; [left; exact Hc|right; eapply drop_nth_subset; exact Hc].
      * exfalso. eapply (Hall' chunk); [|exact Hup]. apply in_app_iff. right. exact Hchunk.
Qed.

(** The loop sends chunks only. *)
Lemma pool_requests fuel queue active order completed sent r sent' :
  pool fuel maxParallel attempt queue active order completed sent = Some (r, sent') ->
  Forall (fun q => q <> PostComplete) sent ->
  Forall (fun q => q <> PostComplete) sent'.
Proof.
  revert queue active order completed sent.
  induction fuel as [|fuel IH]; intros queue active order completed sent H Hs; [discriminate|].
  destruct (nil_or_not (queue ++ active)) as [Hnil|Hne].
  - apply app_eq_nil in Hnil as [-> ->]. rewrite pool_done in H. injection H as _ <-. exact Hs.
  - rewrite pool_step in H by exact Hne. cbv zeta in H.
    destruct (snd (fill maxParallel queue active)) as [|first rest].
    + eapply IH; eassumption.
    + set (k := (hd 0%nat order mod length (first :: rest))%nat) in *.
      set (chunk := nth k (first :: rest) first) in *.
      destruct (uploadChunk (attempt (index chunk)) (index chunk)) as [[[v|e] reqs]|] eqn:Hup;
        [| |discriminate].
      * eapply IH; [exact H|]. apply Forall_app. split; [exact Hs|].
        eapply uploadChunk_loop_requests; [exact Hup|constructor].
      * injection H as _ <-. apply Forall_app. split; [exact Hs|].
        eapply uploadChunk_loop_requests; [exact Hup|constructor].
Qed.

End Pool.

(** *** uploadFile *)

Lemma uploadChunk_responses attempt i :
  (forall k, attempt k = ResponseOk \/ attempt k = ResponseNotOk) ->
  forall e reqs, uploadChunk attempt i <> Some (Rejected e, reqs).
Proof.
  intros H e reqs. unfold uploadChunk. cbn [uploadChunk_loop MAX_RETRIES Nat.ltb Nat.leb].
  destruct (H 0%nat) as [-> | ->]; [discriminate|].
  destruct (H 1%nat) as [-> | ->]; [discriminate|].
  destruct (H 2%nat) as [-> | ->]; discriminate.
Qed.

Lemma caught_returns_null e sent :
  returned (caught e sent) = None
  /\ is_Some (error (caught e sent))
  /\ requests (caught e sent) = sent.
Proof. destruct e; cbn; eauto. Qed.

(** The path that works: a chunk whose three attempts all end in a
    transport error makes [uploadFile] return [null] with an error message,
    and no completion request is sent, whatever the other chunks do and in
    whatever order the uploads settle. *)
Lemma network_errors_fail_the_upload configRef w file session i :
  init_response w = ReplyOk session ->
  0 <= i < totalChunks session ->
  1 <= maxParallelChunks (fetchConfig configRef (config_response w)) ->
  (forall k, (k < MAX_RETRIES)%nat -> chunk_attempt w i k = NetworkError) ->
  exists run,
    uploadFile configRef w file = Some run
    /\ returned run = None
    /\ is_Some (error run)
    /\ ~ In PostComplete (requests run).
Proof.
  intros Hinit Hi Hmax Herr. unfold uploadFile. rewrite Hinit.
  set (config := fetchConfig configRef (config_response w)) in *.
  set (chunks := make_chunks (totalChunks session) (chunkSize config) (size file)).
  destruct (pool_total (maxParallelChunks config) (chunk_attempt w) (S (length chunks))
              chunks [] (settle_order w) 0 [GetConfig; PostInit] Hmax)
    as [[r sent] Hpool]; [cbn; lia|].
  rewrite Hpool.
  assert (Hsent : Forall (fun q => q <> PostComplete) sent).
  { eapply pool_requests; [exact Hpool|]. repeat constructor; discriminate. }
  assert (Hrej : exists e, r = Rejected e).
  { eapply pool_rejects with (bad := chunk_at (chunkSize config) (size file) i);
      [| |exact Hpool].
    - rewrite app_nil_r. apply list_elem_of_In. eapply list_elem_of_lookup_2.
      apply Partition.make_chunks_lookup. exact Hi.
    - intros v reqs. cbn [index chunk_at].
      destruct (uploadChunk_network_errors (chunk_attempt w i) i Herr) as [message ->].
      discriminate. }
  destruct Hrej as [e ->].
  destruct (caught_returns_null e sent) as (H1 & H2 & H3).
  eexists. split; [reflexivity|]. split; [exact H1|]. split; [exact H2|].
  rewrite H3. intros Hin. rewrite Forall_forall in Hsent.
  apply list_elem_of_In in Hin. exact (Hsent _ Hin eq_refl).
Qed.

(** The path that does not: [processChunk] awaits [uploadChunk] and drops
    the boolean it returns.  When every attempt is answered by an HTTP
    response, 2xx or not, no upload throws, every chunk is counted as
    completed, the completion request is sent and its result returned. *)
Lemma server_rejections_pass_for_success configRef w file session result :
  init_response w = ReplyOk session ->
  complete_response w = ReplyOk result ->
  1 <= maxParallelChunks (fetchConfig configRef (config_response w)) ->
  (forall i k, chunk_attempt w i k = ResponseOk \/ chunk_attempt w i k = ResponseNotOk) ->
  exists run,
    uploadFile configRef w file = Some run
    /\ returned run = Some result
    /\ error run = None
    /\ In PostComplete (requests run).
Proof.
  intros Hinit Hcomplete Hmax Hresp. unfold uploadFile. rewrite Hinit.
  set (config := fetchConfig configRef (config_response w)) in *.
  set (chunks := make_chunks (totalChunks session) (chunkSize config) (size file)).
  destruct (pool_total (maxParallelChunks config) (chunk_attempt w) (S (length chunks))
              chunks [] (settle_order w) 0 [GetConfig; PostInit] Hmax)
    as [[r sent] Hpool]; [cbn; lia|].
  rewrite Hpool.
  assert (Hres : exists n, r = Resolved n).
  { eapply pool_resolves; [|exact Hpool].
    intros chunk _. apply uploadChunk_responses. apply Hresp. }
  destruct Hres as [n ->].
  rewrite Hcomplete. eexists. split; [reflexivity|]. cbn.
  split; [reflexivity|]. split; [reflexivity|]. apply in_app_iff. right. left. reflexivity.
Qed.

(** C3 does not hold of the code.  A one-chunk upload whose chunk the
    server answers with a non-2xx response at each of the three attempts:
    [uploadChunk] returns [false], [processChunk] ignores it, and
    [uploadFile] sends the completion request and returns its result, with
    no error, in whatever order uploads settle.  (Three transport errors
    instead make it return [null]: [network_errors_fail_the_upload].) *)
Theorem rejected_chunk_upload_reports_success (order : list nat) :
  uploadFile initial_config (one_chunk_world (fun _ => ResponseNotOk) order) one_byte_file
  = Some {| returned := Some sample_result;
            error := None;
            requests := [GetConfig; PostInit; PostChunk 0; PostChunk 0; PostChunk 0;
                         PostComplete] |}.
Proof. reflexivity. Qed.

Lemma thrown_chunk_upload_reports_failure (order : list nat) :
  uploadFile initial_config (one_chunk_world (fun _ => NetworkError) order) one_byte_file
  = Some {| returned := None;
            error := Some "Chunk 0 failed after 3 retries";
            requests := [GetConfig; PostInit; PostChunk 0; PostChunk 0; PostChunk 0] |}.
Proof. reflexivity. Qed.

(** Only the kind of the last failure decides: two transport errors and
    then a non-2xx response still end in a reported success. *)
Lemma last_failure_decides (order : list nat) :
  returned (default (caught AbortError [])
              (uploadFile initial_config
                 (one_chunk_world
                    (fun k => match k with 2%nat => ResponseNotOk | _ => NetworkError end) order)
                 one_byte_file))
  = Some sample_result.
Proof. reflexivity. Qed.

End Orchestrator.

(* ===================================================================== *)
(** ** The session store: what it keeps *)
(* ===================================================================== *)

Module StoreMore.
Import MediaHub Props StoreFacts MoreProps Lifecycle.
Local Open Scope Z_scope.

Lemma with_completedChunks_same s : with_completedChunks s (completedChunks s) = s.
Proof. destruct s. reflexivity. Qed.

Lemma with_completedChunks_counted c r s n :
  with_completedChunks (counted c r s) (completedChunks (counted c r s) + n)
  = with_completedChunks s (completedChunks s + (increment c r + n)).
Proof.
  unfold counted, increment, with_completedChunks.
  destruct (central_body c r) as [[|result_etag]|];
    cbn [bump uploadId platformId creatorId filename fileSize mimeType totalChunks
         completedChunks s3Key status forensicSignature createdAt expiresAt];
    f_equal; lia.
Qed.

(** X1.  Only [completeUpload] takes an id out of the map: along any
    sequence of [initializeUpload], [uploadChunk] and [completeUpload] calls
    none of which completes [u], an id that is in the map stays in the map.
    If moreover no [initializeUpload] of the sequence registers [u] again
    (which would replace the session by a new one), the session under [u] is
    the one that was there, unchanged but for its counter, which has grown
    by what the accepted chunks added.  Nothing evicts or expires an upload
    that is never completed. *)
Theorem uncompleted_session_stays
    (c : MediaHubClient) (u : string) (ops : list StoreOp) (s : UploadSession) :
  uploadSessions c !! u = Some s ->
  not_completed u ops ->
  is_Some (uploadSessions (run c ops) !! u)
  /\ (not_reinitialised c u ops ->
      uploadSessions (run c ops) !! u
      = Some (with_completedChunks s (completedChunks s + added c u ops))).
Proof.
  intros Hin Hno. split.
  - assert (Hsome : is_Some (uploadSessions c !! u)) by eauto. clear Hin.
    revert c Hsome. induction ops as [|op ops IH]; intros c Hin; [exact Hin|].
    inversion Hno as [|? ? Hop Hrest]; subst.
    change (run c (op :: ops)) with (run (step c op) ops). apply IH; [exact Hrest|].
    destruct op as [w m | r u' i d | w u'].
    + simpl. rewrite initializeUpload_sessions.
      destruct (decide (init_key c w = u)) as [->|Hne].
      * rewrite lookup_insert_eq. eauto.
      * rewrite lookup_insert_ne by exact Hne. exact Hin.
    + destruct (decide (u' = u)) as [->|Hne].
      * rewrite step_chunk_lookup. destruct Hin as [s0 ->]. eauto.
      * rewrite step_lookup_other by exact Hne. exact Hin.
    + rewrite step_lookup_other by exact Hop. exact Hin.
  - revert c s Hin. induction ops as [|op ops IH]; intros c s Hin Hkept.
    + cbn [run fold_left added]. rewrite Z.add_0_r, with_completedChunks_same. exact Hin.
    + inversion Hno as [|? ? Hop Hrest]; subst.
      inversion Hkept as [|? ? Hop' Hrest']; subst.
      apply (not_reinitialised_step c op) in Hrest'.
      change (run c (op :: ops)) with (run (step c op) ops). cbn [added].
      destruct op as [w m | r u' i d | w u'].
      * rewrite (IH Hrest (step c (OpInit w m)) s); [reflexivity| |exact Hrest'].
        rewrite step_lookup_other by exact Hop'. exact Hin.
      * destruct (decide (u' = u)) as [->|Hne].
        -- rewrite (IH Hrest (step c (OpChunk r u i d)) (counted c r s)); [| |exact Hrest'].
           ++ rewrite String.eqb_refl, uploadChunk_success.
              rewrite bool_decide_eq_true_2 by eauto. cbn [andb].
              rewrite with_completedChunks_counted. reflexivity.
           ++ rewrite step_chunk_lookup, Hin. reflexivity.
        -- rewrite (IH Hrest (step c (OpChunk r u' i d)) s); [| |exact Hrest'].
           ++ apply String.eqb_neq in Hne. rewrite Hne. reflexivity.
           ++ rewrite step_lookup_other by exact Hne. exact Hin.
      * rewrite (IH Hrest (step c (OpComplete w u')) s); [reflexivity| |exact Hrest'].
        rewrite step_lookup_other by exact Hop. exact Hin.
Qed.

Lemma uncompleted_session_stays_witness :
  is_Some (uploadSessions (run sample_client sample_ops) !! "u-1")
  /\ (not_reinitialised sample_client "u-1" sample_ops ->
      uploadSessions (run sample_client sample_ops) !! "u-1"
      = Some (with_completedChunks sample_session
                (completedChunks sample_session + added sample_client "u-1" sample_ops))).
Proof.
  apply (uncompleted_session_stays sample_client "u-1" sample_ops sample_session).
  - vm_compute. reflexivity.
  - repeat constructor.
Defined.

(** X2.  [getStatus().pendingUploads] is the number of sessions in the map:
    an [initializeUpload] that registers a new id adds one, [uploadChunk]
    never changes it, [completeUpload] of a known id takes one away and of
    an unknown id changes nothing. *)
Theorem pendingUploads_accounting (c : MediaHubClient) :
  (forall w metadata,
     uploadSessions c !! init_key c w = None ->
     pendingUploads (getStatus (snd (initializeUpload c w metadata)))
     = pendingUploads (getStatus c) + 1)
  /\ (forall remote u (chunkIndex : Z) chunkData,
        pendingUploads (getStatus (snd (uploadChunk c remote u chunkIndex chunkData)))
        = pendingUploads (getStatus c))
  /\ (forall w u,
        is_Some (uploadSessions c !! u) ->
        pendingUploads (getStatus (snd (completeUpload c w u)))
        = pendingUploads (getStatus c) - 1)
  /\ (forall w u,
        uploadSessions c !! u = None ->
        pendingUploads (getStatus (snd (completeUpload c w u)))
        = pendingUploads (getStatus c)).
Proof.
  unfold getStatus. cbn [pendingUploads]. split; [|split; [|split]].
  - intros w metadata Hnew. rewrite initializeUpload_sessions.
    rewrite map_size_insert_None by exact Hnew. lia.
  - intros remote u i d. rewrite uploadChunk_sessions.
    destruct (uploadSessions c !! u) as [s|] eqn:E; [|reflexivity].
    rewrite map_size_insert_Some by eauto. reflexivity.
  - intros w u [s Hs]. rewrite completeUpload_sessions.
    assert (Hsize : size (uploadSessions c) = S (size (delete u (uploadSessions c)))).
    { rewrite <- (insert_delete_id (uploadSessions c) u s Hs) at 1.
      apply map_size_insert_None, lookup_delete_eq. }
    lia.
  - intros w u Habs. rewrite completeUpload_sessions.
    rewrite map_size_delete_None by exact Habs. reflexivity.
Qed.

Lemma pendingUploads_accounting_witness :
  pendingUploads (getStatus (snd (completeUpload sample_client sample_complete "u-1")))
  = pendingUploads (getStatus sample_client) - 1.
Proof.
  apply (proj1 (proj2 (proj2 (pendingUploads_accounting sample_client)))).
  vm_compute. eauto.
Defined.

Lemma isConnected_step c op : isConnected (step c op) = isConnected c.
Proof.
  destruct op as [w m | r u i d | w u]; simpl.
  - unfold initializeUpload. destruct (central_body c (init_remote w)); reflexivity.
  - apply uploadChunk_isConnected.
  - unfold completeUpload. destruct (uploadSessions c !! u); [|reflexivity].
    destruct (central_body c (complete_remote w)); reflexivity.
Qed.

Lemma length_append s1 s2 :
  String.length (s1 +:+ s2) = (String.length s1 + String.length s2)%nat.
Proof.
  induction s1 as [|a s1 IH]; [reflexivity|].
  change (String a s1 +:+ s2) with (String a (s1 +:+ s2)).
  cbn [String.length]. rewrite IH. reflexivity.
Qed.

Lemma length_signature_of creatorId text :
  String.length (signature_of creatorId text) = 21%nat.
Proof.
  unfold signature_of. cbv zeta. rewrite length_append.
  rewrite Signature.length_toUpperCase, Signature.length_prefix; [reflexivity|].
  rewrite Signature.length_sha256_hex. lia.
Qed.

Lemma local_session_shape w metadata : local_shape (init_uuid w) (local_session w metadata).
Proof.
  unfold local_shape. cbn [uploadId status platformId completedChunks totalChunks fileSize
                            s3Key filename forensicSignature local_session].
  repeat split; try reflexivity; try lia.
  eexists. split; [reflexivity|]. apply length_signature_of.
Qed.

Lemma bump_shape key s : local_shape key s -> local_shape key (bump s).
Proof.
  unfold local_shape. cbn [uploadId status platformId completedChunks totalChunks fileSize
                            s3Key filename forensicSignature bump].
  intros (H1 & H2 & H3 & H4 & H5 & H6 & H7). repeat split; try assumption. lia.
Qed.

(** X3.  On a client that is not connected, every session in the map has
    the shape [initializeUpload] gave it, whatever calls were made since: it
    is stored under its own [uploadId], its status is [in_progress] (the
    other statuses are never visible in the map), its platform is
    [cougarfanz], [completedChunks] is not negative, [totalChunks] is
    [Math.ceil (fileSize / CHUNK_SIZE)], its [s3Key] is
    [uploads/cougarfanz/<id>/<filename>] and its forensic signature has 21
    characters. *)
Theorem local_sessions_keep_their_shape (c : MediaHubClient) (ops : list StoreOp) :
  isConnected c = false ->
  map_Forall local_shape (uploadSessions c) ->
  map_Forall local_shape (uploadSessions (run c ops)).
Proof.
  revert c. induction ops as [|op ops IH]; intros c Hoff Hshape; [exact Hshape|].
  change (run c (op :: ops)) with (run (step c op) ops).
  apply IH; [rewrite isConnected_step; exact Hoff|].
  destruct op as [w m | r u i d | w u]; simpl.
  - unfold initializeUpload. rewrite (central_body_disconnected c _ Hoff). simpl.
    apply map_Forall_insert_2; [apply local_session_shape|exact Hshape].
  - rewrite uploadChunk_sessions. destruct (uploadSessions c !! u) as [s|] eqn:E;
      [|exact Hshape].
    apply map_Forall_insert_2; [|exact Hshape].
    rewrite counted_local by (apply central_body_disconnected; exact Hoff).
    apply bump_shape. exact (Hshape u s E).
  - rewrite completeUpload_sessions. apply map_Forall_delete. exact Hshape.
Qed.

Lemma local_sessions_keep_their_shape_witness :
  map_Forall local_shape
    (uploadSessions
       (run standalone
          [ OpInit (sample_init "u-1") (sample_metadata 1);
            OpChunk FetchError "u-1" 0 ["a"%byte] ])).
Proof.
  apply (local_sessions_keep_their_shape standalone).
  - reflexivity.
  - apply map_Forall_empty.
Defined.

Lemma upload_chunks_lookup c u chunks s :
  uploadSessions c !! u = Some s ->
  exists s',
    uploadSessions (upload_chunks c u chunks) !! u = Some s'
    /\ completedChunks s' = completedChunks s + Z.of_nat (length chunks)
    /\ totalChunks s' = totalChunks s
    /\ status s' = status s.
Proof.
  revert c s. induction chunks as [|[i d] chunks IH]; intros c s Hs.
  - exists s. cbn. repeat split; [exact Hs|lia].
  - destruct (uploadChunk_local c FetchError u i d s Hs (central_body_error c)) as [_ Hnext].
    destruct (IH _ _ Hnext) as (s' & H1 & H2 & H3 & H4).
    exists s'. split; [exact H1|]. cbn [bump completedChunks totalChunks status] in *.
    cbn [length]. repeat split; [lia|assumption..].
Qed.

Lemma resumeUpload_same c u : snd (resumeUpload c u) = c.
Proof.
  unfold resumeUpload. destruct (uploadSessions c !! u) as [s|]; [|reflexivity].
  destruct (status s); reflexivity.
Qed.

(** X4.  [resumeUpload] only reads: it leaves the client as it was and
    returns [null] for an id that is not in the map.  After a local
    [initializeUpload] and any list of accepted chunks it returns the
    session with [nextChunk] equal to the number of chunks accepted so far,
    whatever their indices were: the cursor counts calls, it does not look
    at which chunks arrived. *)
Theorem resumeUpload_cursor_counts_chunks
    (c : MediaHubClient) (w : InitWorld) (metadata : UploadMetadata)
    (chunks : list (Z * list Byte.byte)) :
  (forall u, snd (resumeUpload c u) = c)
  /\ (forall u, uploadSessions c !! u = None -> fst (resumeUpload c u) = None)
  /\ (isConnected c = false ->
      let '(session, c1) := initializeUpload c w metadata in
      let c2 := upload_chunks c1 (uploadId session) chunks in
      exists session',
        resumeUpload c2 (uploadId session)
        = (Some (Z.of_nat (length chunks), session'), c2)
        /\ completedChunks session' = Z.of_nat (length chunks)
        /\ totalChunks session' = totalChunks session).
Proof.
  split; [apply resumeUpload_same|]. split.
  - intros u Habs. unfold resumeUpload. rewrite Habs. reflexivity.
  - intros Hoff. unfold initializeUpload. rewrite (central_body_disconnected c _ Hoff).
    change (uploadId (local_session w metadata)) with (init_uuid w).
    set (c1 := set_sessions c _).
    destruct (upload_chunks_lookup c1 (init_uuid w) chunks (local_session w metadata))
      as (s' & H1 & H2 & H3 & H4); [apply lookup_insert_eq|].
    exists s'. unfold resumeUpload. rewrite H1, H4.
    cbn [status completedChunks local_session] in *. rewrite H2.
    split; [|split; [lia|exact H3]].
    rewrite Z.add_0_l. reflexivity.
Qed.

Lemma resumeUpload_cursor_counts_chunks_witness :
  exists session',
    resumeUpload
      (upload_chunks (snd (initializeUpload standalone (sample_init "u-1")
                             (sample_metadata (12 * 1024 * 1024))))
         "u-1" [(2, ["a"%byte])])
      "u-1"
    = (Some (1, session'),
       upload_chunks (snd (initializeUpload standalone (sample_init "u-1")
                             (sample_metadata (12 * 1024 * 1024))))
         "u-1" [(2, ["a"%byte])])
    /\ completedChunks session' = 1
    /\ totalChunks session' = 3.
Proof.
  apply (proj2 (proj2 (resumeUpload_cursor_counts_chunks standalone (sample_init "u-1")
                         (sample_metadata (12 * 1024 * 1024)) [(2, ["a"%byte])]))).
  reflexivity.
Defined.

Lemma client_step_key c op : MEDIAHUB_API_KEY (client_step c op) = MEDIAHUB_API_KEY c.
Proof.
  destruct op as [[w m | r u i d | w u] | remote |]; simpl.
  - unfold initializeUpload. destruct (central_body c (init_remote w)); reflexivity.
  - unfold uploadChunk. destruct (uploadSessions c !! u); [|reflexivity].
    destruct (central_body c r) as [[|result_etag]|]; reflexivity.
  - unfold completeUpload. destruct (uploadSessions c !! u); [|reflexivity].
    destruct (central_body c (complete_remote w)); reflexivity.
  - unfold connect. destruct (String.eqb (MEDIAHUB_API_KEY c) ""); [reflexivity|].
    destruct remote; reflexivity.
  - reflexivity.
Qed.

(** X5.  The client is never connected without an API key: if that holds
    of a client (as it does of the exported one, which starts disconnected),
    it holds after any sequence of [connect], [disconnect] and store calls;
    the key never changes, and the test [isConnected && MEDIAHUB_API_KEY]
    that guards every call to the central service is then just
    [isConnected].  [connect] answers [true] only when the key is set and
    the registration got a 2xx response. *)
Theorem connected_only_with_key (c : MediaHubClient) (ops : list ClientOp) :
  (isConnected c = true -> MEDIAHUB_API_KEY c <> "") ->
  (isConnected (client_run c ops) = true -> MEDIAHUB_API_KEY (client_run c ops) <> "")
  /\ MEDIAHUB_API_KEY (client_run c ops) = MEDIAHUB_API_KEY c
  /\ central (client_run c ops) = isConnected (client_run c ops)
  /\ (forall remote,
        fst (connect c remote) = true ->
        MEDIAHUB_API_KEY c <> "" /\ exists body, remote = FetchOk body).
Proof.
  intros Hinv.
  assert (Hrun : (isConnected (client_run c ops) = true
                  -> MEDIAHUB_API_KEY (client_run c ops) <> "")
                 /\ MEDIAHUB_API_KEY (client_run c ops) = MEDIAHUB_API_KEY c).
  { revert c Hinv. induction ops as [|op ops IH]; intros c Hinv; [split; [exact Hinv|reflexivity]|].
    change (client_run c (op :: ops)) with (client_run (client_step c op) ops).
    destruct (IH (client_step c op)) as [IH1 IH2].
    - rewrite client_step_key. destruct op as [op | remote |]; simpl.
      + rewrite isConnected_step. exact Hinv.
      + unfold connect. destruct (String.eqb_spec (MEDIAHUB_API_KEY c) "") as [E|E].
        * exact Hinv.
        * intros _. exact E.
      + discriminate.
    - split; [exact IH1|]. rewrite IH2. apply client_step_key. }
  destruct Hrun as [H1 H2]. split; [exact H1|]. split; [exact H2|]. split.
  - unfold central. destruct (isConnected (client_run c ops)) eqn:E; [|reflexivity].
    apply String.eqb_neq in H1; [|reflexivity]. rewrite H1. reflexivity.
  - intros remote. unfold connect.
    destruct (String.eqb_spec (MEDIAHUB_API_KEY c) "") as [E|E]; [discriminate|].
    destruct remote; try discriminate. intros _. split; [exact E|eauto].
Qed.

Lemma connected_only_with_key_witness :
  central (client_run standalone
             [Connect (FetchOk tt); Store (OpInit (sample_init "u-1") (sample_metadata 1))])
  = isConnected (client_run standalone
                   [Connect (FetchOk tt);
                    Store (OpInit (sample_init "u-1") (sample_metadata 1))]).
Proof.
  apply (connected_only_with_key standalone
           [Connect (FetchOk tt); Store (OpInit (sample_init "u-1") (sample_metadata 1))]).
  discriminate.
Defined.

End StoreMore.

(* ===================================================================== *)
(** ** Reading the chunk index *)
(* ===================================================================== *)

Module JsFacts.
Import Props MoreProps JsMore.
Local Open Scope Z_scope.

Lemma digit_in c :
  is_digit c = true -> In c ["0"; "1"; "2"; "3"; "4"; "5"; "6"; "7"; "8"; "9"]%char.
Proof.
  destruct c as [[] [] [] [] [] [] [] []]; intros H; try discriminate H; cbn; tauto.
Qed.

Lemma white_head_digit c r : is_digit c = true -> white_head (String c r) = None.
Proof.
  intros H. apply digit_in in H. cbn in H.
  repeat (destruct H as [<- | H]; [destruct r as [|c2 [|c3 r3]]; reflexivity|]).
  contradiction.
Qed.

Lemma white_head_minus r : white_head (String "-" r) = None.
Proof. destruct r as [|c2 [|c3 r3]]; reflexivity. Qed.

Lemma split_sign_digit c r : is_digit c = true -> split_sign (String c r) = (false, String c r).
Proof.
  intros H. apply digit_in in H. cbn in H.
  repeat (destruct H as [<- | H]; [reflexivity|]). contradiction.
Qed.

Lemma digit_prefix_app ds rest :
  all_chars is_digit ds = true -> starts_with_digit rest = false ->
  digit_prefix (ds +:+ rest) = ds.
Proof.
  intros Hds Hrest. induction ds as [|c ds IH].
  - destruct rest as [|c r]; [reflexivity|]. cbn [starts_with_digit] in Hrest.
    change (EmptyString +:+ String c r) with (String c r).
    cbn [digit_prefix]. rewrite Hrest. reflexivity.
  - cbn [all_chars] in Hds. apply andb_prop in Hds as [Hc Hds].
    change (String c ds +:+ rest) with (String c (ds +:+ rest)).
    cbn [digit_prefix]. rewrite Hc, IH by exact Hds. reflexivity.
Qed.

Lemma string_of_uint_digits d : all_chars is_digit (NilEmpty.string_of_uint d) = true.
Proof. induction d; cbn; try rewrite IHd; reflexivity. Qed.

Lemma string_of_uint_head d :
  d <> Decimal.Nil ->
  exists c r, NilEmpty.string_of_uint d = String c r /\ is_digit c = true.
Proof. destruct d; intros H; [contradiction|..]; cbn; eauto. Qed.

Lemma digits_value_of_uint d : digits_value (NilEmpty.string_of_uint d) = Z.of_uint d.
Proof. unfold digits_value. rewrite NilEmpty.usu. reflexivity. Qed.

(** A run of digits followed by something that is not a digit is read as
    the number the digits spell. *)
Lemma parseInt10_digits d rest :
  d <> Decimal.Nil -> starts_with_digit rest = false ->
  parseInt10 (Some (NilEmpty.string_of_uint d +:+ rest))
  = Some match nearest_double (Z.of_uint d) with
         | Some v => Whole v
         | None => Infinity false
         end.
Proof.
  intros Hd Hrest. unfold parseInt10.
  destruct (string_of_uint_head d Hd) as (c & r & E & Hc).
  assert (Hskip : skip_white (String.length (NilEmpty.string_of_uint d +:+ rest))
                    (NilEmpty.string_of_uint d +:+ rest)
                  = NilEmpty.string_of_uint d +:+ rest).
  { rewrite E. change (String c r +:+ rest) with (String c (r +:+ rest)).
    cbn [String.length skip_white]. rewrite white_head_digit by exact Hc. reflexivity. }
  rewrite Hskip. rewrite E at 1. change (String c r +:+ rest) with (String c (r +:+ rest)).
  rewrite split_sign_digit by exact Hc.
  change (String c (r +:+ rest)) with (String c r +:+ rest). rewrite <- E.
  rewrite digit_prefix_app by (exact Hrest || apply string_of_uint_digits).
  pose proof (digits_value_of_uint d) as Hval. rewrite E in Hval |- *.
  cbv beta iota. rewrite Hval. reflexivity.
Qed.

Lemma of_uint_to_uint p : Z.of_uint (Pos.to_uint p) = Z.pos p.
Proof. unfold Z.of_uint. rewrite DecimalPos.Unsigned.of_to. reflexivity. Qed.

Lemma to_uint_not_nil p : Pos.to_uint p <> Decimal.Nil.
Proof.
  intros E. pose proof (of_uint_to_uint p) as H. rewrite E in H. discriminate H.
Qed.

(** Up to 2^53 a natural number is its own nearest double. *)
Lemma nearest_double_exact a : 0 <= a <= 2 ^ 53 -> nearest_double a = Some a.
Proof.
  intros Ha. unfold nearest_double. destruct (Z.ltb_spec a (2 ^ 53)) as [_|Hge]; [reflexivity|].
  assert (E : a = 2 ^ 53) by lia. subst a. vm_compute. reflexivity.
Qed.

(** X6.  The decimal text of an integer that a double holds exactly (up to
    2^53 in size), followed by anything that does not begin with a digit, is
    read back by [parseInt (_, 10)] as that integer.  So the
    [X-Chunk-Index] the hook writes with [chunkIndex.toString()] is the
    index the route reads, and a header such as [3abc] is accepted as
    index 3. *)
Theorem parseInt10_reads_toString (n : Z) (rest : string) :
  Z.abs n <= 2 ^ 53 ->
  starts_with_digit rest = false ->
  parseInt10 (Some (Js.toString n +:+ rest)) = Some (Whole n).
Proof.
  intros Hn Hrest. unfold Js.toString. destruct n as [|p|p]; cbn [Z.to_int].
  - destruct rest as [|c r]; [reflexivity|]. cbn in Hrest.
    change (NilZero.string_of_int (Decimal.Pos (Decimal.D0 Decimal.Nil)) +:+ String c r)
      with (NilEmpty.string_of_uint (Decimal.D0 Decimal.Nil) +:+ String c r).
    rewrite parseInt10_digits; [reflexivity|discriminate|exact Hrest].
  - pose proof (to_uint_not_nil p) as Hnil.
    replace (NilZero.string_of_int (Decimal.Pos (Pos.to_uint p)))
      with (NilEmpty.string_of_uint (Pos.to_uint p))
      by (cbn; destruct (Pos.to_uint p); [contradiction|reflexivity..]).
    rewrite parseInt10_digits by assumption. rewrite of_uint_to_uint.
    rewrite nearest_double_exact by lia. reflexivity.
  - pose proof (to_uint_not_nil p) as Hnil.
    replace (NilZero.string_of_int (Decimal.Neg (Pos.to_uint p)))
      with (String "-" (NilEmpty.string_of_uint (Pos.to_uint p)))
      by (cbn; destruct (Pos.to_uint p); [contradiction|reflexivity..]).
    unfold parseInt10.
    change (String "-" (NilEmpty.string_of_uint (Pos.to_uint p)) +:+ rest)
      with (String "-" (NilEmpty.string_of_uint (Pos.to_uint p) +:+ rest)).
    cbn [String.length skip_white]. rewrite white_head_minus.
    cbn [split_sign Ascii.eqb Bool.eqb].
    destruct (string_of_uint_head (Pos.to_uint p) Hnil) as (c & r & E & Hc).
    rewrite digit_prefix_app by (exact Hrest || apply string_of_uint_digits).
    pose proof (digits_value_of_uint (Pos.to_uint p)) as Hval. rewrite E in Hval |- *.
    cbv beta iota. rewrite Hval, of_uint_to_uint.
    rewrite nearest_double_exact by lia. reflexivity.
Qed.

Lemma parseInt10_reads_toString_witness :
  parseInt10 (Some (Js.toString 3 +:+ "abc")) = Some (Whole 3).
Proof.
  apply (parseInt10_reads_toString 3 "abc").
  - vm_compute. discriminate.
  - reflexivity.
Defined.

End JsFacts.

(* ===================================================================== *)
(** ** The upload routes *)
(* ===================================================================== *)

Module RoutesMore.
Import MediaHub Props StoreFacts MoreProps Routes UploadRoutes.
Local Open Scope Z_scope.

(** X7.  The chunk route checks, in this order, that the header parses,
    that a file part is present and that the session is known; each failure
    is a 400 that leaves the client as it was.  It checks nothing else: for
    a known session every index that [parseInt] returns (negative, beyond
    [totalChunks], rounded to a double or infinite) and every buffer (also
    an empty one) is accepted, counted as [uploadChunk] counts it (once on
    the local path), and answered with that index and the new progress. *)
Theorem upload_chunk_checks_presence_only
    (c : MediaHubClient) (remote : Fetch ChunkBody) (req : ChunkRequest) :
  (JsMore.parseInt10 (x_chunk_index req) = None ->
   upload_chunk c remote req = (Failure 400 "Missing X-Chunk-Index header", c))
  /\ (forall chunkIndex,
        JsMore.parseInt10 (x_chunk_index req) = Some chunkIndex ->
        file_buffer req = None ->
        upload_chunk c remote req = (Failure 400 "No chunk data provided", c))
  /\ (forall chunkIndex buffer,
        JsMore.parseInt10 (x_chunk_index req) = Some chunkIndex ->
        file_buffer req = Some buffer ->
        uploadSessions c !! chunk_uploadId req = None ->
        upload_chunk c remote req = (Failure 400 "Session not found", c))
  /\ (forall chunkIndex buffer session,
        JsMore.parseInt10 (x_chunk_index req) = Some chunkIndex ->
        file_buffer req = Some buffer ->
        uploadSessions c !! chunk_uploadId req = Some session ->
        exists data c',
          upload_chunk c remote req = (Success data, c')
          /\ chunk_data_index data = chunkIndex
          /\ chunk_data_progress data
             = JsMore.or_zero
                 (Js.times (Js.div (completedChunks session + increment c remote)
                              (totalChunks session)) 100)
          /\ uploadSessions c'
             = <[chunk_uploadId req := counted c remote session]> (uploadSessions c)
          /\ (central_body c remote = None ->
              increment c remote = 1 /\ counted c remote session = bump session)).
Proof.
  unfold upload_chunk. split; [|split; [|split]].
  - intros ->. reflexivity.
  - intros i -> ->. reflexivity.
  - intros i buffer -> -> Habs. rewrite (uploadChunk_absent c remote _ i buffer Habs).
    reflexivity.
  - intros i buffer session -> -> Hin.
    pose proof (uploadChunk_present c remote _ i buffer session Hin) as [Hok Hnext].
    pose proof (uploadChunk_sessions c remote (chunk_uploadId req) i buffer) as Hmap.
    rewrite Hin in Hmap.
    assert (Hidx : MediaHub.chunkIndex (fst (uploadChunk c remote (chunk_uploadId req) i buffer))
                   = i).
    { unfold uploadChunk. rewrite Hin.
      destruct (central_body c remote) as [[|result_etag]|]; reflexivity. }
    destruct (counted_increment c remote session) as (Hcount & Htotal & _).
    destruct (uploadChunk c remote (chunk_uploadId req) i buffer) as [result c1].
    cbn [fst snd] in *. rewrite Hok. cbn [negb].
    unfold getUploadProgress. rewrite Hnext.
    eexists _, _. split; [reflexivity|].
    cbn [chunk_data_index chunk_data_progress MediaHub.progress].
    rewrite Hcount, Htotal.
    split; [exact Hidx|]. split; [reflexivity|]. split; [exact Hmap|].
    intros Hlocal. split; [apply increment_local|apply counted_local]; exact Hlocal.
Qed.

Lemma upload_chunk_checks_presence_only_witness :
  exists data c',
    upload_chunk sample_client FetchError (sample_chunk_request "-5") = (Success data, c')
    /\ chunk_data_index data = JsMore.Whole (-5)
    /\ chunk_data_progress data
       = JsMore.or_zero
           (Js.times (Js.div (completedChunks sample_session
                              + increment sample_client (@FetchError ChunkBody))
                        (totalChunks sample_session))
              100)
    /\ uploadSessions c'
       = <["u-1" := counted sample_client FetchError sample_session]>
           (uploadSessions sample_client)
    /\ (central_body sample_client (@FetchError ChunkBody) = None ->
        increment sample_client (@FetchError ChunkBody) = 1
        /\ counted sample_client FetchError sample_session = bump sample_session).
Proof.
  apply (proj2 (proj2 (proj2 (upload_chunk_checks_presence_only sample_client FetchError
                                (sample_chunk_request "-5"))))
           (JsMore.Whole (-5)) ["a"%byte] sample_session).
  - reflexivity.
  - reflexivity.
  - vm_compute. reflexivity.
Defined.

Lemma upload_chunk_snd c remote req i buffer :
  JsMore.parseInt10 (x_chunk_index req) = Some i ->
  file_buffer req = Some buffer ->
  snd (upload_chunk c remote req) = snd (uploadChunk c remote (chunk_uploadId req) i buffer).
Proof.
  intros Hi Hb. unfold upload_chunk. rewrite Hi, Hb.
  destruct (uploadChunk c remote (chunk_uploadId req) i buffer) as [result c1].
  destruct (negb (success result)); [reflexivity|].
  unfold getUploadProgress. destruct (uploadSessions c1 !! chunk_uploadId req); reflexivity.
Qed.

Lemma send_chunks_lookup c u reqs s :
  uploadSessions c !! u = Some s ->
  Forall (well_formed_for u) reqs ->
  exists s',
    uploadSessions (send_chunks c reqs) !! u = Some s'
    /\ completedChunks s' = completedChunks s + Z.of_nat (length reqs)
    /\ totalChunks s' = totalChunks s
    /\ status s' = status s
    /\ forensicSignature s' = forensicSignature s
    /\ isConnected (send_chunks c reqs) = isConnected c.
Proof.
  revert c s. induction reqs as [|req reqs IH]; intros c s Hs Hall.
  - exists s. cbn. repeat split; [exact Hs|lia].
  - inversion Hall as [|? ? (Hu & [i Hi] & [buffer Hb]) Hrest]; subst.
    cbn [send_chunks fold_left]. rewrite (upload_chunk_snd c FetchError req i buffer Hi Hb).
    destruct (uploadChunk_local c FetchError (chunk_uploadId req) i buffer s Hs
                (central_body_error c)) as [_ Hnext].
    destruct (IH _ _ Hnext Hrest) as (s' & H1 & H2 & H3 & H4 & H5 & H6).
    exists s'. split; [exact H1|].
    cbn [bump completedChunks totalChunks status forensicSignature] in *.
    rewrite uploadChunk_isConnected in H6. cbn [length].
    repeat split; [lia|assumption..].
Qed.

(** What an accepted init request leaves, on the local path. *)
Lemma upload_init_local c w req data c1 :
  upload_init c w req = (Success data, c1) ->
  central_body c (init_remote w) = None ->
  exists metadata,
    meta_fileSize metadata = default 0 (body_fileSize req)
    /\ data = {| data_uploadId := init_uuid w;
                 data_chunkSize := CHUNK_SIZE;
                 data_totalChunks := totalChunks (local_session w metadata);
                 data_forensicSignature := forensicSignature (local_session w metadata);
                 data_expiresAt := expiresAt (local_session w metadata) |}
    /\ c1 = set_sessions c (<[init_uuid w := local_session w metadata]> (uploadSessions c)).
Proof.
  unfold upload_init. intros H Hlocal.
  destruct (negb (truthy_string (body_filename req)) || negb (truthy_number (body_fileSize req))
            || negb (truthy_string (body_mimeType req))); [discriminate|].
  destruct (default 0 (body_fileSize req) >? MAX_FILE_SIZE); [discriminate|].
  unfold initializeUpload in H. rewrite Hlocal in H. cbv beta iota zeta in H.
  injection H as <- <-.
  exists {| meta_filename := default "" (body_filename req);
            meta_fileSize := default 0 (body_fileSize req);
            meta_mimeType := default "" (body_mimeType req);
            meta_creatorId := user_id req |}.
  repeat split.
Qed.

(** X8.  The routes end to end, on a client that is not connected.  After
    the init route accepts a file of positive size, and after any number of
    chunk requests for that upload that pass the checks of the chunk route
    (whatever their indices), the progress route reports
    [sent / totalChunks * 100] with status [in_progress] and the resume route
    reports [nextChunk = completedChunks = sent]; the complete route then
    answers with a [pending] asset carrying the signature of the init
    response, and from then on the progress and resume routes answer 404 and
    the complete route answers 500 [Upload session not found]. *)
Theorem routes_end_to_end
    (c : MediaHubClient) (w : InitWorld) (req : InitRequest) (fileSize : Z)
    (data : InitData) (c1 : MediaHubClient) (reqs : list ChunkRequest) (cw : CompleteWorld) :
  isConnected c = false ->
  upload_init c w req = (Success data, c1) ->
  body_fileSize req = Some fileSize -> 0 < fileSize ->
  Forall (well_formed_for (data_uploadId data)) reqs ->
  let u := data_uploadId data in
  let sent := Z.of_nat (length reqs) in
  let c2 := send_chunks c1 reqs in
  1 <= data_totalChunks data
  /\ upload_progress c2 u
     = (Success {| progress := Js.Finite (inject_Z sent / inject_Z (data_totalChunks data)
                                          * inject_Z 100);
                   progress_status := Status.in_progress |}, c2)
  /\ upload_resume c2 u
     = (Success {| resume_nextChunk := sent;
                   resume_totalChunks := data_totalChunks data;
                   resume_completedChunks := sent |}, c2)
  /\ exists answer c3,
       upload_complete c2 cw u = (Success answer, c3)
       /\ complete_processingStatus answer = Processing.pending
       /\ complete_forensicSignature answer = data_forensicSignature data
       /\ upload_progress c3 u = (Failure 404 "Upload session not found", c3)
       /\ upload_resume c3 u
          = (Failure 404 "Upload session not found or cannot be resumed", c3)
       /\ forall cw', upload_complete c3 cw' u = (Failure 500 "Upload session not found", c3).
Proof.
  intros Hoff Hinit Hsize Hpos Hall u sent c2.
  destruct (upload_init_local c w req data c1 Hinit (central_body_disconnected c _ Hoff))
    as (metadata & Hmeta & Hdata & Hc).
  rewrite Hsize in Hmeta. cbn [default] in Hmeta.
  assert (Htotal : data_totalChunks data = totalChunks (local_session w metadata))
    by (rewrite Hdata; reflexivity).
  assert (Hsig : data_forensicSignature data = forensicSignature (local_session w metadata))
    by (rewrite Hdata; reflexivity).
  assert (Hid : u = init_uuid w) by (unfold u; rewrite Hdata; reflexivity).
  assert (Hc1 : isConnected c1 = false) by (rewrite Hc; exact Hoff).
  assert (Hone : 1 <= data_totalChunks data).
  { rewrite Htotal. cbn [totalChunks local_session]. rewrite Hmeta.
    apply Partition.ceil_div_positive; [exact Hpos|reflexivity]. }
  assert (Hin : uploadSessions c1 !! u = Some (local_session w metadata)).
  { rewrite Hid, Hc. apply lookup_insert_eq. }
  destruct (send_chunks_lookup c1 u reqs _ Hin Hall) as (s' & H1 & H2 & H3 & H4 & H5 & H6).
  fold c2 in H1, H6. cbn [completedChunks status local_session] in H2, H4.
  rewrite <- Htotal in H3. rewrite <- Hsig in H5. rewrite Z.add_0_l in H2. fold sent in H2.
  split; [exact Hone|]. split; [|split].
  - unfold upload_progress, getUploadProgress. rewrite H1, H2, H3, H4.
    unfold Js.div. destruct (data_totalChunks data =? 0) eqn:E; [apply Z.eqb_eq in E; lia|].
    reflexivity.
  - unfold upload_resume, resumeUpload. rewrite H1, H4, H2, H3. reflexivity.
  - pose proof (completeUpload_sessions c2 cw u) as Hdel.
    pose proof (completeUpload_local c2 cw u s' H1
                  (central_body_disconnected c2 _ ltac:(rewrite H6; exact Hc1))) as Hasset.
    unfold upload_complete. destruct (completeUpload c2 cw u) as [o c3].
    cbn [fst snd] in Hdel, Hasset. subst o.
    assert (Hgone : uploadSessions c3 !! u = None).
    { rewrite Hdel. apply lookup_delete_eq. }
    eexists _, c3. split; [reflexivity|]. cbn.
    split; [reflexivity|]. split; [exact H5|]. split; [|split].
    + unfold upload_progress, getUploadProgress. rewrite Hgone. reflexivity.
    + unfold upload_resume, resumeUpload. rewrite Hgone. reflexivity.
    + intros cw'. unfold upload_complete.
      rewrite (completeUpload_absent c3 cw' u Hgone). reflexivity.
Qed.

Lemma routes_end_to_end_witness :
  upload_progress
    (send_chunks (snd (upload_init standalone (sample_init "u-1")
                         (sample_request (12 * 1024 * 1024))))
       sample_chunk_requests)
    "u-1"
  = (Success {| progress := Js.Finite (inject_Z 3 / inject_Z 3 * inject_Z 100);
                progress_status := Status.in_progress |},
     send_chunks (snd (upload_init standalone (sample_init "u-1")
                         (sample_request (12 * 1024 * 1024))))
       sample_chunk_requests).
Proof.
  refine (proj1 (proj2 (routes_end_to_end standalone (sample_init "u-1")
                          (sample_request (12 * 1024 * 1024)) (12 * 1024 * 1024)
                          sample_data _ sample_chunk_requests sample_complete
                          _ _ _ _ _))).
  - reflexivity.
  - vm_compute. reflexivity.
  - reflexivity.
  - reflexivity.
  - repeat constructor; vm_compute; eauto.
Defined.

(** X9.  The hook and the server agree on the chunk size.  Whatever the
    hook's [configRef] held, after it fetched the config route its
    [chunkSize] is the server's [CHUNK_SIZE] and [maxParallelChunks] is 4;
    these are also the hook's built-in defaults, used when the fetch fails.
    With that chunk size, the ranges the hook builds from the [totalChunks]
    of an accepted init response (local path, positive [fileSize]) are
    [totalChunks] in number and cover the file exactly. *)
Theorem hook_ranges_cover_the_file
    (c : MediaHubClient) (w : InitWorld) (req : InitRequest) (fileSize : Z)
    (data : InitData) (c1 : MediaHubClient) (configRef : ChunkedUpload.UploadConfig) :
  upload_init c w req = (Success data, c1) ->
  central_body c (init_remote w) = None ->
  body_fileSize req = Some fileSize -> 0 < fileSize ->
  let config := ChunkedUpload.fetchConfig configRef (config_json (get_config c)) in
  let chunks :=
    ChunkedUpload.make_chunks (data_totalChunks data) (ChunkedUpload.chunkSize config) fileSize in
  config = initial_config
  /\ ChunkedUpload.fetchConfig initial_config FetchError = initial_config
  /\ ChunkedUpload.chunkSize config = data_chunkSize data
  /\ Z.of_nat (length chunks) = data_totalChunks data
  /\ total_length chunks = fileSize.
Proof.
  intros Hinit Hlocal Hsize Hpos config chunks.
  destruct (upload_init_local c w req data c1 Hinit Hlocal) as (metadata & Hmeta & Hdata & _).
  rewrite Hsize in Hmeta. cbn [default] in Hmeta.
  assert (Hconfig : config = initial_config) by reflexivity.
  assert (Htotal : data_totalChunks data = Js.ceil_div fileSize CHUNK_SIZE).
  { rewrite Hdata. cbn [data_totalChunks totalChunks local_session]. rewrite Hmeta.
    reflexivity. }
  pose proof (Partition.ceil_div_bounds fileSize CHUNK_SIZE ltac:(reflexivity)) as Hceil.
  pose proof (Partition.ceil_div_positive fileSize CHUNK_SIZE Hpos ltac:(reflexivity)) as Hone.
  split; [exact Hconfig|]. split; [reflexivity|]. split; [rewrite Hdata; reflexivity|].
  unfold chunks. rewrite Hconfig, Htotal.
  change (ChunkedUpload.chunkSize initial_config) with CHUNK_SIZE. split.
  - apply Partition.make_chunks_length. lia.
  - rewrite Partition.total_length_prefix; [lia|reflexivity|exact Hpos|lia|lia].
Qed.

Lemma hook_ranges_cover_the_file_witness :
  total_length
    (ChunkedUpload.make_chunks (data_totalChunks sample_data)
       (ChunkedUpload.chunkSize
          (ChunkedUpload.fetchConfig
             {| ChunkedUpload.chunkSize := 1; ChunkedUpload.maxParallelChunks := 1 |}
             (config_json (get_config standalone))))
       (12 * 1024 * 1024))
  = 12 * 1024 * 1024.
Proof.
  refine (proj2 (proj2 (proj2 (proj2
            (hook_ranges_cover_the_file standalone (sample_init "u-1")
               (sample_request (12 * 1024 * 1024)) (12 * 1024 * 1024) sample_data _
               {| ChunkedUpload.chunkSize := 1; ChunkedUpload.maxParallelChunks := 1 |}
               _ _ _ _))))).
  - vm_compute. reflexivity.
  - reflexivity.
  - reflexivity.
  - reflexivity.
Defined.

End RoutesMore.

(* ===================================================================== *)
(** ** The orchestrator: what an upload sends *)
(* ===================================================================== *)

Module HookMore.
Import Props MoreProps.
Import ChunkedUpload Orchestrator.
Local Open Scope Z_scope.

(** One to three requests, all for the chunk. *)
Lemma uploadChunk_shape attempt i :
  exists r n, uploadChunk attempt i = Some (r, repeat (PostChunk i) n) /\ (1 <= n <= 3)%nat.
Proof.
  unfold uploadChunk. cbn [uploadChunk_loop MAX_RETRIES Nat.ltb Nat.leb app].
  destruct (attempt 0%nat); [eexists _, 1%nat; split; [reflexivity|lia] | |
                             |eexists _, 1%nat; split; [reflexivity|lia]].
  all: cbn [Nat.leb];
    (destruct (attempt 1%nat); [eexists _, 2%nat; split; [reflexivity|lia] | |
                                |eexists _, 2%nat; split; [reflexivity|lia]]).
  all: cbn [Nat.leb]; destruct (attempt 2%nat); eexists _, 3%nat; split; (reflexivity || lia).
Qed.

(** A thrown [Failure] comes from a transport error at the third attempt. *)
Lemma uploadChunk_failure attempt i message reqs :
  uploadChunk attempt i = Some (Rejected (Failure message), reqs) ->
  attempt 2%nat = NetworkError.
Proof.
  unfold uploadChunk. cbn [uploadChunk_loop MAX_RETRIES Nat.ltb Nat.leb app].
  destruct (attempt 0%nat); try discriminate; cbn [Nat.leb];
    destruct (attempt 1%nat); try discriminate; cbn [Nat.leb];
      destruct (attempt 2%nat); try discriminate; reflexivity.
Qed.

(** With every wait ending, the upload goes on as [uploadChunk] of the
    embedding says. *)
Lemma with_pause_resumed resumed attempt i :
  (forall k, resumed k = true) ->
  uploadChunk_with_pause resumed attempt i = course_of (uploadChunk attempt i).
Proof.
  intros H. unfold uploadChunk_with_pause, uploadChunk.
  cbn [uploadChunk_paused_loop uploadChunk_loop MAX_RETRIES Nat.ltb Nat.leb app].
  rewrite !H. cbn [negb].
  destruct (attempt 0%nat); try reflexivity; cbn [Nat.leb];
    destruct (attempt 1%nat); try reflexivity; cbn [Nat.leb];
      destruct (attempt 2%nat); reflexivity.
Qed.

(** X10.  The hook's [uploadChunk], with the wait of a pause at the head of
    each pass.  Either it is left paused in one of its first three waits,
    and then polls for ever, having sent one request for each earlier pass,
    each of which ended in a non-2xx response or a transport error; or every
    wait it enters ends, and it settles after between one and
    [MAX_RETRIES] = 3 requests for its chunk and nothing else.  It then
    stopped before the third only on a 2xx response or an abort; it returns
    [true] exactly when its last attempt got a 2xx response, throws
    [AbortError] exactly when its last attempt was aborted, throws [Chunk i
    failed after 3 retries] exactly when the third attempt ended in a
    transport error, and returns [false] exactly when the third attempt got
    a non-2xx response.  For an upload that is never left paused this is
    what [uploadChunk] of the embedding returns. *)
Theorem uploadChunk_sends_one_to_three
    (resumed : nat -> bool) (attempt : nat -> Attempt) (i : Z) :
  (exists course,
     uploadChunk_with_pause resumed attempt i = Some course
     /\ match course with
        | Polls sent =>
            exists k,
              sent = repeat (PostChunk i) k
              /\ (k < 3)%nat
              /\ resumed k = false
              /\ (forall j, (j < k)%nat ->
                    resumed j = true
                    /\ (attempt j = ResponseNotOk \/ attempt j = NetworkError))
        | Settles r sent =>
            exists n,
              sent = repeat (PostChunk i) n
              /\ (1 <= n <= 3)%nat
              /\ (forall k, (k < n)%nat -> resumed k = true)
              /\ (forall k, (S k < n)%nat ->
                    attempt k = ResponseNotOk \/ attempt k = NetworkError)
              /\ ((n < 3)%nat -> attempt (pred n) = ResponseOk \/ attempt (pred n) = Aborted)
              /\ (r = Resolved true <-> attempt (pred n) = ResponseOk)
              /\ (r = Rejected AbortError <-> attempt (pred n) = Aborted)
              /\ (r = Rejected (Failure ("Chunk " +:+ Js.toString i
                                         +:+ " failed after 3 retries"))
                  <-> n = 3%nat /\ attempt 2%nat = NetworkError)
              /\ (r = Resolved false <-> n = 3%nat /\ attempt 2%nat = ResponseNotOk)
        end)
  /\ ((forall k, resumed k = true) ->
      uploadChunk_with_pause resumed attempt i = course_of (uploadChunk attempt i)).
Proof.
  split; [|apply with_pause_resumed].
  unfold uploadChunk_with_pause.
  cbn [uploadChunk_paused_loop MAX_RETRIES Nat.ltb Nat.leb app].
  destruct (resumed 0%nat) eqn:R0; cbn [negb].
  2: { exists (Polls []). split; [reflexivity|]. exists 0%nat.
       split; [reflexivity|]. split; [lia|]. split; [exact R0|]. intros j Hj. lia. }
  destruct (attempt 0%nat) eqn:E0;
    [exists (Settles (Resolved true) [PostChunk i]); split; [reflexivity|]; exists 1%nat
    | | |exists (Settles (Rejected AbortError) [PostChunk i]); split; [reflexivity|];
         exists 1%nat].
  all: cbn [Nat.leb].
  all: try match goal with
           | |- context [negb (?f 1%nat)] =>
               destruct (f 1%nat) eqn:R1; cbn [negb];
               [|exists (Polls [PostChunk i]); split; [reflexivity|]; exists 1%nat;
                 split; [reflexivity|]; split; [lia|]; split; [exact R1|];
                 intros [|j] Hj; [rewrite E0; auto|lia]]
           end.
  all: try match goal with
           | |- context [match ?a 1%nat with _ => _ end] =>
               destruct (a 1%nat) eqn:E1;
               [exists (Settles (Resolved true) [PostChunk i; PostChunk i]);
                split; [reflexivity|]; exists 2%nat
               | | |exists (Settles (Rejected AbortError) [PostChunk i; PostChunk i]);
                    split; [reflexivity|]; exists 2%nat]
           end.
  all: cbn [Nat.leb].
  all: try match goal with
           | |- context [negb (?f 2%nat)] =>
               destruct (f 2%nat) eqn:R2; cbn [negb];
               [|exists (Polls [PostChunk i; PostChunk i]); split; [reflexivity|];
                 exists 2%nat; split; [reflexivity|]; split; [lia|]; split; [exact R2|];
                 intros [|[|j]] Hj; [rewrite E0; auto|rewrite E1; auto|lia]]
           end.
  all: try match goal with
           | |- context [match ?a 2%nat with _ => _ end] =>
               destruct (a 2%nat) eqn:E2;
               [exists (Settles (Resolved true) [PostChunk i; PostChunk i; PostChunk i])
               |exists (Settles (Resolved false) [PostChunk i; PostChunk i; PostChunk i])
               |exists (Settles (Rejected (Failure ("Chunk " +:+ Js.toString i
                                                     +:+ " failed after 3 retries")))
                           [PostChunk i; PostChunk i; PostChunk i])
               |exists (Settles (Rejected AbortError)
                           [PostChunk i; PostChunk i; PostChunk i])];
               (split; [reflexivity|]); exists 3%nat
           end.
  all: cbn [repeat pred];
    repeat match goal with |- _ /\ _ => split end;
    first [ reflexivity
          | lia
          | solve [intros [|[|[|k]]] Hk; try lia; auto]
          | solve [intuition (try lia; try congruence; auto)] ].
Qed.

(** *** The log of a pool that ends normally *)

Lemma drop_nth_perm {A} k (l : list A) d :
  (k < length l)%nat -> Permutation l (nth k l d :: drop_nth k l).
Proof.
  revert k. induction l as [|x l IH]; intros k Hk; [cbn in Hk; lia|].
  destruct k as [|k]; cbn [nth drop_nth]; [reflexivity|].
  rewrite (IH k) at 1 by (cbn in Hk; lia). apply perm_swap.
Qed.

Lemma fill_perm maxParallel queue active :
  Permutation (queue ++ active)
    (fst (fill maxParallel queue active) ++ snd (fill maxParallel queue active)).
Proof.
  destruct (fill_moves maxParallel queue active) as (moved & H1 & H2).
  rewrite H2. rewrite H1 at 1.
  rewrite <- app_assoc. rewrite (Permutation_app_comm moved).
  rewrite <- !app_assoc. reflexivity.
Qed.

Section PoolLog.

Variable maxParallel : Z.
Variable attempt : Z -> nat -> Attempt.

Lemma chunk_requests_resolved chunk v reqs :
  uploadChunk (attempt (index chunk)) (index chunk) = Some (Resolved v, reqs) ->
  chunk_requests attempt chunk = reqs.
Proof. unfold chunk_requests. intros ->. reflexivity. Qed.

(** A pool that ends normally has run every chunk once; its log is what was
    sent before followed by the requests of the chunks in the order they
    settled. *)
Lemma pool_resolved_log fuel queue active order completed sent m sent' :
  pool fuel maxParallel attempt queue active order completed sent = Some (Resolved m, sent') ->
  exists settled,
    Permutation settled (queue ++ active)
    /\ sent' = sent ++ flat_map (chunk_requests attempt) settled
    /\ m = completed + Z.of_nat (length settled).
Proof.
  revert queue active order completed sent.
  induction fuel as [|fuel IH]; intros queue active order completed sent H; [discriminate|].
  destruct (nil_or_not (queue ++ active)) as [Hnil|Hne].
  - apply app_eq_nil in Hnil as [-> ->]. rewrite pool_done in H. injection H as <- <-.
    exists []. cbn. rewrite app_nil_r. repeat split; [reflexivity|lia].
  - rewrite pool_step in H by exact Hne. cbv zeta in H.
    pose proof (fill_perm maxParallel queue active) as Hperm.
    destruct (snd (fill maxParallel queue active)) as [|first rest] eqn:Hactive.
    + destruct (IH _ _ _ _ _ H) as (settled & H1 & H2 & H3).
      exists settled. split; [|split; assumption]. rewrite H1. symmetry. exact Hperm.
    + set (k := (hd 0%nat order mod length (first :: rest))%nat) in *.
      assert (Hk : (k < length (first :: rest))%nat).
      { apply Nat.mod_upper_bound. discriminate. }
      set (chunk := nth k (first :: rest) first) in *.
      destruct (uploadChunk (attempt (index chunk)) (index chunk)) as [[[v|e] reqs]|] eqn:Hup;
        [|discriminate|discriminate].
      destruct (IH _ _ _ _ _ H) as (settled & H1 & H2 & H3).
      exists (chunk :: settled). split; [|split].
      * etransitivity; [|symmetry; exact Hperm]. rewrite H1.
        etransitivity; [apply Permutation_middle|].
        apply Permutation_app_head. symmetry. apply drop_nth_perm. exact Hk.
      * rewrite H2. cbn [flat_map]. rewrite (chunk_requests_resolved chunk v reqs Hup).
        rewrite <- app_assoc. reflexivity.
      * rewrite H3. cbn [length]. lia.
Qed.

(** A pool that ends with an exception ends with the exception of one of
    its chunks. *)
Lemma pool_rejected_by fuel queue active order completed sent e sent' :
  pool fuel maxParallel attempt queue active order completed sent = Some (Rejected e, sent') ->
  exists chunk reqs,
    In chunk (queue ++ active)
    /\ uploadChunk (attempt (index chunk)) (index chunk) = Some (Rejected e, reqs).
Proof.
  revert queue active order completed sent.
  induction fuel as [|fuel IH]; intros queue active order completed sent H; [discriminate|].
  destruct (nil_or_not (queue ++ active)) as [Hnil|Hne].
  - apply app_eq_nil in Hnil as [-> ->]. rewrite pool_done in H. discriminate.
  - rewrite pool_step in H by exact Hne. cbv zeta in H.
    assert (Hback : forall x,
               In x (fst (fill maxParallel queue active) ++ snd (fill maxParallel queue active)) ->
               In x (queue ++ active)).
    { intros x. apply fill_elements. }
    destruct (snd (fill maxParallel queue active)) as [|first rest] eqn:Hactive.
    + destruct (IH _ _ _ _ _ H) as (chunk & reqs & Hin & Hup). eauto.
    + set (k := (hd 0%nat order mod length (first :: rest))%nat) in *.
      assert (Hk : (k < length (first :: rest))%nat).
      { apply Nat.mod_upper_bound. discriminate. }
      set (chunk := nth k (first :: rest) first) in *.
      destruct (uploadChunk (attempt (index chunk)) (index chunk)) as [[[v|e'] reqs]|] eqn:Hup;
        [| |discriminate].
      * destruct (IH _ _ _ _ _ H) as (chunk' & reqs' & Hin & Hup').
        exists chunk', reqs'. split; [|exact Hup']. apply Hback.
        apply in_app_iff in Hin. apply in_app_iff.
        destruct Hin as [Hin|Hin]; [left; exact Hin|right; eapply drop_nth_subset; exact Hin].
      * injection H as <- _. exists chunk, reqs. split; [|exact Hup].
        apply Hback, in_app_iff. right. apply nth_In. exact Hk.
Qed.

End PoolLog.

(** *** Counting the requests for one chunk *)

Lemma count_posts_app i l1 l2 :
  count_posts i (l1 ++ l2) = (count_posts i l1 + count_posts i l2)%nat.
Proof. unfold count_posts. rewrite List.filter_app, length_app. reflexivity. Qed.

Lemma count_posts_repeat i j n :
  count_posts i (repeat (PostChunk j) n) = if i =? j then n else 0%nat.
Proof.
  unfold count_posts. induction n as [|n IH]; cbn [repeat List.filter is_post].
  - destruct (i =? j); reflexivity.
  - destruct (i =? j); cbn [length]; rewrite IH; reflexivity.
Qed.

Section Counting.

Variable attempt : Z -> nat -> Attempt.
Variables chunkSize fileSize : Z.

Lemma requests_of_shape j :
  exists n,
    chunk_requests attempt (chunk_at chunkSize fileSize j) = repeat (PostChunk j) n
    /\ (1 <= n <= 3)%nat.
Proof.
  unfold chunk_requests. cbn [index chunk_at].
  destruct (uploadChunk_shape (attempt j) j) as (r & n & -> & Hn). eauto.
Qed.

Lemma count_posts_perm i (l l' : list Chunk) :
  Permutation l l' ->
  count_posts i (flat_map (chunk_requests attempt) l)
  = count_posts i (flat_map (chunk_requests attempt) l').
Proof.
  induction 1; cbn [flat_map]; rewrite ?count_posts_app; lia.
Qed.

Lemma count_posts_others i (js : list Z) :
  (forall j, In j js -> j <> i) ->
  count_posts i (flat_map (chunk_requests attempt) (map (chunk_at chunkSize fileSize) js)) = 0%nat.
Proof.
  induction js as [|j js IH]; intros Hne; [reflexivity|].
  cbn [map flat_map]. rewrite count_posts_app, IH by (intros; apply Hne; right; assumption).
  destruct (requests_of_shape j) as (n & -> & _).
  rewrite count_posts_repeat.
  destruct (Z.eqb_spec i j) as [->|_]; [|reflexivity].
  exfalso. apply (Hne j); [left|]; reflexivity.
Qed.

(** In the requests of all the chunks of a partition, chunk [i] has between
    one and three. *)
Lemma count_posts_make_chunks i totalChunks :
  0 <= i < totalChunks ->
  (1 <= count_posts i (flat_map (chunk_requests attempt)
                         (make_chunks totalChunks chunkSize fileSize)) <= 3)%nat.
Proof.
  intros Hi. unfold make_chunks.
  change (fun i0 : Z => {| index := i0; start := i0 * chunkSize;
                           stop := Z.min (i0 * chunkSize + chunkSize) fileSize |})
    with (chunk_at chunkSize fileSize).
  replace totalChunks with (i + (totalChunks - i)) by lia.
  rewrite seqZ_app by lia. rewrite (seqZ_cons (0 + i)) by lia.
  rewrite map_app, flat_map_app, count_posts_app. cbn [map flat_map].
  rewrite count_posts_app.
  rewrite !count_posts_others.
  - destruct (requests_of_shape (0 + i)) as (n & -> & Hn).
    rewrite count_posts_repeat. replace (i =? 0 + i) with true by (symmetry; apply Z.eqb_eq; lia).
    lia.
  - intros j Hj. apply list_elem_of_In, elem_of_seqZ in Hj. lia.
  - intros j Hj. apply list_elem_of_In, elem_of_seqZ in Hj. lia.
Qed.

Lemma requests_of_chunks_in_range totalChunks :
  Forall (fun r => exists i, r = PostChunk i /\ 0 <= i < totalChunks)
    (flat_map (chunk_requests attempt) (make_chunks totalChunks chunkSize fileSize)).
Proof.
  apply Forall_forall. intros r Hr. apply list_elem_of_In, in_flat_map in Hr.
  destruct Hr as (chunk & Hchunk & Hr). unfold make_chunks in Hchunk.
  apply in_map_iff in Hchunk as (j & <- & Hj).
  apply list_elem_of_In, elem_of_seqZ in Hj.
  change (In r (chunk_requests attempt (chunk_at chunkSize fileSize j))) in Hr.
  destruct (requests_of_shape j) as (n & E & _). rewrite E in Hr.
  apply repeat_spec in Hr. exists j. split; [exact Hr|lia].
Qed.

End Counting.

Lemma caught_not_returned e sent result : returned (caught e sent) <> Some result.
Proof. destruct e; discriminate. Qed.

(** X11.  When [uploadFile] returns a result, the requests it sent are the
    config fetch, the init, then chunk requests only, then one completion
    request, the last of all; every chunk index below the session's
    [totalChunks] was posted at least once and at most three times, and no
    other index was posted.  The result is the body of the completion
    response. *)
Theorem successful_upload_posts_every_chunk
    (configRef : UploadConfig) (w : World) (file : File) (run : Run) (result : UploadResult) :
  uploadFile configRef w file = Some run ->
  returned run = Some result ->
  exists session body,
    init_response w = ReplyOk session
    /\ complete_response w = ReplyOk result
    /\ requests run = [GetConfig; PostInit] ++ body ++ [PostComplete]
    /\ Forall (fun r => exists i, r = PostChunk i /\ 0 <= i < totalChunks session) body
    /\ (forall i, 0 <= i < totalChunks session -> (1 <= count_posts i body <= 3)%nat).
Proof.
  unfold uploadFile. intros H Hret.
  destruct (init_response w) as [session|err|e] eqn:Hinit.
  2,3: injection H as <-;
       first [discriminate Hret | exfalso; exact (caught_not_returned _ _ _ Hret)].
  set (config := fetchConfig configRef (config_response w)) in *.
  set (chunks := make_chunks (totalChunks session) (chunkSize config) (size file)) in *.
  destruct (pool (S (length chunks)) (maxParallelChunks config) (chunk_attempt w) chunks []
              (settle_order w) 0 [GetConfig; PostInit]) as [[[m|e] sent]|] eqn:Hpool;
    [| |discriminate].
  2: injection H as <-;
       first [discriminate Hret | exfalso; exact (caught_not_returned _ _ _ Hret)].
  destruct (complete_response w) as [result'|err|e] eqn:Hcomplete.
  2,3: injection H as <-;
       first [discriminate Hret | exfalso; exact (caught_not_returned _ _ _ Hret)].
  injection H as <-. cbn [returned requests] in *. injection Hret as ->.
  destruct (pool_resolved_log _ _ _ _ _ _ _ _ _ _ Hpool) as (settled & Hperm & Hsent & _).
  rewrite app_nil_r in Hperm.
  exists session, (flat_map (chunk_requests (chunk_attempt w)) settled).
  split; [reflexivity|]. split; [reflexivity|]. split; [|split].
  - rewrite Hsent, <- app_assoc. reflexivity.
  - pose proof (requests_of_chunks_in_range (chunk_attempt w) (chunkSize config) (size file)
                  (totalChunks session)) as Hall.
    rewrite Forall_forall in Hall |- *. intros r Hr. apply Hall.
    apply list_elem_of_In in Hr. apply list_elem_of_In.
    apply in_flat_map in Hr as (chunk & Hchunk & Hr). apply in_flat_map.
    exists chunk. split; [|exact Hr]. eapply Permutation_in; [exact Hperm|exact Hchunk].
  - intros i Hi. rewrite (count_posts_perm (chunk_attempt w) i settled chunks Hperm).
    apply count_posts_make_chunks. exact Hi.
Qed.

Lemma successful_upload_posts_every_chunk_witness :
  exists session body,
    init_response (one_chunk_world (fun _ => ResponseOk) []) = ReplyOk session
    /\ complete_response (one_chunk_world (fun _ => ResponseOk) []) = ReplyOk sample_result
    /\ [GetConfig; PostInit; PostChunk 0; PostComplete]
       = [GetConfig; PostInit] ++ body ++ [PostComplete]
    /\ Forall (fun r => exists i, r = PostChunk i /\ 0 <= i < totalChunks session) body
    /\ (forall i, 0 <= i < totalChunks session -> (1 <= count_posts i body <= 3)%nat).
Proof.
  apply (successful_upload_posts_every_chunk initial_config
           (one_chunk_world (fun _ => ResponseOk) []) one_byte_file
           {| returned := Some sample_result; error := None;
              requests := [GetConfig; PostInit; PostChunk 0; PostComplete] |}
           sample_result).
  - reflexivity.
  - reflexivity.
Defined.

(** *** The concurrency ceiling *)

Lemma fill_bound maxParallel queue active :
  Z.of_nat (length active) <= maxParallel ->
  Z.of_nat (length (snd (fill maxParallel queue active))) <= maxParallel.
Proof.
  revert active. induction queue as [|chunk rest IH]; intros active Hle; cbn [fill].
  - exact Hle.
  - destruct (Z.ltb_spec (Z.of_nat (length active)) maxParallel) as [Hlt|Hge].
    + apply IH. rewrite length_app. cbn [length]. lia.
    + exact Hle.
Qed.

(** The inner loop leaves no slot free while a chunk is queued. *)
Lemma fill_greedy maxParallel queue active :
  fst (fill maxParallel queue active) = []
  \/ maxParallel <= Z.of_nat (length (snd (fill maxParallel queue active))).
Proof.
  revert active. induction queue as [|chunk rest IH]; intros active; cbn [fill].
  - left. reflexivity.
  - destruct (Z.ltb_spec (Z.of_nat (length active)) maxParallel) as [Hlt|Hge].
    + apply IH.
    + right. exact Hge.
Qed.

Lemma settle_more_length attempt active ks :
  (length (fst (settle_more attempt active ks)) <= length active)%nat.
Proof.
  revert active. induction ks as [|k ks IH]; intros active; cbn [settle_more fst]; [lia|].
  destruct active as [|first rest]; [cbn; lia|].
  set (k' := (k mod length (first :: rest))%nat).
  assert (Hk : (k' < length (first :: rest))%nat).
  { apply Nat.mod_upper_bound. discriminate. }
  pose proof (drop_nth_length k' (first :: rest) Hk) as Hdrop.
  destruct (uploadChunk (attempt (index (nth k' (first :: rest) first)))
              (index (nth k' (first :: rest) first))) as [[[v|e] reqs]|]; cbn [fst].
  - specialize (IH (drop_nth k' (first :: rest))). lia.
  - apply IH.
  - apply IH.
Qed.

Lemma races_step fuel maxParallel attempt queue active order rejected :
  queue ++ active <> [] ->
  races (S fuel) maxParallel attempt queue active order rejected
  = let queue' := fst (fill maxParallel queue active) in
    let active' := snd (fill maxParallel queue active) in
    match active' with
    | [] => races fuel maxParallel attempt queue' active' order rejected
    | first :: _ =>
        (queue', active')
        :: if rejected then []
           else
             let k := (hd 0%nat (hd [] order) mod length active')%nat in
             let chunk := nth k active' first in
             match uploadChunk (attempt (index chunk)) (index chunk) with
             | Some (Resolved _, _) =>
                 let left := settle_more attempt (drop_nth k active') (tl (hd [] order)) in
                 races fuel maxParallel attempt queue' (fst left) (tl order) (snd left)
             | _ => []
             end
    end.
Proof.
  intros Hne. cbn [races].
  destruct queue as [|c0 queue], active as [|a0 active]; try contradiction;
    destruct (fill maxParallel _ _) as [queue' active']; reflexivity.
Qed.

(** X12.  The pool never has more than [maxParallelChunks] uploads in
    flight: at every [Promise.race] of the outer loop [activeUploads] holds
    at least one and at most [maxParallelChunks] uploads, and it is full
    whenever a chunk is still queued, however many uploads settle between
    two turns of the loop and whether or not one of them has rejected. *)
Theorem pool_respects_the_ceiling
    (fuel : nat) (maxParallel : Z) (attempt : Z -> nat -> Attempt)
    (queue active : list Chunk) (order : list (list nat)) (rejected : bool) :
  1 <= maxParallel ->
  Z.of_nat (length active) <= maxParallel ->
  Forall (fun race =>
            1 <= Z.of_nat (length (snd race)) <= maxParallel
            /\ (fst race = [] \/ Z.of_nat (length (snd race)) = maxParallel))
    (races fuel maxParallel attempt queue active order rejected).
Proof.
  intros Hmax. revert queue active order rejected.
  induction fuel as [|fuel IH]; intros queue active order rejected Hle; [constructor|].
  destruct (nil_or_not (queue ++ active)) as [Hnil|Hne].
  { apply app_eq_nil in Hnil as [-> ->]. constructor. }
  rewrite races_step by exact Hne. cbv zeta.
  pose proof (fill_bound maxParallel queue active Hle) as Hbound.
  pose proof (fill_greedy maxParallel queue active) as Hgreedy.
  pose proof (fill_starts maxParallel queue active Hmax Hne) as Hstart.
  destruct (snd (fill maxParallel queue active)) as [|first rest] eqn:Hactive;
    [contradiction|].
  set (k := (hd 0%nat (hd [] order) mod length (first :: rest))%nat).
  assert (Hk : (k < length (first :: rest))%nat).
  { apply Nat.mod_upper_bound. discriminate. }
  pose proof (drop_nth_length k (first :: rest) Hk) as Hdrop.
  pose proof (settle_more_length attempt (drop_nth k (first :: rest)) (tl (hd [] order)))
    as Hmore.
  constructor.
  - split; [cbn [length snd] in *; lia|]. cbn [fst snd].
    destruct Hgreedy as [Hq|Hfull]; [left; exact Hq|]. right. lia.
  - destruct rejected; [constructor|].
    destruct (uploadChunk (attempt (index (nth k (first :: rest) first)))
                (index (nth k (first :: rest) first))) as [[[v|e] reqs]|];
      [|constructor|constructor].
    apply IH. lia.
Qed.

Lemma pool_respects_the_ceiling_witness :
  Forall (fun race =>
            1 <= Z.of_nat (length (snd race)) <= 2
            /\ (fst race = [] \/ Z.of_nat (length (snd race)) = 2))
    (races 6 2 (fun _ _ => ResponseOk)
       (make_chunks 5 (5 * 1024 * 1024) (22 * 1024 * 1024)) []
       [[1%nat; 0%nat]; [0%nat]; [1%nat; 0%nat]] false).
Proof.
  apply (pool_respects_the_ceiling 6 2 (fun _ _ => ResponseOk)
           (make_chunks 5 (5 * 1024 * 1024) (22 * 1024 * 1024)) []
           [[1%nat; 0%nat]; [0%nat]; [1%nat; 0%nat]] false).
  - lia.
  - cbn. lia.
Defined.

(** X13.  Cancelling.  When the upload of some chunk is aborted, and no
    attempt of any chunk ends in a transport error, [uploadFile] returns
    [null] with the error [Upload cancelled] and sends no completion
    request, whatever the other chunks do and in whatever order the uploads
    settle. *)
Theorem aborted_upload_reports_cancellation
    (configRef : UploadConfig) (w : World) (file : File) (session : UploadSession) (i : Z) :
  init_response w = ReplyOk session ->
  0 <= i < totalChunks session ->
  1 <= maxParallelChunks (fetchConfig configRef (config_response w)) ->
  (forall j k, chunk_attempt w j k <> NetworkError) ->
  (exists reqs, uploadChunk (chunk_attempt w i) i = Some (Rejected AbortError, reqs)) ->
  exists run,
    uploadFile configRef w file = Some run
    /\ returned run = None
    /\ error run = Some "Upload cancelled"
    /\ ~ In PostComplete (requests run).
Proof.
  intros Hinit Hi Hmax Hnet [reqs Habort]. unfold uploadFile. rewrite Hinit.
  set (config := fetchConfig configRef (config_response w)) in *.
  set (chunks := make_chunks (totalChunks session) (chunkSize config) (size file)).
  destruct (pool_total (maxParallelChunks config) (chunk_attempt w) (S (length chunks))
              chunks [] (settle_order w) 0 [GetConfig; PostInit] Hmax)
    as [[r sent] Hpool]; [cbn; lia|].
  rewrite Hpool.
  assert (Hsent : Forall (fun q => q <> PostComplete) sent).
  { eapply pool_requests; [exact Hpool|]. repeat constructor; discriminate. }
  assert (Hrej : exists e, r = Rejected e).
  { eapply pool_rejects with (bad := chunk_at (chunkSize config) (size file) i);
      [| |exact Hpool].
    - rewrite app_nil_r. apply list_elem_of_In. eapply list_elem_of_lookup_2.
      apply Partition.make_chunks_lookup. exact Hi.
    - intros v reqs'. cbn [index chunk_at]. rewrite Habort. discriminate. }
  destruct Hrej as [e ->].
  destruct (pool_rejected_by _ _ _ _ _ _ _ _ _ _ Hpool) as (chunk & reqs' & _ & Hup).
  destruct e as [|message].
  - eexists. split; [reflexivity|]. cbn. split; [reflexivity|]. split; [reflexivity|].
    intros Hin. rewrite Forall_forall in Hsent. apply list_elem_of_In in Hin.
    exact (Hsent _ Hin eq_refl).
  - exfalso. apply uploadChunk_failure in Hup. exact (Hnet _ _ Hup).
Qed.

Lemma aborted_upload_reports_cancellation_witness :
  exists run,
    uploadFile initial_config (cancelled_world []) one_byte_file = Some run
    /\ returned run = None
    /\ error run = Some "Upload cancelled"
    /\ ~ In PostComplete (requests run).
Proof.
  refine (aborted_upload_reports_cancellation initial_config (cancelled_world []) one_byte_file
            _ 0 eq_refl _ _ _ _).
  - vm_compute. split; [discriminate|reflexivity].
  - vm_compute. discriminate.
  - intros j k. discriminate.
  - eexists. reflexivity.
Defined.

End HookMore.

(* ===================================================================== *)
(** ** The AI gateway: cache key, response cache, providers, chat completion *)
(* ===================================================================== *)

Module GatewayFacts.
Import JsMore Gateway GatewayProps.
Local Open Scope Z_scope.

(** *** [ToInt32] and the hash *)

Lemma to_int32_range z : - 2 ^ 31 <= to_int32 z < 2 ^ 31.
Proof.
  unfold to_int32. pose proof (Z.mod_pos_bound (z + 2 ^ 31) (2 ^ 32) ltac:(lia)). lia.
Qed.

Lemma to_int32_shift z k : to_int32 (z + k * 2 ^ 32) = to_int32 z.
Proof.
  unfold to_int32. replace (z + k * 2 ^ 32 + 2 ^ 31) with (z + 2 ^ 31 + k * 2 ^ 32) by lia.
  rewrite Z_mod_plus_full. reflexivity.
Qed.

Lemma to_int32_unfold z : exists k, to_int32 z = z + k * 2 ^ 32.
Proof.
  exists (- ((z + 2 ^ 31) / 2 ^ 32)). unfold to_int32.
  pose proof (Z.div_mod (z + 2 ^ 31) (2 ^ 32) ltac:(lia)). lia.
Qed.

Lemma to_int32_fixed z : - 2 ^ 31 <= z < 2 ^ 31 -> to_int32 z = z.
Proof.
  intros Hz. unfold to_int32. rewrite Z.mod_small by lia. lia.
Qed.

Lemma hash_step_wraps p c : hash_step (to_int32 p) c = to_int32 (31 * p + c).
Proof.
  unfold hash_step. rewrite (to_int32_fixed (to_int32 p)) by apply to_int32_range.
  rewrite Z.shiftl_mul_pow2 by lia.
  destruct (to_int32_unfold p) as [k1 ->].
  destruct (to_int32_unfold ((p + k1 * 2 ^ 32) * 2 ^ 5)) as [k2 ->].
  replace ((p + k1 * 2 ^ 32) * 2 ^ 5 + k2 * 2 ^ 32 - (p + k1 * 2 ^ 32) + c)
    with (31 * p + c + (31 * k1 + k2) * 2 ^ 32) by lia.
  apply to_int32_shift.
Qed.

Lemma hash_fold_wraps data p :
  fold_left hash_step data (to_int32 p)
  = to_int32 (fold_left (fun h c => 31 * h + c) data p).
Proof.
  revert p. induction data as [|c data IH]; intros p; cbn [fold_left]; [reflexivity|].
  rewrite hash_step_wraps. apply IH.
Qed.

(** X14.  The hash of [generateCacheKey] is the polynomial
    [c0 * 31^(n-1) + ... + c(n-1)] of the code units, wrapped to a signed
    32-bit integer. *)
Theorem hash_is_the_wrapped_polynomial (data : list Z) :
  hash_of data = to_int32 (polynomial data)
  /\ - 2 ^ 31 <= hash_of data < 2 ^ 31.
Proof.
  assert (H : hash_of data = to_int32 (polynomial data)).
  { unfold hash_of, polynomial. change 0 with (to_int32 0) at 1. apply hash_fold_wraps. }
  split; [exact H|]. rewrite H. apply to_int32_range.
Qed.

Lemma polynomial_fold_app l1 l2 p :
  fold_left (fun h c => 31 * h + c) (l1 ++ l2) p
  = fold_left (fun h c => 31 * h + c) l2 (fold_left (fun h c => 31 * h + c) l1 p).
Proof. apply fold_left_app. Qed.

(** X15.  The hash does not tell [Aa] from [BB]: two texts that differ by
    this replacement, at any place and any number of places apart, get the
    same cache key. *)
Theorem cache_key_confuses_Aa_and_BB
    (stringify : string -> ChatCompletionRequest -> list Z)
    (type : string) (request1 request2 : ChatCompletionRequest) (before after : list Z) :
  stringify type request1 = before ++ [65; 97] ++ after ->
  stringify type request2 = before ++ [66; 66] ++ after ->
  generateCacheKey stringify type request1 = generateCacheKey stringify type request2.
Proof.
  intros H1 H2. unfold generateCacheKey. rewrite H1, H2. do 3 f_equal.
  unfold hash_of. rewrite !fold_left_app. f_equal.
  assert (Hp : exists p, fold_left hash_step before 0 = to_int32 p).
  { eexists. exact (hash_fold_wraps before 0). }
  destruct Hp as [p ->]. cbn [fold_left].
  rewrite !hash_step_wraps. do 2 f_equal. lia.
Qed.

Lemma cache_key_confuses_Aa_and_BB_witness :
  generateCacheKey stringify_plain "chat" (sample_request "Aa" (Some "auto"))
  = generateCacheKey stringify_plain "chat" (sample_request "BB" (Some "auto")).
Proof.
  apply (cache_key_confuses_Aa_and_BB stringify_plain "chat"
           (sample_request "Aa" (Some "auto")) (sample_request "BB" (Some "auto"))
           (firstn 28 (stringify_plain "chat" (sample_request "Aa" (Some "auto"))))
           (skipn 30 (stringify_plain "chat" (sample_request "Aa" (Some "auto"))))).
  - reflexivity.
  - reflexivity.
Defined.

(** *** [Map] *)

Lemma map_get_set_same {V : Type} key (v : V) m : map_get key (map_set key v m) = Some v.
Proof.
  induction m as [|[k v0] m IH]; cbn [map_set map_get].
  - rewrite String.eqb_refl. reflexivity.
  - destruct (String.eqb_spec k key) as [->|Hne]; cbn [map_get].
    + rewrite String.eqb_refl. reflexivity.
    + destruct (String.eqb_spec k key); [contradiction|]. exact IH.
Qed.

Lemma map_get_set_other {V : Type} k key (v : V) m :
  k <> key -> map_get k (map_set key v m) = map_get k m.
Proof.
  intros Hne. induction m as [|[k' v0] m IH]; cbn [map_set map_get].
  - destruct (String.eqb_spec key k); [congruence|reflexivity].
  - destruct (String.eqb_spec k' key) as [->|Hne']; cbn [map_get].
    + destruct (String.eqb_spec key k); [congruence|reflexivity].
    + rewrite IH. reflexivity.
Qed.

Lemma map_get_delete_same {V : Type} key (m : Map V) : map_get key (map_delete key m) = None.
Proof.
  unfold map_delete. induction m as [|[k v] m IH]; [reflexivity|].
  cbn [List.filter fst]. destruct (String.eqb_spec k key) as [->|Hne]; cbn [negb].
  - exact IH.
  - cbn [map_get]. destruct (String.eqb_spec k key); [contradiction|]. exact IH.
Qed.

Lemma map_get_delete_other {V : Type} k key (m : Map V) :
  k <> key -> map_get k (map_delete key m) = map_get k m.
Proof.
  intros Hne. unfold map_delete. induction m as [|[k' v] m IH]; [reflexivity|].
  cbn [List.filter fst]. destruct (String.eqb_spec k' key) as [->|Hne']; cbn [negb map_get].
  - destruct (String.eqb_spec key k); [congruence|]. exact IH.
  - rewrite IH. reflexivity.
Qed.

Lemma map_get_absent {V : Type} key (m : Map V) :
  ~ In key (map fst m) -> map_get key m = None.
Proof.
  induction m as [|[k v] m IH]; intros Hnot; [reflexivity|]. cbn [map_get].
  destruct (String.eqb_spec k key) as [->|Hne].
  - exfalso. apply Hnot. left. reflexivity.
  - apply IH. intros Hin. apply Hnot. right. exact Hin.
Qed.

Lemma keys_filter {V : Type} (f : string * V -> bool) (m : Map V) key :
  In key (map fst (List.filter f m)) -> In key (map fst m).
Proof.
  induction m as [|kv m IH]; [intros []|]. cbn [List.filter].
  destruct (f kv); cbn [map In]; [intros [H|H]; [left; exact H|right; exact (IH H)]|].
  intros H. right. exact (IH H).
Qed.

Lemma unique_filter {V : Type} (f : string * V -> bool) (m : Map V) :
  unique_keys m -> unique_keys (List.filter f m).
Proof.
  unfold unique_keys. induction m as [|kv m IH]; intros Hm; [exact Hm|].
  cbn [map] in Hm. apply NoDup_cons_iff in Hm as [Hnot Hm]. cbn [List.filter].
  destruct (f kv); [|exact (IH Hm)].
  cbn [map]. apply NoDup_cons_iff. split; [|exact (IH Hm)].
  intros Hin. apply Hnot. exact (keys_filter f m _ Hin).
Qed.

Lemma length_filter_le {V : Type} (f : string * V -> bool) (m : Map V) :
  (length (List.filter f m) <= length m)%nat.
Proof.
  induction m as [|kv m IH]; [apply Nat.le_refl|]. cbn [List.filter].
  destruct (f kv); cbn [length]; lia.
Qed.

Lemma map_delete_absent {V : Type} key (m : Map V) :
  ~ In key (map fst m) -> map_delete key m = m.
Proof.
  unfold map_delete. induction m as [|[k v] m IH]; intros Hnot; [reflexivity|].
  cbn [List.filter fst]. destruct (String.eqb_spec k key) as [->|Hne].
  - exfalso. apply Hnot. left. reflexivity.
  - cbn [negb]. f_equal. apply IH. intros Hin. apply Hnot. right. exact Hin.
Qed.

(** With distinct keys, deleting the first key removes the first entry. *)
Lemma map_delete_first {V : Type} key (v : V) m :
  unique_keys ((key, v) :: m) -> map_delete key ((key, v) :: m) = m.
Proof.
  unfold unique_keys. cbn [map fst]. intros Hm. apply NoDup_cons_iff in Hm as [Hnot _].
  unfold map_delete. cbn [List.filter fst]. rewrite String.eqb_refl. cbn [negb].
  apply (map_delete_absent key m Hnot).
Qed.

Lemma keys_map_set {V : Type} key (v : V) m k :
  In k (map fst (map_set key v m)) -> k = key \/ In k (map fst m).
Proof.
  induction m as [|[k' v0] m IH]; cbn [map_set].
  - cbn. intros [H|[]]. left. symmetry. exact H.
  - destruct (String.eqb_spec k' key) as [->|Hne]; cbn [map fst In].
    + intros H. right. exact H.
    + intros [H|H]; [right; left; exact H|]. destruct (IH H) as [E|Hin]; [left; exact E|].
      right. right. exact Hin.
Qed.

Lemma unique_map_set {V : Type} key (v : V) m :
  unique_keys m -> unique_keys (map_set key v m).
Proof.
  unfold unique_keys. induction m as [|[k' v0] m IH]; intros Hm; cbn [map_set].
  - cbn. apply NoDup_cons_iff. split; [intros []|constructor].
  - cbn [map fst] in Hm. apply NoDup_cons_iff in Hm as [Hnot Hm].
    destruct (String.eqb_spec k' key) as [->|Hne]; cbn [map fst].
    + apply NoDup_cons_iff. split; assumption.
    + apply NoDup_cons_iff. split; [|exact (IH Hm)].
      intros Hin. destruct (keys_map_set key v m k' Hin) as [E|Hin']; [contradiction|].
      exact (Hnot Hin').
Qed.

Lemma length_map_set {V : Type} key (v : V) m :
  (length (map_set key v m) <= S (length m))%nat.
Proof.
  induction m as [|[k' v0] m IH]; cbn [map_set]; [cbn; lia|].
  destruct (String.eqb k' key); cbn [length]; lia.
Qed.

(** On a present key [set] replaces the entry where it is. *)
Lemma length_map_set_present {V : Type} key (v e : V) m :
  map_get key m = Some e -> length (map_set key v m) = length m.
Proof.
  induction m as [|[k' v0] m IH]; cbn [map_set map_get]; [discriminate|].
  destruct (String.eqb k' key); cbn [length]; [reflexivity|].
  intros H. rewrite (IH H). reflexivity.
Qed.

(** *** The response cache *)

Lemma map_get_setInCache {A : Type} key (v : A) now cache :
  map_get key (setInCache key v now cache) = Some {| response := v; timestamp := now |}.
Proof. unfold setInCache. apply map_get_set_same. Qed.

Lemma setInCache_invariant {A : Type} key (v : A) now cache :
  map_size cache <= MAX_CACHE_SIZE -> unique_keys cache ->
  map_size (setInCache key v now cache) <= MAX_CACHE_SIZE
  /\ unique_keys (setInCache key v now cache).
Proof.
  unfold setInCache, map_size, MAX_CACHE_SIZE. intros Hsize Hunique.
  destruct (Z.geb_spec (Z.of_nat (length cache)) 1000) as [Hfull|Hroom].
  - destruct cache as [|[firstKey e] rest]; [cbn in Hfull; lia|].
    rewrite (map_delete_first firstKey e rest Hunique).
    assert (Hrest : unique_keys rest).
    { unfold unique_keys in *. cbn [map] in Hunique.
      apply NoDup_cons_iff in Hunique as [_ H]. exact H. }
    split; [|apply unique_map_set; exact Hrest].
    pose proof (length_map_set key {| response := v; timestamp := now |} rest).
    cbn [length] in Hsize. lia.
  - split; [|apply unique_map_set; exact Hunique].
    pose proof (length_map_set key {| response := v; timestamp := now |} cache). lia.
Qed.

Lemma cache_step_invariant {A : Type} (c : Cache A) op :
  map_size c <= MAX_CACHE_SIZE -> unique_keys c ->
  map_size (cache_step c op) <= MAX_CACHE_SIZE /\ unique_keys (cache_step c op).
Proof.
  intros Hsize Hunique. destruct op as [key now|key value now|now]; cbn [cache_step].
  - assert (Hdel : map_size (map_delete key c) <= MAX_CACHE_SIZE
                   /\ unique_keys (map_delete key c)).
    { split; [|apply unique_filter; exact Hunique].
      unfold map_size in *. pose proof (length_filter_le
        (fun kv : string * CacheEntry A => negb (String.eqb (fst kv) key)) c) as Hle.
      unfold map_delete. lia. }
    unfold getFromCache. destruct (map_get key c) as [cached|]; [|exact Hdel].
    destruct (now - timestamp cached <? CACHE_TTL); [split; assumption|exact Hdel].
  - apply setInCache_invariant; assumption.
  - split; [|apply unique_filter; exact Hunique].
    unfold map_size, cleanup in *.
    pose proof (length_filter_le
      (fun kv : string * CacheEntry A => negb (now - timestamp (snd kv) >? CACHE_TTL)) c). lia.
Qed.

(** X16.  Whatever is looked up, stored and cleaned up, in whatever order
    and at whatever times, the cache never holds more than [MAX_CACHE_SIZE]
    entries, and never two for one key. *)
Theorem cache_never_exceeds_MAX_CACHE_SIZE {A : Type} (ops : list (CacheOp A)) :
  map_size (cache_run ops) <= 1000 /\ unique_keys (cache_run ops).
Proof.
  unfold cache_run.
  assert (H : forall c : Cache A,
             map_size c <= MAX_CACHE_SIZE -> unique_keys c ->
             map_size (fold_left cache_step ops c) <= MAX_CACHE_SIZE
             /\ unique_keys (fold_left cache_step ops c)).
  { induction ops as [|op ops IH]; intros c Hsize Hunique; cbn [fold_left].
    - split; assumption.
    - destruct (cache_step_invariant c op Hsize Hunique) as [H1 H2]. apply IH; assumption. }
  apply H; [unfold map_size, MAX_CACHE_SIZE; cbn [length]; lia|constructor].
Qed.

(** X17.  A stored response is served for five minutes: a lookup of the
    key finds it as long as less than 300000 ms have passed on the clock,
    whatever the cache held before, and from then on finds nothing and
    removes the entry. *)
Theorem stored_response_is_served_for_five_minutes
    {A : Type} (key : string) (value : A) (now later : Z) (cache : Cache A) :
  getFromCache key later (setInCache key value now cache)
  = if later - now <? 300000
    then (Some value, setInCache key value now cache)
    else (None, map_delete key (setInCache key value now cache)).
Proof.
  unfold getFromCache. rewrite map_get_setInCache. reflexivity.
Qed.

(** X18.  Eviction goes by insertion, not by use.  In a full cache the
    entry that was stored first is the one that a new key drives out, also
    when that entry is fresh and has just been read; every other entry
    stays. *)
Theorem eviction_ignores_reads
    {A : Type} (firstKey : string) (first : CacheEntry A) (rest : Cache A)
    (key : string) (value : A) (now : Z) :
  MAX_CACHE_SIZE <= map_size ((firstKey, first) :: rest) ->
  key <> firstKey ->
  now - timestamp first < CACHE_TTL ->
  getFromCache firstKey now ((firstKey, first) :: rest)
  = (Some (response first), (firstKey, first) :: rest)
  /\ map_get firstKey (setInCache key value now ((firstKey, first) :: rest)) = None
  /\ (forall k, k <> firstKey -> k <> key ->
        map_get k (setInCache key value now ((firstKey, first) :: rest))
        = map_get k ((firstKey, first) :: rest)).
Proof.
  intros Hfull Hkey Hfresh. split; [|split].
  - unfold getFromCache. cbn [map_get]. rewrite String.eqb_refl.
    destruct (Z.ltb_spec (now - timestamp first) CACHE_TTL); [reflexivity|lia].
  - unfold setInCache. destruct (Z.geb_spec (map_size ((firstKey, first) :: rest)) MAX_CACHE_SIZE);
      [|lia].
    rewrite map_get_set_other by congruence. apply map_get_delete_same.
  - intros k Hk1 Hk2. unfold setInCache.
    destruct (Z.geb_spec (map_size ((firstKey, first) :: rest)) MAX_CACHE_SIZE); [|lia].
    rewrite map_get_set_other by exact Hk2. apply map_get_delete_other. exact Hk1.
Qed.

Lemma eviction_ignores_reads_witness :
  getFromCache "0" 1000 full_cache = (Some 0, full_cache)
  /\ map_get "0" (setInCache "new" 7 1000 full_cache) = None.
Proof.
  destruct (eviction_ignores_reads "0" {| response := 0; timestamp := 0 |} (tl full_cache)
              "new" 7 1000) as (H1 & H2 & _).
  - vm_compute. discriminate.
  - discriminate.
  - vm_compute. reflexivity.
  - split; [exact H1|exact H2].
Defined.

Lemma distinct_unique {V : Type} (m : Map V) : distinct (map fst m) = true -> unique_keys m.
Proof.
  unfold unique_keys. induction (map fst m) as [|k keys IH]; intros H; [constructor|].
  cbn [distinct] in H. apply andb_prop in H as [Hk Hrest].
  apply NoDup_cons_iff. split; [|exact (IH Hrest)].
  intros Hin. apply negb_true_iff in Hk.
  assert (Hex : existsb (String.eqb k) keys = true).
  { apply existsb_exists. exists k. split; [exact Hin|apply String.eqb_refl]. }
  congruence.
Qed.

(** X19.  Storing again under a key that a full cache already holds still
    drives out the oldest entry, though no room is needed: the cache ends
    with one entry fewer. *)
Theorem restoring_in_a_full_cache_evicts
    {A : Type} (firstKey : string) (first : CacheEntry A) (rest : Cache A)
    (key : string) (held : CacheEntry A) (value : A) (now : Z) :
  unique_keys ((firstKey, first) :: rest) ->
  map_size ((firstKey, first) :: rest) = MAX_CACHE_SIZE ->
  key <> firstKey ->
  map_get key rest = Some held ->
  map_size (setInCache key value now ((firstKey, first) :: rest)) = MAX_CACHE_SIZE - 1
  /\ map_get firstKey (setInCache key value now ((firstKey, first) :: rest)) = None.
Proof.
  intros Hunique Hfull Hkey Hheld. unfold setInCache.
  destruct (Z.geb_spec (map_size ((firstKey, first) :: rest)) MAX_CACHE_SIZE); [|lia].
  rewrite (map_delete_first firstKey first rest Hunique). split.
  - unfold map_size in *. rewrite (length_map_set_present _ _ _ _ Hheld).
    cbn [length] in Hfull. lia.
  - rewrite map_get_set_other by congruence. apply map_get_absent.
    unfold unique_keys in Hunique. cbn [map fst] in Hunique.
    apply NoDup_cons_iff in Hunique as [Hnot _]. exact Hnot.
Qed.

Lemma restoring_in_a_full_cache_evicts_witness :
  map_size (setInCache "5" 7 1000 full_cache) = 999
  /\ map_get "0" (setInCache "5" 7 1000 full_cache) = None.
Proof.
  apply (restoring_in_a_full_cache_evicts "0" {| response := 0; timestamp := 0 |}
           (tl full_cache) "5" {| response := 5; timestamp := 0 |} 7 1000).
  - apply (distinct_unique full_cache). vm_compute. reflexivity.
  - vm_compute. reflexivity.
  - discriminate.
  - vm_compute. reflexivity.
Defined.

(** *** Providers *)

Lemma map_get_In {V : Type} key (v : V) m : map_get key m = Some v -> In (key, v) m.
Proof.
  induction m as [|[k v0] m IH]; cbn [map_get]; [discriminate|].
  destruct (String.eqb_spec k key) as [->|Hne].
  - intros [= ->]. left. reflexivity.
  - intros H. right. exact (IH H).
Qed.

Lemma first_preferred_enabled preferences providers key :
  first_preferred preferences providers = Some key ->
  exists config, In (key, config) providers /\ enabled config = true.
Proof.
  induction preferences as [|pref rest IH]; cbn [first_preferred]; [discriminate|].
  destruct (map_get pref providers) as [config|] eqn:Hget; [|exact IH].
  destruct (enabled config) eqn:Hen; [|exact IH].
  intros [= <-]. exists config. split; [apply map_get_In; exact Hget|exact Hen].
Qed.

Lemma first_enabled_enabled providers key :
  first_enabled providers = Some key ->
  exists config, In (key, config) providers /\ enabled config = true.
Proof.
  induction providers as [|[k config] rest IH]; cbn [first_enabled]; [discriminate|].
  destruct (enabled config) eqn:Hen.
  - intros [= <-]. exists config. split; [left; reflexivity|exact Hen].
  - intros H. destruct (IH H) as (c & Hin & Hc). exists c. split; [right; exact Hin|exact Hc].
Qed.

Lemma first_enabled_none providers :
  first_enabled providers = None ->
  Forall (fun kv => enabled (snd kv) = false) providers.
Proof.
  induction providers as [|[k config] rest IH]; cbn [first_enabled]; [constructor|].
  destruct (enabled config) eqn:Hen; [discriminate|].
  intros H. constructor; [exact Hen|exact (IH H)].
Qed.

Lemma first_preferred_skips before pref after providers config :
  Forall (fun p => forall c, map_get p providers = Some c -> enabled c = false) before ->
  map_get pref providers = Some config -> enabled config = true ->
  first_preferred (before ++ pref :: after) providers = Some pref.
Proof.
  intros Hbefore Hget Hen. induction Hbefore as [|p before Hp _ IH]; cbn [app first_preferred].
  - rewrite Hget, Hen. reflexivity.
  - destruct (map_get p providers) as [c|] eqn:Hc; [|exact IH].
    rewrite (Hp c eq_refl). exact IH.
Qed.

(** X20.  [selectBestProvider] returns a key of the map whose provider is
    enabled, the earliest enabled one of the preferences if there is one;
    it throws exactly when no provider is enabled.  The [priority] of a
    provider plays no part. *)
Theorem selectBestProvider_returns_an_enabled_provider
    (preferences : list string) (providers : Map AIProviderConfig) :
  match selectBestProvider preferences providers with
  | Returned key => exists config, In (key, config) providers /\ enabled config = true
  | Thrown message =>
      message = "No AI provider available"
      /\ Forall (fun kv => enabled (snd kv) = false) providers
  end
  /\ (forall before pref after config,
        preferences = before ++ pref :: after ->
        Forall (fun p => forall c, map_get p providers = Some c -> enabled c = false) before ->
        map_get pref providers = Some config -> enabled config = true ->
        selectBestProvider preferences providers = Returned pref).
Proof.
  split.
  - unfold selectBestProvider.
    destruct (first_preferred preferences providers) as [pref|] eqn:Hpref.
    + exact (first_preferred_enabled _ _ _ Hpref).
    + destruct (first_enabled providers) as [key|] eqn:Hfirst.
      * exact (first_enabled_enabled _ _ Hfirst).
      * split; [reflexivity|exact (first_enabled_none _ Hfirst)].
  - intros before pref after config -> Hbefore Hget Hen. unfold selectBestProvider.
    rewrite (first_preferred_skips before pref after providers config Hbefore Hget Hen).
    reflexivity.
Qed.

(** X21.  What [provider: 'auto'] selects on the gateway as constructed:
    Anthropic when its key is set, although OpenAI has the smaller
    [priority] number; otherwise OpenAI, then Hugging Face, then Google,
    the last two being providers that [chatCompletion] has no client for. *)
Theorem auto_selects_by_configured_keys (env : Env) :
  selectBestProvider ["anthropic"; "openai"] (providers (create env))
  = if is_set (ANTHROPIC_API_KEY env) then Returned "anthropic"
    else if is_set (OPENAI_API_KEY env) then Returned "openai"
    else if is_set (HUGGINGFACE_API_KEY env) then Returned "huggingface"
    else if is_set (GOOGLE_AI_API_KEY env) then Returned "google"
    else Thrown "No AI provider available".
Proof.
  destruct env as [o a h g]. unfold create, initializeProviders, configure, is_set.
  cbn [providers OPENAI_API_KEY ANTHROPIC_API_KEY HUGGINGFACE_API_KEY GOOGLE_AI_API_KEY].
  destruct o as [o|]; [destruct (String.eqb o "")|];
    (destruct a as [a|]; [destruct (String.eqb a "")|]);
    (destruct h as [h|]; [destruct (String.eqb h "")|]);
    (destruct g as [g|]; [destruct (String.eqb g "")|]); reflexivity.
Qed.

(** *** Chat completion *)

Lemma count_of_bump_same key counts :
  count_of key (bump_count key counts) = count_of key counts + 1.
Proof. unfold count_of, bump_count. rewrite lookup_insert_eq. reflexivity. Qed.

Lemma count_of_bump_other k key counts :
  k <> key -> count_of k (bump_count key counts) = count_of k counts.
Proof.
  intros Hne. unfold count_of, bump_count. rewrite lookup_insert_ne by congruence. reflexivity.
Qed.

Lemma answer_of_provider p replies r :
  answer_of p replies = Returned r ->
  (awaited p = Claude /\ response_provider r = "anthropic")
  \/ (awaited p = OpenAI /\ response_provider r = "openai").
Proof.
  unfold answer_of, chatWithClaude, chatWithOpenAI.
  destruct (awaited p).
  - destruct (claude_reply replies); [|discriminate]. intros [= <-]. left. split; reflexivity.
  - destruct (openai_reply replies); [|discriminate]. intros [= <-]. right. split; reflexivity.
Qed.

(** What a call leaves untouched and what it counts, up to its [await]. *)
Lemma chatCompletion_start_counts stringify g now request :
  let res := chatCompletion_start stringify g now request in
  providers (snd res) = providers g
  /\ anthropicClient (snd res) = anthropicClient g
  /\ openaiClient (snd res) = openaiClient g
  /\ totalRequests (stats (snd res)) = totalRequests (stats g) + 1
  /\ successfulRequests (stats (snd res)) = successfulRequests (stats g)
  /\ requestsByProvider (stats (snd res)) = requestsByProvider (stats g)
  /\ ended (stats (snd res))
     = ended (stats g) + match fst res with inl _ => 1 | inr _ => 0 end.
Proof.
  unfold chatCompletion_start, ended.
  destruct (getFromCache _ _ _) as [[r|] c]; cbn.
  - repeat split; lia.
  - destruct (requested_provider _ request) as [provider|message]; cbn.
    + destruct (dispatch _ provider) as [a|message]; cbn; repeat split; lia.
    + repeat split; lia.
Qed.

Lemma chatCompletion_resume_counts g now p answer :
  let res := chatCompletion_resume g now p answer in
  providers (snd res) = providers g
  /\ anthropicClient (snd res) = anthropicClient g
  /\ openaiClient (snd res) = openaiClient g
  /\ totalRequests (stats (snd res)) = totalRequests (stats g)
  /\ ended (stats (snd res)) = ended (stats g) + 1
  /\ match answer with
     | Returned r =>
         successfulRequests (stats (snd res)) = successfulRequests (stats g) + 1
         /\ requestsByProvider (stats (snd res))
            = bump_count (response_provider r) (requestsByProvider (stats g))
     | Thrown _ =>
         successfulRequests (stats (snd res)) = successfulRequests (stats g)
         /\ requestsByProvider (stats (snd res)) = requestsByProvider (stats g)
     end.
Proof.
  unfold chatCompletion_resume, ended. destruct answer as [r|message]; cbn; repeat split; lia.
Qed.

Lemma openai_imported_counts g :
  providers (openai_imported g) = providers g
  /\ anthropicClient (openai_imported g) = anthropicClient g
  /\ stats (openai_imported g) = stats g
  /\ cache (openai_imported g) = cache g.
Proof.
  unfold openai_imported. destruct (map_get "openai" (providers g)); repeat split.
Qed.

Lemma counts_split_bump provider successful counts :
  provider = "anthropic" \/ provider = "openai" ->
  successful = count_of "anthropic" counts + count_of "openai" counts ->
  successful + 1
  = count_of "anthropic" (bump_count provider counts)
    + count_of "openai" (bump_count provider counts).
Proof.
  intros [-> | ->] H.
  - rewrite count_of_bump_same, count_of_bump_other by discriminate. lia.
  - rewrite count_of_bump_same, count_of_bump_other by discriminate. lia.
Qed.

(** One event keeps the accounts, unless it is a reset. *)
Lemma gateway_step_accounts stringify g waiting ev g' waiting' :
  is_reset ev = false ->
  gateway_step stringify (g, waiting) ev = (g', waiting') ->
  totalRequests (stats g) = ended (stats g) + Z.of_nat (length waiting) ->
  successfulRequests (stats g)
  = count_of "anthropic" (requestsByProvider (stats g))
    + count_of "openai" (requestsByProvider (stats g)) ->
  totalRequests (stats g') = ended (stats g') + Z.of_nat (length waiting')
  /\ successfulRequests (stats g')
     = count_of "anthropic" (requestsByProvider (stats g'))
       + count_of "openai" (requestsByProvider (stats g')).
Proof.
  intros Hreset Hstep Htotal Hsplit.
  destruct ev as [now request|n now replies| |now|]; cbn [gateway_step] in Hstep;
    [| | | |discriminate Hreset].
  - pose proof (chatCompletion_start_counts stringify g now request) as Hc. cbv zeta in Hc.
    destruct (chatCompletion_start stringify g now request) as [[outcome|p] g1].
    + injection Hstep as <- <-. cbn [fst snd] in Hc.
      destruct Hc as (_ & _ & _ & H1 & H2 & H3 & H4). rewrite H2, H3. split; [lia|exact Hsplit].
    + injection Hstep as <- <-. cbn [fst snd] in Hc.
      destruct Hc as (_ & _ & _ & H1 & H2 & H3 & H4). rewrite H2, H3.
      split; [rewrite length_app; cbn [length]; lia|exact Hsplit].
  - destruct (nth_error waiting n) as [p|] eqn:Hp.
    + injection Hstep as <- <-.
      pose proof (chatCompletion_resume_counts g now p (answer_of p replies)) as Hc.
      cbv zeta in Hc. destruct Hc as (_ & _ & _ & H1 & H2 & H3).
      assert (Hn : (n < length waiting)%nat).
      { apply nth_error_Some. rewrite Hp. discriminate. }
      pose proof (Orchestrator.drop_nth_length n waiting Hn) as Hlen.
      split; [lia|].
      destruct (answer_of p replies) as [r|message] eqn:Hanswer.
      * destruct H3 as [H3 H4]. rewrite H3, H4. apply counts_split_bump; [|exact Hsplit].
        destruct (answer_of_provider p replies r Hanswer) as [[_ E]|[_ E]];
          [left|right]; exact E.
      * destruct H3 as [H3 H4]. rewrite H3, H4. exact Hsplit.
    + injection Hstep as <- <-. split; assumption.
  - injection Hstep as <- <-.
    destruct (openai_imported_counts g) as (_ & _ & -> & _). split; assumption.
  - injection Hstep as <- <-. split; assumption.
Qed.

(** X22.  The counters of [chatCompletion] add up.  As long as
    [resetStats] is not called, however the calls interleave and whatever
    the providers answer, every call made is counted exactly once as
    served from the cache, failed or successful, or is still waiting for
    its provider; and every successful call is counted under the provider
    that answered it. *)
Theorem every_call_is_counted_once
    (stringify : string -> ChatCompletionRequest -> list Z) (env : Env)
    (events : list Event) (g : UnifiedAIGatewayService) (waiting : list Pending) :
  forallb (fun ev => negb (is_reset ev)) events = true ->
  gateway_run stringify env events = (g, waiting) ->
  totalRequests (stats g)
  = successfulRequests (stats g) + failedRequests (stats g) + cachedResponses (stats g)
    + Z.of_nat (length waiting)
  /\ successfulRequests (stats g)
     = count_of "anthropic" (requestsByProvider (stats g))
       + count_of "openai" (requestsByProvider (stats g)).
Proof.
  unfold gateway_run. change (successfulRequests (stats g) + failedRequests (stats g)
                              + cachedResponses (stats g)) with (ended (stats g)).
  assert (H : forall g0 waiting0,
             totalRequests (stats g0) = ended (stats g0) + Z.of_nat (length waiting0) ->
             successfulRequests (stats g0)
             = count_of "anthropic" (requestsByProvider (stats g0))
               + count_of "openai" (requestsByProvider (stats g0)) ->
             forallb (fun ev => negb (is_reset ev)) events = true ->
             fold_left (gateway_step stringify) events (g0, waiting0) = (g, waiting) ->
             totalRequests (stats g) = ended (stats g) + Z.of_nat (length waiting)
             /\ successfulRequests (stats g)
                = count_of "anthropic" (requestsByProvider (stats g))
                  + count_of "openai" (requestsByProvider (stats g))).
  { induction events as [|ev events IH]; intros g0 waiting0 H1 H2 Hno Hrun.
    - injection Hrun as <- <-. split; assumption.
    - cbn [forallb] in Hno. apply andb_prop in Hno as [Hev Hno].
      apply negb_true_iff in Hev. cbn [fold_left] in Hrun.
      destruct (gateway_step stringify (g0, waiting0) ev) as [g1 waiting1] eqn:Hstep.
      destruct (gateway_step_accounts stringify g0 waiting0 ev g1 waiting1 Hev Hstep H1 H2)
        as [H1' H2'].
      exact (IH g1 waiting1 H1' H2' Hno Hrun). }
  intros Hno Hrun. exact (H (create env) [] eq_refl eq_refl Hno Hrun).
Qed.

Lemma every_call_is_counted_once_witness :
  let '(g, waiting) :=
    gateway_run stringify_plain sample_env
      [Call (clock_from 0) (sample_request "hello" None);
       Call (clock_from 5) (sample_request "hello" (Some "auto"));
       Settle 1 (clock_from 10) sample_replies;
       Call (clock_from 20) (sample_request "hello" (Some "auto"))] in
  totalRequests (stats g)
  = successfulRequests (stats g) + failedRequests (stats g) + cachedResponses (stats g)
    + Z.of_nat (length waiting)
  /\ successfulRequests (stats g)
     = count_of "anthropic" (requestsByProvider (stats g))
       + count_of "openai" (requestsByProvider (stats g)).
Proof.
  destruct (gateway_run _ _ _) as [g waiting] eqn:Hrun.
  refine (every_call_is_counted_once stringify_plain sample_env _ g waiting _ Hrun).
  reflexivity.
Defined.

(** X23.  [resetStats] does not wait for the calls in flight: a call that
    ends after a reset is counted as ended in counters that do not count it
    as made. *)
Theorem resetStats_forgets_waiting_calls
    (g : UnifiedAIGatewayService) (now : nat -> Z) (p : Pending)
    (answer : Outcome ChatCompletionResponse) :
  totalRequests (stats (snd (chatCompletion_resume (resetStats g) now p answer))) = 0
  /\ ended (stats (snd (chatCompletion_resume (resetStats g) now p answer))) = 1.
Proof. destruct answer as [r|message]; split; reflexivity. Qed.

Lemma openai_configured env :
  map_get "openai" (initializeProviders env []) <> None ->
  is_set (OPENAI_API_KEY env) = true.
Proof.
  destruct env as [o a h g]. unfold initializeProviders, configure, is_set.
  cbn [OPENAI_API_KEY ANTHROPIC_API_KEY HUGGINGFACE_API_KEY GOOGLE_AI_API_KEY].
  destruct o as [o|]; [destruct (String.eqb o "")|];
    (destruct a as [a|]; [destruct (String.eqb a "")|]);
    (destruct h as [h|]; [destruct (String.eqb h "")|]);
    (destruct g as [g|]; [destruct (String.eqb g "")|]); cbn; congruence.
Qed.

Lemma anthropic_selected env :
  is_set (ANTHROPIC_API_KEY env) = true ->
  selectBestProvider ["anthropic"; "openai"] (initializeProviders env []) = Returned "anthropic".
Proof.
  destruct env as [o a h g]. unfold initializeProviders, configure, is_set.
  cbn [OPENAI_API_KEY ANTHROPIC_API_KEY HUGGINGFACE_API_KEY GOOGLE_AI_API_KEY].
  destruct o as [o|]; [destruct (String.eqb o "")|];
    (destruct a as [a|]; [destruct (String.eqb a "")|]);
    (destruct h as [h|]; [destruct (String.eqb h "")|]);
    (destruct g as [g|]; [destruct (String.eqb g "")|]); cbn; congruence.
Qed.

Lemma gateway_step_configured stringify env g waiting ev :
  configured env g -> configured env (fst (gateway_step stringify (g, waiting) ev)).
Proof.
  intros (Hp & Ha & Ho).
  destruct ev as [now request|n now replies| |now|]; cbn [gateway_step].
  - pose proof (chatCompletion_start_counts stringify g now request) as Hc. cbv zeta in Hc.
    destruct (chatCompletion_start stringify g now request) as [[outcome|p] g1];
      cbn [fst snd] in *; destruct Hc as (H1 & H2 & H3 & _);
      (split; [congruence|split; [congruence|rewrite H3; exact Ho]]).
  - destruct (nth_error waiting n) as [p|]; cbn [fst]; [|split; [|split]; assumption].
    pose proof (chatCompletion_resume_counts g now p (answer_of p replies)) as Hc.
    cbv zeta in Hc. destruct Hc as (H1 & H2 & H3 & _).
    split; [congruence|split; [congruence|rewrite H3; exact Ho]].
  - cbn [fst]. unfold openai_imported.
    destruct (map_get "openai" (providers g)) eqn:Hget; [|split; [|split]; assumption].
    split; [exact Hp|split; [exact Ha|]]. cbn [openaiClient]. intros _.
    apply openai_configured. rewrite <- Hp, Hget. discriminate.
  - split; [|split]; assumption.
  - split; [|split]; assumption.
Qed.

Lemma gateway_run_configured stringify env events :
  configured env (fst (gateway_run stringify env events)).
Proof.
  unfold gateway_run.
  assert (H : forall st, configured env (fst st) ->
                         configured env (fst (fold_left (gateway_step stringify) events st))).
  { induction events as [|ev events IH]; intros st Hst; [exact Hst|].
    cbn [fold_left]. apply IH. destruct st as [g waiting].
    apply gateway_step_configured. exact Hst. }
  apply H. cbn [fst]. split; [reflexivity|split; [reflexivity|discriminate]].
Qed.

(** X24.  A request is served by its key alone.  Whenever the cache holds,
    under the key of the request, an entry that was stored less than five
    minutes before the lookup, whichever request stored it (the same one or
    another that hashes alike) and whatever happened in between, the call
    returns the response of that entry, marked as cached and with its own
    processing time; no provider is asked, the cache is left as it was and
    one cached response is counted.  Every call that a provider answered
    leaves such an entry under its own key, stamped with the clock at the
    store. *)
Theorem same_key_is_served_from_cache
    (stringify : string -> ChatCompletionRequest -> list Z)
    (g : UnifiedAIGatewayService) (later : nat -> Z) (request : ChatCompletionRequest)
    (entry : CacheEntry ChatCompletionResponse) :
  map_get (generateCacheKey stringify "chat" request) (cache g) = Some entry ->
  later 1%nat - timestamp entry < CACHE_TTL ->
  fst (chatCompletion_start stringify g later request)
  = inl (Returned (served (response entry) (later 2%nat - later 0%nat)))
  /\ cache (snd (chatCompletion_start stringify g later request)) = cache g
  /\ cachedResponses (stats (snd (chatCompletion_start stringify g later request)))
     = cachedResponses (stats g) + 1
  /\ (forall g0 now p r,
        map_get (cacheKey p) (cache (snd (chatCompletion_resume g0 now p (Returned r))))
        = Some {| response := answered r (now 0%nat - startTime p);
                  timestamp := now 1%nat |}).
Proof.
  intros Hentry Hfresh. unfold chatCompletion_start.
  cbn [set_cache set_stats cache stats]. unfold getFromCache. rewrite Hentry.
  destruct (Z.ltb_spec (later 1%nat - timestamp entry) CACHE_TTL) as [_|Hno]; [|lia].
  cbn. split; [reflexivity|]. split; [reflexivity|]. split; [reflexivity|].
  intros g0 now p r. apply map_get_setInCache.
Qed.

Lemma same_key_is_served_from_cache_witness :
  fst (chatCompletion_start stringify_plain
         (snd (chatCompletion_resume (create sample_env) (clock_from 10)
                 {| pending_request := sample_request "Aa" (Some "auto"); startTime := 0;
                    cacheKey := "ai:chat:26649cf0"; awaited := Claude |}
                 (chatWithClaude (sample_request "Aa" (Some "auto")) (Returned sample_message))))
         (clock_from 20) (sample_request "BB" (Some "auto")))
  = inl (Returned
           (served {| response_content := "hello";
                      response_model := "claude-3-5-sonnet-20241022";
                      response_provider := "anthropic";
                      usage := {| promptTokens := 12; completionTokens := 7;
                                  totalTokens := 19 |};
                      finishReason := "end_turn"; cached := false; processingTime := 10 |}
              2)).
Proof.
  apply (same_key_is_served_from_cache stringify_plain
           (snd (chatCompletion_resume (create sample_env) (clock_from 10)
                   {| pending_request := sample_request "Aa" (Some "auto"); startTime := 0;
                      cacheKey := "ai:chat:26649cf0"; awaited := Claude |}
                   (chatWithClaude (sample_request "Aa" (Some "auto"))
                      (Returned sample_message))))
           (clock_from 20) (sample_request "BB" (Some "auto"))
           {| response :=
                {| response_content := "hello";
                   response_model := "claude-3-5-sonnet-20241022";
                   response_provider := "anthropic";
                   usage := {| promptTokens := 12; completionTokens := 7; totalTokens := 19 |};
                   finishReason := "end_turn"; cached := false; processingTime := 10 |};
              timestamp := 11 |}).
  - vm_compute. reflexivity.
  - vm_compute. reflexivity.
Defined.

Lemma dispatch_claude g provider :
  anthropicClient g = true -> openaiClient g = false -> dispatch g provider = Returned Claude.
Proof.
  intros Ha Ho. unfold dispatch. rewrite Ha, Ho.
  destruct (String.eqb provider "anthropic"), (String.eqb provider "openai"); reflexivity.
Qed.

(** X25.  With the Anthropic key set and the OpenAI key not, every chat
    request that misses the cache is answered by Claude, whatever provider
    it names, and with the model it names: a request for
    [provider: 'openai'] with an OpenAI model name is sent to Anthropic
    under that name, and the response says so.  Its processing time runs
    from the first reading of the clock to the one after the answer, which
    is the second reading when the cache had no entry for the key and the
    third when it had one that was too old. *)
Theorem claude_answers_when_openai_is_absent
    (stringify : string -> ChatCompletionRequest -> list Z) (env : Env)
    (events : list Event) (now : nat -> Z) (request : ChatCompletionRequest)
    (replies : Replies) (m : AnthropicMessage) :
  is_set (ANTHROPIC_API_KEY env) = true ->
  is_set (OPENAI_API_KEY env) = false ->
  fst (getFromCache (generateCacheKey stringify "chat" request) (now 1%nat)
         (cache (fst (gateway_run stringify env events)))) = None ->
  claude_reply replies = Returned m ->
  exists r,
    fst (chatCompletion stringify (fst (gateway_run stringify env events)) now request replies)
    = Returned r
    /\ response_provider r = "anthropic"
    /\ response_model r = string_or (request_model request) "claude-3-5-sonnet-20241022"
    /\ cached r = false
    /\ processingTime r
       = match map_get (generateCacheKey stringify "chat" request)
                 (cache (fst (gateway_run stringify env events))) with
         | Some _ => now 2%nat
         | None => now 1%nat
         end - now 0%nat.
Proof.
  intros Hanthropic Hopenai Hmiss Hreply.
  destruct (gateway_run_configured stringify env events) as (Hp & Ha & Ho).
  set (g := fst (gateway_run stringify env events)) in *.
  assert (Ha' : anthropicClient g = true) by congruence.
  assert (Ho' : openaiClient g = false).
  { destruct (openaiClient g); [|reflexivity]. rewrite Ho in Hopenai by reflexivity.
    discriminate. }
  unfold chatCompletion, chatCompletion_start, readings_before_await.
  cbn [set_stats cache stats] in *.
  destruct (getFromCache _ _ (cache g)) as [hit c]. cbn [fst] in Hmiss. subst hit.
  assert (Hprovider : exists provider,
             requested_provider
               (set_cache (set_stats g (count_request (stats g))) c) request
             = Returned provider).
  { unfold requested_provider. cbn [set_cache set_stats providers].
    destruct (match request_provider request with
              | Some provider => String.eqb provider "auto"
              | None => false
              end).
    - exists "anthropic". rewrite Hp. apply anthropic_selected. exact Hanthropic.
    - eexists. reflexivity. }
  destruct Hprovider as [provider ->].
  rewrite dispatch_claude by (cbn; assumption).
  unfold answer_of. cbn [awaited pending_request]. rewrite Hreply.
  cbn [chatWithClaude chatCompletion_resume fst]. eexists. split; [reflexivity|].
  cbn [response_provider response_model cached processingTime startTime].
  split; [reflexivity|]. split; [reflexivity|]. split; [reflexivity|].
  destruct (map_get _ (cache g)); cbn [Nat.add]; reflexivity.
Qed.

Lemma claude_answers_when_openai_is_absent_witness :
  exists r,
    fst (chatCompletion stringify_plain (fst (gateway_run stringify_plain sample_env []))
           (clock_from 0)
           {| messages := [{| role := user; content := "hi" |}];
              request_model := Some "gpt-4o"; request_provider := Some "openai";
              request_feature := None |}
           sample_replies)
    = Returned r
    /\ response_provider r = "anthropic"
    /\ response_model r = string_or (Some "gpt-4o") "claude-3-5-sonnet-20241022"
    /\ cached r = false
    /\ processingTime r = 1.
Proof.
  apply (claude_answers_when_openai_is_absent stringify_plain sample_env [] (clock_from 0)
           {| messages := [{| role := user; content := "hi" |}];
              request_model := Some "gpt-4o"; request_provider := Some "openai";
              request_feature := None |}
           sample_replies sample_message).
  - reflexivity.
  - reflexivity.
  - reflexivity.
  - reflexivity.
Defined.

Lemma selectBestProvider_message preferences providers message :
  selectBestProvider preferences providers = Thrown message ->
  message = "No AI provider available".
Proof.
  unfold selectBestProvider. destruct (first_preferred preferences providers); [discriminate|].
  destruct (first_enabled providers); [discriminate|]. intros [= <-]. reflexivity.
Qed.

Lemma start_without_clients stringify g now request :
  anthropicClient g = false -> openaiClient g = false -> cache g = [] ->
  fst (chatCompletion_start stringify g now request)
  = inl (Thrown "No AI provider available")
  /\ cache (snd (chatCompletion_start stringify g now request)) = []
  /\ successfulRequests (stats (snd (chatCompletion_start stringify g now request)))
     = successfulRequests (stats g)
  /\ failedRequests (stats (snd (chatCompletion_start stringify g now request)))
     = failedRequests (stats g) + 1.
Proof.
  intros Ha Ho Hcache. unfold chatCompletion_start. cbn [set_stats cache stats].
  rewrite Hcache. cbn [getFromCache map_get map_delete List.filter].
  destruct (requested_provider _ request) as [provider|message] eqn:Hprovider.
  - unfold dispatch. cbn [set_cache set_stats anthropicClient openaiClient].
    rewrite Ha, Ho, !andb_false_r. cbn. repeat split.
  - unfold requested_provider in Hprovider.
    destruct (match request_provider request with
              | Some provider => String.eqb provider "auto"
              | None => false
              end); [|discriminate].
    apply selectBestProvider_message in Hprovider. subst message. cbn. repeat split.
Qed.

(** X26.  Without the Anthropic and the OpenAI key no chat request is ever
    answered: every call throws [No AI provider available] and is counted
    as failed, also when Hugging Face or Google are configured and
    [selectBestProvider] names one of them for [provider: 'auto']. *)
Theorem no_client_no_answer
    (stringify : string -> ChatCompletionRequest -> list Z) (env : Env)
    (events : list Event) (now : nat -> Z) (request : ChatCompletionRequest) :
  is_set (ANTHROPIC_API_KEY env) = false ->
  is_set (OPENAI_API_KEY env) = false ->
  fst (chatCompletion_start stringify (fst (gateway_run stringify env events)) now request)
  = inl (Thrown "No AI provider available")
  /\ snd (gateway_run stringify env events) = []
  /\ successfulRequests (stats (fst (gateway_run stringify env events))) = 0
  /\ failedRequests (stats (fst (gateway_run stringify env events)))
     = totalRequests (stats (fst (gateway_run stringify env events))).
Proof.
  intros Hanthropic Hopenai.
  destruct (gateway_run_configured stringify env events) as (Hp & Ha & Ho).
  assert (H : forall st,
             cache (fst st) = [] -> snd st = [] ->
             anthropicClient (fst st) = false -> openaiClient (fst st) = false ->
             map_get "openai" (providers (fst st)) = None ->
             successfulRequests (stats (fst st)) = 0 ->
             failedRequests (stats (fst st)) = totalRequests (stats (fst st)) ->
             let st' := fold_left (gateway_step stringify) events st in
             cache (fst st') = [] /\ snd st' = []
             /\ anthropicClient (fst st') = false /\ openaiClient (fst st') = false
             /\ successfulRequests (stats (fst st')) = 0
             /\ failedRequests (stats (fst st')) = totalRequests (stats (fst st'))).
  { clear Hp Ha Ho. induction events as [|ev events IH];
      intros [g waiting] Hc Hw Hac Hoc Hget Hs Hf; cbn [fst snd] in *.
    - cbv zeta. cbn [fold_left fst snd]. repeat split; assumption.
    - cbv zeta. cbn [fold_left]. subst waiting.
      destruct ev as [now' request'|n now' replies| |now'|]; cbn [gateway_step].
      + pose proof (start_without_clients stringify g now' request' Hac Hoc Hc)
          as (H1 & H2 & H3 & H4).
        pose proof (chatCompletion_start_counts stringify g now' request') as Hk.
        cbv zeta in Hk. destruct Hk as (K1 & K2 & K3 & K4 & _).
        destruct (chatCompletion_start stringify g now' request') as [[outcome|p] g1];
          cbn [fst snd] in *; [|discriminate H1].
        apply IH; cbn [fst snd]; first [reflexivity|congruence|lia].
      + destruct n; cbn [nth_error]; apply IH; cbn [fst snd]; first [assumption|reflexivity].
      + unfold openai_imported. rewrite Hget. apply IH; cbn [fst snd];
          first [assumption|reflexivity].
      + apply IH; cbn [fst snd set_cache cache providers anthropicClient openaiClient stats];
          try first [assumption|reflexivity]. rewrite Hc. reflexivity.
      + apply IH; cbn [fst snd resetStats set_stats cache providers anthropicClient
                         openaiClient stats]; first [assumption|reflexivity]. }
  assert (Hnone : map_get "openai" (initializeProviders env []) = None).
  { destruct (map_get "openai" (initializeProviders env [])) eqn:Hget; [|reflexivity].
    assert (Hset : is_set (OPENAI_API_KEY env) = true).
    { apply openai_configured. rewrite Hget. discriminate. }
    congruence. }
  specialize (H (create env, []) eq_refl eq_refl Hanthropic eq_refl Hnone eq_refl eq_refl).
  cbv zeta in H. fold (gateway_run stringify env events) in H.
  destruct H as (Hc & Hw & Hac & Hoc & Hs & Hf).
  split; [|split; [exact Hw|split; [exact Hs|exact Hf]]].
  apply (start_without_clients stringify _ now request Hac Hoc Hc).
Qed.

Lemma no_client_no_answer_witness :
  fst (chatCompletion_start stringify_plain
         (fst (gateway_run stringify_plain
                 {| OPENAI_API_KEY := None; ANTHROPIC_API_KEY := Some "";
                    HUGGINGFACE_API_KEY := Some "hf"; GOOGLE_AI_API_KEY := Some "g" |}
                 [Call (clock_from 0) (sample_request "hello" None); Imported]))
         (clock_from 5) (sample_request "hello" (Some "auto")))
  = inl (Thrown "No AI provider available").
Proof.
  apply (no_client_no_answer stringify_plain
           {| OPENAI_API_KEY := None; ANTHROPIC_API_KEY := Some "";
              HUGGINGFACE_API_KEY := Some "hf"; GOOGLE_AI_API_KEY := Some "g" |}
           [Call (clock_from 0) (sample_request "hello" None); Imported]
           (clock_from 5) (sample_request "hello" (Some "auto"))).
  - reflexivity.
  - reflexivity.
Defined.

End GatewayFacts.

(* ===================================================================== *)
(** ** [formatTime] *)
(* ===================================================================== *)

Module DisplayFacts.
Import JsMore Display.
Local Open Scope Z_scope.

Lemma round_div_spec a b : 0 < b -> round_div a b = (2 * a + b) / (2 * b).
Proof.
  intros Hb. destruct b as [|p|p]; try lia.
  unfold round_div, round, Qfloor, Qplus, Qdiv, Qinv, Qmult, inject_Z. cbn.
  f_equal; lia.
Qed.

Lemma round_whole z : round (inject_Z z) = z.
Proof.
  unfold round, Qfloor, Qplus, inject_Z. cbn.
  symmetry. apply (Z.div_unique _ _ z 1); lia.
Qed.

(** Rounding a quotient to the nearest integer adds one to the whole
    quotient from the half on. *)
Lemma round_div_half a b :
  0 <= a -> 0 < b ->
  round_div a (2 * b) = a / (2 * b) + (if a mod (2 * b) <? b then 0 else 1).
Proof.
  intros Ha Hb. rewrite round_div_spec by lia.
  pose proof (Z.div_mod a (2 * b) ltac:(lia)) as Hdiv.
  pose proof (Z.mod_pos_bound a (2 * b) ltac:(lia)) as Hmod.
  set (q := a / (2 * b)) in *. set (r := a mod (2 * b)) in *.
  destruct (Z.ltb_spec r b) as [Hlt|Hge].
  - symmetry. apply (Z.div_unique _ _ (q + 0) (2 * r + 2 * b)); lia.
  - symmetry. apply (Z.div_unique _ _ (q + 1) (2 * r - 2 * b)); lia.
Qed.

(** X27.  On a whole number of seconds from a minute on, [formatTime]
    rounds the larger unit to the nearest instead of down, while the
    smaller unit is the remainder: from the half of each larger unit on the
    text overstates the time by one such unit (90 seconds read [2m 30s],
    3599 seconds read [60m 59s]). *)
Theorem formatTime_rounds_the_larger_unit (seconds : Z) :
  60 <= seconds ->
  formatTime seconds
  = if seconds <? 3600
    then Js.toString (seconds / 60 + (if seconds mod 60 <? 30 then 0 else 1)) +:+ "m "
         +:+ Js.toString (seconds mod 60) +:+ "s"
    else Js.toString (seconds / 3600 + (if seconds mod 3600 <? 1800 then 0 else 1)) +:+ "h "
         +:+ Js.toString (seconds mod 3600 / 60 + (if seconds mod 60 <? 30 then 0 else 1))
         +:+ "m".
Proof.
  intros Hs. unfold formatTime.
  destruct (Z.ltb_spec seconds 60) as [Hlt|_]; [lia|].
  rewrite !Z.rem_mod_nonneg by lia.
  destruct (Z.ltb_spec seconds 3600) as [Hmin|Hhour].
  - rewrite round_whole. change 60 with (2 * 30) at 1.
    rewrite round_div_half by lia. reflexivity.
  - change 3600 with (2 * 1800) at 1. rewrite round_div_half by lia.
    pose proof (Z.mod_pos_bound seconds 3600 ltac:(lia)) as Hmod.
    change 60 with (2 * 30) at 1. rewrite round_div_half by lia.
    change (2 * 1800) with 3600. change (2 * 30) with 60.
    replace (seconds mod 3600 mod 60) with (seconds mod 60); [reflexivity|].
    rewrite (Z.div_mod seconds 3600) at 1 by lia.
    replace (3600 * (seconds / 3600) + seconds mod 3600)
      with (seconds mod 3600 + 60 * (seconds / 3600) * 60) by lia.
    apply Z_mod_plus_full.
Qed.

Lemma formatTime_rounds_the_larger_unit_witness : formatTime 90 = "2m 30s".
Proof. apply (formatTime_rounds_the_larger_unit 90). lia. Defined.

End DisplayFacts.
